(** * generate-readmes.py: the README generator, embedded and verified

    The script walks [<project_root>/src], queues every folder that has no
    [README.md], and for each queued folder, shallowest first, analyses the
    folder's direct children, renders a Markdown placeholder and writes it to
    [<folder>/README.md].

    Modelling choices.
    - The file system is a finite tree rooted at the project root.  A
      directory keeps its entries as an association list in enumeration order
      (the order of [os.scandir] / [os.listdir]), with the three permission
      bits of a POSIX directory: [listable] (read: its entries can be
      enumerated), [writable] (write: a new entry can be created in it) and
      [searchable] (execute: its entries can be looked up, so that [stat],
      [open] and [scandir] can go through it).  A regular file carries its
      decoded text, or [None] when opening or decoding it as UTF-8 fails.
      Symbolic links and special files are outside the model, and so are
      the directories above the project root, which are taken to be
      searchable.
    - A write that the permissions allow can still fail, before the file is
      created or after: the [device] of a run tells which writes do.
    - Python [str] values are byte strings holding UTF-8.  Comparison of
      byte strings is comparison by code point, so [sorted] is modelled
      exactly.  [str.title] and [str.lower] are modelled on ASCII strings
      only: on other strings they depend on the Unicode character database;
      the statements that depend on their value assume an ASCII name.
    - A path is the list of its components below the project root, so
      [src_path] is [["src"]] and [project_root] is [[]].
    - Console output and file accesses are recorded in an event log; the
      console is taken to accept what is printed. *)

From Stdlib Require Import Ascii String DecimalString.
From stdpp Require Import base option list strings gmap sorting.

(** ** Python string primitives *)

Module PyStr.

(** The one-character string ["\n"]. *)
Definition nl : string := String (ascii_of_nat 10) EmptyString.

(** [s[i:]] for [0 <= i]. *)
Fixpoint drop (i : nat) (s : string) : string :=
  match i, s with
  | 0, _ => s
  | S _, EmptyString => EmptyString
  | S i', String _ s' => drop i' s'
  end.

(** [s.rfind(c)]; [None] stands for Python's [-1]. *)
Fixpoint rfind (c : ascii) (s : string) : option nat :=
  match s with
  | EmptyString => None
  | String a s' =>
      match rfind c s' with
      | Some i => Some (S i)
      | None => if Ascii.eqb a c then Some 0 else None
      end
  end.

(** [s.endswith(suf)]. *)
Definition endswith (s suf : string) : bool :=
  (String.length suf <=? String.length s)
  && String.eqb (drop (String.length s - String.length suf) s) suf.

(** [s.endswith((suf1, ..., sufn))]. *)
Definition endswith_any (s : string) (sufs : list string) : bool :=
  existsb (endswith s) sufs.

Definition is_lower (c : ascii) : bool :=
  (97 <=? nat_of_ascii c) && (nat_of_ascii c <=? 122).
Definition is_upper (c : ascii) : bool :=
  (65 <=? nat_of_ascii c) && (nat_of_ascii c <=? 90).
Definition to_upper (c : ascii) : ascii :=
  if is_lower c then ascii_of_nat (nat_of_ascii c - 32) else c.
Definition to_lower (c : ascii) : ascii :=
  if is_upper c then ascii_of_nat (nat_of_ascii c + 32) else c.

(** Every character is an ASCII character. *)
Fixpoint is_ascii (s : string) : bool :=
  match s with
  | EmptyString => true
  | String c s' => (nat_of_ascii c <? 128) && is_ascii s'
  end.

(** [s.title()] for an ASCII string [s]: the first letter of every run of
    letters is upper-cased, the others are lower-cased.  (On a string with
    other characters [str.title] also cases the letters outside ASCII;
    this function does not, and is not used for such strings.) *)
Fixpoint title_go (previous_is_cased : bool) (s : string) : string :=
  match s with
  | EmptyString => EmptyString
  | String c s' =>
      if is_lower c then
        String (if previous_is_cased then c else to_upper c) (title_go true s')
      else if is_upper c then
        String (if previous_is_cased then to_lower c else c) (title_go true s')
      else String c (title_go false s')
  end.
Definition title : string → string := title_go false.

(** [s.lower()] for an ASCII string [s]. *)
Fixpoint lower (s : string) : string :=
  match s with
  | EmptyString => EmptyString
  | String c s' => String (to_lower c) (lower s')
  end.

(** [str(n)] for a non-negative integer. *)
Definition of_nat (n : nat) : string := NilZero.string_of_uint (Nat.to_uint n).

(** [len(f.readlines())] for a text file opened with the default
    [newline=None]: ["\n"], ["\r"] and ["\r\n"] each end a line, and a
    non-empty remainder after the last line end is one more line.
    [pending] tells whether characters were seen since the last line end. *)
Fixpoint count_lines (pending : bool) (s : string) : nat :=
  match s with
  | EmptyString => if pending then 1 else 0
  | String c s' =>
      if Ascii.eqb c (ascii_of_nat 10) then S (count_lines false s')
      else if Ascii.eqb c (ascii_of_nat 13) then
        match s' with
        | String c' s'' =>
            if Ascii.eqb c' (ascii_of_nat 10) then S (count_lines false s'')
            else S (count_lines false s')
        | EmptyString => 1
        end
      else count_lines true s'
  end.
Definition readlines_len : string → nat := count_lines false.

(** [sep.join(ls)]. *)
Definition join (sep : string) (ls : list string) : string := String.concat sep ls.

End PyStr.

(** ** pathlib *)

Abbreviation path := (list string).

Module PurePath.

(** [Path.suffix] (CPython's [pathlib]): the part of the final component
    from its last dot on, unless that dot is the first or the last
    character. *)
Definition suffix (name : string) : string :=
  match PyStr.rfind "."%char name with
  | Some i =>
      if (0 <? i) && (i <? String.length name - 1) then PyStr.drop i name else EmptyString
  | None => EmptyString
  end.

(** [Path.name]: the final component; the project root is
    [/Users/orlandoascanio/Desktop/PersonalOpenClawVersion]. *)
Definition name (p : path) : string := default "PersonalOpenClawVersion" (last p).

(** [Path.parent].  The directories above the project root are not
    modelled: the walk starts below it, and the driver takes the parent of
    the folders it walks only. *)
Definition parent (p : path) : path := removelast p.

(** [p / child]. *)
Definition child (p : path) (c : string) : path := p ++ [c].

(** [len(p.parts)], up to the constant number of parts of the project
    root, which does not change the order of the keys. *)
Definition depth (p : path) : nat := length p.

End PurePath.

(** ** The file system *)

#[warnings="-register-all"]
Inductive node : Type :=
  | File (text : option string)
  | Dir (listable writable searchable : bool) (entries : list (string * node)).

Definition is_file (n : node) : bool :=
  match n with File _ => true | Dir _ _ _ _ => false end.
Definition is_dir (n : node) : bool :=
  match n with File _ => false | Dir _ _ _ _ => true end.

(** The [OSError]s that may escape the script. *)
Inductive exn : Type :=
  | FileNotFoundError
  | NotADirectoryError
  | PermissionError.

(** The entry called [name] of a directory listing. *)
Fixpoint entry_lookup (name : string) (es : list (string * node)) : option node :=
  match es with
  | [] => None
  | (k, n) :: es' => if String.eqb k name then Some n else entry_lookup name es'
  end.

(** Replace the entry called [name]. *)
Fixpoint entry_replace (name : string) (n' : node) (es : list (string * node))
  : list (string * node) :=
  match es with
  | [] => []
  | (k, n) :: es' =>
      if String.eqb k name then (k, n') :: es' else (k, n) :: entry_replace name n' es'
  end.

(** The node at a path, whatever the permissions on the way: what the tree
    holds there. *)
Fixpoint lookup_path (p : path) (n : node) : option node :=
  match p with
  | [] => Some n
  | c :: p' =>
      match n with
      | Dir _ _ _ es =>
          match entry_lookup c es with
          | Some n' => lookup_path p' n'
          | None => None
          end
      | File _ => None
      end
  end.

(** The tree holds something at the path. *)
Definition present (fs : node) (p : path) : bool :=
  bool_decide (is_Some (lookup_path p fs)).

(** [os.stat(p)]: the node at the path as the system resolves it, one
    component after the other.  Looking a name up in a directory needs the
    search permission on that directory ([EACCES] otherwise); a name that
    is not there gives [ENOENT], and going through a regular file
    [ENOTDIR]. *)
Fixpoint stat (p : path) (n : node) : exn + node :=
  match p with
  | [] => inr n
  | c :: p' =>
      match n with
      | File _ => inl NotADirectoryError
      | Dir _ _ x es =>
          if x then
            match entry_lookup c es with
            | Some n' => stat p' n'
            | None => inl FileNotFoundError
            end
          else inl PermissionError
      end
  end.

(** [Path.exists()]: [stat] succeeds; of the errors of [stat], [ENOENT]
    and [ENOTDIR] mean that the path does not exist, and [EACCES] is
    raised again. *)
Definition path_exists (fs : node) (p : path) : exn + bool :=
  match stat p fs with
  | inr _ => inr true
  | inl PermissionError => inl PermissionError
  | inl _ => inr false
  end.

(** Directory names are unique within a directory, hereditarily. *)
Fixpoint wf_node (n : node) : bool :=
  match n with
  | File _ => true
  | Dir _ _ _ es =>
      bool_decide (NoDup (map fst es))
      && (fix all (es : list (string * node)) : bool :=
            match es with
            | [] => true
            | e :: es' => wf_node (snd e) && all es'
            end) es
  end.

(** [open(file, 'w')] followed by the write of [text], as far as the
    permissions of the tree decide: the directories on the way must be
    searchable; an existing regular file is truncated and rewritten; a new
    file needs a writable directory; a directory cannot be opened for
    writing.  [None] when [open] raises. *)
Fixpoint store (file : path) (text : string) (n : node) : option node :=
  match file with
  | [] => None
  | c :: rest =>
      match n with
      | File _ => None
      | Dir r w x es =>
          if x then
            match rest with
            | [] =>
                match entry_lookup c es with
                | Some (File _) => Some (Dir r w x (entry_replace c (File (Some text)) es))
                | Some (Dir _ _ _ _) => None
                | None =>
                    if w then Some (Dir r w x (es ++ [(c, File (Some text))])) else None
                end
            | _ :: _ =>
                match entry_lookup c es with
                | Some n' =>
                    match store rest text n' with
                    | Some n'' => Some (Dir r w x (entry_replace c n'' es))
                    | None => None
                    end
                | None => None
                end
            end
          else None
      end
  end.

(** What can go wrong with a write that the permissions allow.
    [OpenFault]: [open] raises all the same (a read-only volume, no room
    for a new entry, a target file that is not writable), and nothing
    changes.  [WriteFault k]: the file is created, or truncated, and then
    encoding or writing the text raises (a text that cannot be encoded, a
    full volume, a quota) when [k] characters have reached the file: the
    file is left with that part of the text, empty when [k] is [0]. *)
Inductive fault : Type := NoFault | OpenFault | WriteFault (written : nat).

(** The faults of the writes of one run, by target and text. *)
Definition device : Type := path → string → fault.

(** The outcome of [Path.write_text]: it returns or it raises, and either
    way leaves a tree behind. *)
Inductive write_outcome : Type :=
  | WriteReturned (fs : node)
  | WriteRaised (fs : node).

(** [Path.write_text(content)]: [open(file, 'w')], which creates or
    truncates the file, then the write of the text. *)
Definition write_text (dev : device) (file : path) (content : string) (fs : node)
  : write_outcome :=
  match dev file content with
  | NoFault =>
      match store file content fs with
      | Some fs' => WriteReturned fs'
      | None => WriteRaised fs
      end
  | OpenFault => WriteRaised fs
  | WriteFault k =>
      match store file (String.substring 0 k content) fs with
      | Some fs' => WriteRaised fs'
      | None => WriteRaised fs
      end
  end.

(** [os.walk(top)] with the default [topdown=True, onerror=None]: the
    directories yielded, in order, as paths relative to [top], for a [top]
    that can be reached.  A directory that cannot be scanned yields nothing
    and is not descended into; below a directory that can be scanned but
    not searched, no directory can be scanned. *)
Fixpoint os_walk (n : node) : list path :=
  match n with
  | File _ => []
  | Dir r _ x es =>
      if r then
        [] :: (if x then
                 (fix walk_dirs (es : list (string * node)) : list path :=
                    match es with
                    | [] => []
                    | e :: es' => map (cons (fst e)) (os_walk (snd e)) ++ walk_dirs es'
                    end) es
               else [])
      else []
  end.

(** ** Events *)

(** What a run does to the outside world, in order. *)
Inductive event : Type :=
  | EOpen (file : path)                     (* [open(item, 'r')], line 35 *)
  | EWrite (file : path) (content : string) (* [write_text] returned, line 186 *)
  | EPrintMissingRoot                       (* line 148 *)
  | EPrintGenerating                        (* line 151 *)
  | EPrintExists (folder : path)            (* line 161 *)
  | EPrintFound (n : nat)                   (* line 167 *)
  | EPrintCreated (file : path)             (* line 187 *)
  | EPrintFailed (file : path)              (* line 189 *)
  | EPrintDone (n : nat).                   (* lines 191-196 *)

(** ** analyze_folder *)

Record FolderAnalysis : Type := mkInfo {
  fa_path : path;
  fa_name : string;
  files : list string;
  subfolders : list string;
  line_counts : gmap string nat;
  has_typescript : bool;
  has_javascript : bool;
  has_json : bool;
  has_markdown : bool
}.

Definition add_file (f : string) (i : FolderAnalysis) : FolderAnalysis :=
  mkInfo (fa_path i) (fa_name i) (files i ++ [f]) (subfolders i) (line_counts i)
    (has_typescript i) (has_javascript i) (has_json i) (has_markdown i).
Definition add_subfolder (d : string) (i : FolderAnalysis) : FolderAnalysis :=
  mkInfo (fa_path i) (fa_name i) (files i) (subfolders i ++ [d]) (line_counts i)
    (has_typescript i) (has_javascript i) (has_json i) (has_markdown i).
Definition set_line_count (f : string) (k : nat) (i : FolderAnalysis) : FolderAnalysis :=
  mkInfo (fa_path i) (fa_name i) (files i) (subfolders i) (<[f := k]> (line_counts i))
    (has_typescript i) (has_javascript i) (has_json i) (has_markdown i).
Definition set_typescript (i : FolderAnalysis) : FolderAnalysis :=
  mkInfo (fa_path i) (fa_name i) (files i) (subfolders i) (line_counts i)
    true (has_javascript i) (has_json i) (has_markdown i).
Definition set_javascript (i : FolderAnalysis) : FolderAnalysis :=
  mkInfo (fa_path i) (fa_name i) (files i) (subfolders i) (line_counts i)
    (has_typescript i) true (has_json i) (has_markdown i).
Definition set_json (i : FolderAnalysis) : FolderAnalysis :=
  mkInfo (fa_path i) (fa_name i) (files i) (subfolders i) (line_counts i)
    (has_typescript i) (has_javascript i) true (has_markdown i).
Definition set_markdown (i : FolderAnalysis) : FolderAnalysis :=
  mkInfo (fa_path i) (fa_name i) (files i) (subfolders i) (line_counts i)
    (has_typescript i) (has_javascript i) (has_json i) true.

(** Lines 14-24. *)
Definition empty_info (folder_path : path) : FolderAnalysis :=
  mkInfo folder_path (PurePath.name folder_path) [] [] ∅ false false false false.

Definition typescript_suffixes : list string := [".ts"; ".tsx"].
Definition javascript_suffixes : list string := [".js"; ".jsx"].
Definition excluded_dirs : list string := ["node_modules"; ".git"; "__pycache__"].

(** Lines 34-39: the line count of a file, [0] when the read raises. *)
Definition try_count_lines (text : option string) : nat :=
  match text with
  | Some s => PyStr.readlines_len s
  | None => 0
  end.

(** Lines 27-49: one iteration of the loop over [folder_path.iterdir()].
    The state is the analysis so far and the files opened so far. *)
Definition analyze_item (folder_path : path)
    (st : FolderAnalysis * list event) (item : string * node)
  : FolderAnalysis * list event :=
  let '(info, opened) := st in
  let '(item_name, n) := item in
  match n with
  | File text =>
      let info := add_file item_name info in
      let sfx := PurePath.suffix item_name in
      if bool_decide (sfx ∈ typescript_suffixes) then
        (set_line_count item_name (try_count_lines text) (set_typescript info),
         opened ++ [EOpen (PurePath.child folder_path item_name)])
      else if bool_decide (sfx ∈ javascript_suffixes) then (set_javascript info, opened)
      else if bool_decide (sfx = ".json") then (set_json info, opened)
      else if bool_decide (sfx = ".md") then (set_markdown info, opened)
      else (info, opened)
  | Dir _ _ _ _ =>
      if bool_decide (item_name ∉ excluded_dirs)
      then (add_subfolder item_name info, opened)
      else (info, opened)
  end.

(** Lines 14-49: the analysis of a directory whose entries are [es]. *)
Definition analyze_entries (folder_path : path) (es : list (string * node))
  : FolderAnalysis * list event :=
  fold_left (analyze_item folder_path) es (empty_info folder_path, []).

(** Lines 12-51.  [Path.iterdir] raises when the path cannot be reached or
    is not a directory whose entries can be enumerated.  With an entry at
    hand, [item.is_file()] raises when the directory cannot be searched;
    that is at the first entry, before any file is opened. *)
Definition analyze_folder (fs : node) (folder_path : path)
  : exn + FolderAnalysis * list event :=
  match stat folder_path fs with
  | inl e => inl e
  | inr (File _) => inl NotADirectoryError
  | inr (Dir r _ x es) =>
      if r then
        match es with
        | [] => inr (analyze_entries folder_path es)
        | _ :: _ =>
            if x then inr (analyze_entries folder_path es) else inl PermissionError
        end
      else inl PermissionError
  end.

(** ** generate_readme_content *)

(** The optional parent summary, a dictionary with the single key ['name']. *)
Record ParentInfo : Type := mkParent { parent_name : string }.

(** Lines 63-78. *)
Definition purpose_map : gmap string string :=
  list_to_map
    [ ("agent", "AI Agent System");
      ("memory", "Memory Management System");
      ("cli", "Command-Line Interface");
      ("gateway", "Main Gateway/Server");
      ("tools", "Tool Definitions and Implementations");
      ("utils", "Utility Functions");
      ("types", "TypeScript Type Definitions");
      ("plugins", "Plugin System");
      ("protocol", "Communication Protocols");
      ("storage", "Data Storage and Persistence");
      ("web", "Web Interface/Dashboard");
      ("shadow", "Shadow/Parallel Execution System");
      ("subagents", "Sub-agent Management");
      ("config", "Configuration Management") ].

(** Line 80: [purpose_map.get(folder_name, f'{folder_name.title()} Module')].
    (Lines 57-60 compute [project_name], which nothing reads afterwards.) *)
Definition purpose (folder_name : string) : string :=
  default (PyStr.title folder_name +:+ " Module") (purpose_map !! folder_name).

(** Line 84. *)
Definition title_line (folder_name : string) : string :=
  "# 📁 " +:+ folder_name +:+ "/ - " +:+ purpose folder_name.

(** [sorted] on a list of [str]. *)
Definition sorted (l : list string) : list string := merge_sort String.le l.

Definition counted_file_line (file : string) (k : nat) : string :=
  "- `" +:+ file +:+ "` - (" +:+ PyStr.of_nat k +:+ " lines) [Description]".
Definition plain_file_line (file : string) : string :=
  "- `" +:+ file +:+ "` - [Description]".
Definition subfolder_line (subfolder : string) : string :=
  "- `" +:+ subfolder +:+ "/` - [Purpose]".
Definition parent_link_line (parent : string) : string :=
  "- See `../README.md` for " +:+ parent +:+ " overview".

Definition key_files_heading : string := "## 📄 Key Files".
Definition subfolders_heading : string := "## 📁 Subfolders".
Definition related_heading : string := "## 📚 Related Documentation".

(** Lines 94-97: the lines one file contributes to the Key Files section. *)
Definition key_file_lines (info : FolderAnalysis) (file : string) : list string :=
  if PyStr.endswith file ".ts" && bool_decide (is_Some (line_counts info !! file)) then
    [counted_file_line file (line_counts info !!! file)]
  else if PyStr.endswith_any file [".ts"; ".js"; ".json"; ".md"] then
    [plain_file_line file]
  else [].

(** Lines 91-98. *)
Definition key_files_section (info : FolderAnalysis) : list string :=
  match files info with
  | [] => []
  | _ :: _ =>
      [key_files_heading]
      ++ concat (map (key_file_lines info) (sorted (files info)))
      ++ [EmptyString]
  end.

(** Lines 101-105. *)
Definition subfolders_section (info : FolderAnalysis) : list string :=
  match subfolders info with
  | [] => []
  | _ :: _ =>
      [subfolders_heading] ++ map subfolder_line (sorted (subfolders info)) ++ [EmptyString]
  end.

(** Lines 108-128. *)
Definition static_sections : list string :=
  [ "## ⚠️ Important Constraints";
    "- [Add important technical constraints or requirements]";
    "- [Add rate limits, API constraints, etc.]";
    EmptyString;
    "## 🔌 Public Interfaces";
    "- `[ClassNameOrFunction]` - [Purpose]";
    EmptyString;
    "## 🔄 Integration Points";
    "- **Connected to**: [Other modules this interacts with]";
    "- **Used by**: [Who consumes this module]";
    EmptyString;
    "## 🚨 Common Issues & Fixes";
    "1. **[Common error]**: [Solution]";
    "2. **[Performance issue]**: [Optimization]";
    EmptyString ].

(** Lines 131-134. *)
Definition related_section (parent_info : option ParentInfo) : list string :=
  related_heading ::
  match parent_info with
  | Some pi => [parent_link_line (parent_name pi)]
  | None => []
  end.

(** Lines 137-139. *)
Definition footer : list string :=
  [ EmptyString; "---";
    "*This README was auto-generated. Please update with specific details about this module.*" ].

(** Lines 83-139: the list [lines] when the function returns. *)
Definition readme_lines (folder_info : FolderAnalysis) (parent_info : option ParentInfo)
  : list string :=
  [ title_line (fa_name folder_info); EmptyString;
    "## 🎯 What This Folder Does";
    "[Brief description of what this module does within Talon AI Assistant]";
    EmptyString ]
  ++ key_files_section folder_info
  ++ subfolders_section folder_info
  ++ static_sections
  ++ related_section parent_info
  ++ footer.

(** Lines 53-141. *)
Definition generate_readme_content (folder_info : FolderAnalysis)
    (parent_info : option ParentInfo) : string :=
  PyStr.join PyStr.nl (readme_lines folder_info parent_info).

(** ** main *)

Definition project_root : path := [].
Definition src_path : path := PurePath.child project_root "src".
Definition readme_of (folder : path) : path := PurePath.child folder "README.md".

(** The outcome of a run: it returns, or an exception escapes; either way
    with the file system and the event log it leaves behind. *)
Inductive run_result : Type :=
  | Returned (fs : node) (log : list event)
  | Escaped (e : exn) (fs : node) (log : list event).

(** [os.walk(src_path)]: the roots yielded, as paths from the project root. *)
Definition walk_roots (fs : node) : list path :=
  match stat src_path fs with
  | inr n => map (app src_path) (os_walk n)
  | inl _ => []
  end.

(** Lines 154-165: the discovery loop over the roots yielded by the walk;
    gives [folders_to_process] and what was printed, as far as the loop
    goes, and the exception that ends it early, if any: [exists] is not
    guarded. *)
Fixpoint discover_loop (fs : node) (roots : list path)
  : list path * list event * option exn :=
  match roots with
  | [] => ([], [], None)
  | root_path :: roots' =>
      match path_exists fs (readme_of root_path) with
      | inl e => ([], [], Some e)
      | inr true =>
          let '(folders_to_process, log, raised) := discover_loop fs roots' in
          (folders_to_process, EPrintExists root_path :: log, raised)
      | inr false =>
          let '(folders_to_process, log, raised) := discover_loop fs roots' in
          (root_path :: folders_to_process, log, raised)
      end
  end.

Definition discover_run (fs : node) : list path * list event * option exn :=
  discover_loop fs (walk_roots fs).

(** The queue and the messages of the discovery loop. *)
Definition discover (fs : node) : list path * list event := (discover_run fs).1.

(** The exception that escapes the discovery loop, if any. *)
Definition discover_raised (fs : node) : option exn := (discover_run fs).2.

(** [sorted(folders, key=lambda p: len(p.parts))]: a stable sort by depth. *)
Fixpoint insert_by_depth (p : path) (l : list path) : list path :=
  match l with
  | [] => [p]
  | q :: l' =>
      if PurePath.depth p <=? PurePath.depth q then p :: q :: l'
      else q :: insert_by_depth p l'
  end.
Definition sorted_by_depth (l : list path) : list path :=
  foldr insert_by_depth [] l.

(** Lines 174-178.  [parent_readme.exists()] is not guarded either. *)
Definition parent_info_of (fs : node) (folder_path : path) : exn + option ParentInfo :=
  if bool_decide (PurePath.parent folder_path ≠ src_path
                  ∧ PurePath.parent folder_path ≠ project_root)
  then
    match path_exists fs (readme_of (PurePath.parent folder_path)) with
    | inl e => inl e
    | inr true => inr (Some (mkParent (PurePath.name (PurePath.parent folder_path))))
    | inr false => inr None
    end
  else inr None.

(** Lines 171-189: the body of the generation loop.  The calls of
    [analyze_folder] and of [exists] are outside the [try]; only
    [write_text] is guarded.  An exception that escapes comes with what
    the iteration logged before. *)
Definition process_folder (dev : device) (fs : node) (folder_path : path)
  : exn * list event + node * list event :=
  match analyze_folder fs folder_path with
  | inl e => inl (e, [])
  | inr (folder_info, opened) =>
      match parent_info_of fs folder_path with
      | inl e => inl (e, opened)
      | inr parent_info =>
          let content := generate_readme_content folder_info parent_info in
          let readme_path := readme_of folder_path in
          match write_text dev readme_path content fs with
          | WriteReturned fs' =>
              inr (fs', opened ++ [EWrite readme_path content; EPrintCreated readme_path])
          | WriteRaised fs' => inr (fs', opened ++ [EPrintFailed readme_path])
          end
      end
  end.

(** Lines 170-189: the generation loop over the sorted queue. *)
Fixpoint generate (dev : device) (fs : node) (queue : list path) : run_result :=
  match queue with
  | [] => Returned fs []
  | folder_path :: queue' =>
      match process_folder dev fs folder_path with
      | inl (e, log1) => Escaped e fs log1
      | inr (fs1, log1) =>
          match generate dev fs1 queue' with
          | Returned fs2 log2 => Returned fs2 (log1 ++ log2)
          | Escaped e fs2 log2 => Escaped e fs2 (log1 ++ log2)
          end
      end
  end.

(** Lines 143-196, on a tree that others may change while the script
    runs: [fs] is the tree during discovery, [fs_gen] the tree when the
    generation loop starts. *)
Definition main_between (dev : device) (fs fs_gen : node) : run_result :=
  match path_exists fs src_path with
  | inl e => Escaped e fs []
  | inr false => Returned fs [EPrintMissingRoot]
  | inr true =>
      let '(folders_to_process, log0, raised) := discover_run fs in
      match raised with
      | Some e => Escaped e fs ([EPrintGenerating] ++ log0)
      | None =>
          let n := length folders_to_process in
          match generate dev fs_gen (sorted_by_depth folders_to_process) with
          | Returned fs' log =>
              Returned fs'
                ([EPrintGenerating] ++ log0 ++ [EPrintFound n] ++ log ++ [EPrintDone n])
          | Escaped e fs' log =>
              Escaped e fs' ([EPrintGenerating] ++ log0 ++ [EPrintFound n] ++ log)
          end
      end
  end.

(** Lines 143-196, on a tree that only the script changes. *)
Definition main (dev : device) (fs : node) : run_result := main_between dev fs fs.

(** A device on which no write fails. *)
Definition reliable_device : device := λ _ _, NoFault.

(** ** Sample trees *)

Module Examples.

(** The text made of the given lines, each followed by a newline. *)
Definition text (ls : list string) : option string :=
  Some (String.concat EmptyString (map (λ l, l +:+ PyStr.nl) ls)).

(** A folder with a TypeScript file, a TSX file and a JSX file. *)
Definition ui_entries : list (string * node) :=
  [ ("view.jsx", File (text ["export default View"]));
    ("App.tsx", File (text ["import View"; "export default App"]));
    ("main.ts", File (text ["run()"])) ].

(** The example of the specification, with shorter files: [agent/] with
    [planner.ts] (4 lines), [types.ts] (1 line) and a subfolder [tools/]. *)
Definition agent_entries : list (string * node) :=
  [ ("types.ts", File (text ["type T"]));
    ("tools", Dir true true true []);
    ("planner.ts", File (text ["a"; "b"; "c"; "d"])) ].

Definition agent_project : node :=
  Dir true true true
    [("src", Dir true true true [("agent", Dir true true true agent_entries)])].

(** A folder whose name differs from a key of the purpose table by case
    only. *)
Definition cased_project : node :=
  Dir true true true [("src", Dir true true true [("Agent", Dir true true true [])])].

(** A folder in which no file can be created, with a subfolder. *)
Definition locked_project : node :=
  Dir true true true
    [("src", Dir true true true
       [("locked", Dir true false true [("child", Dir true true true [])])])].

(** [src/] holds a README and two empty folders. *)
Definition two_folders_project : node :=
  Dir true true true
    [("src", Dir true true true
       [ ("README.md", File (Some "kept"));
         ("a", Dir true true true []);
         ("b", Dir true true true []) ])].

(** The same tree after [src/a] lost its read permission: [src/a] cannot be
    enumerated, [src/b] can. *)
Definition unreadable_project : node :=
  Dir true true true
    [("src", Dir true true true
       [ ("README.md", File (Some "kept"));
         ("a", Dir false true true []);
         ("b", Dir true true true []) ])].

(** A dependency directory below a folder that has its README. *)
Definition deps_src : node :=
  Dir true true true
    [ ("README.md", File (Some "kept"));
      ("node_modules", Dir true true true [("left-pad", Dir true true true [])]) ].
Definition deps_project : node := Dir true true true [("src", deps_src)].

(** A dependency directory in which no file can be created. *)
Definition readonly_deps_project : node :=
  Dir true true true
    [("src", Dir true true true [("node_modules", Dir true false true [])])].

(** A repository directory below a folder that cannot be enumerated. *)
Definition hidden_git_project : node :=
  Dir true true true
    [("src", Dir true true true
       [("vault", Dir false true true [(".git", Dir true true true [])])])].

End Examples.

(** ** Auxiliary notions used in the statements *)

(** A character that does not end a line. *)
Definition plain_char (c : ascii) : bool :=
  negb (Ascii.eqb c (ascii_of_nat 10)) && negb (Ascii.eqb c (ascii_of_nat 13)).

Fixpoint plain_line (s : string) : bool :=
  match s with
  | EmptyString => true
  | String c s' => plain_char c && plain_line s'
  end.

(** The text made of the given lines, each followed by a newline. *)
Definition terminated_lines (ls : list string) : string :=
  String.concat EmptyString (map (λ l, l +:+ PyStr.nl) ls).


(** The directories yielded below the entries of a directory. *)
Fixpoint walk_entries (es : list (string * node)) : list path :=
  match es with
  | [] => []
  | e :: es' => map (cons (fst e)) (os_walk (snd e)) ++ walk_entries es'
  end.

(** What the walk yields from the node at a path; nothing when there is none. *)
Definition walk_at (fs : node) (p : path) : list path :=
  match lookup_path p fs with
  | Some n => os_walk n
  | None => []
  end.

(** Every directory on the way down [p], the last one included, can be
    enumerated, and every one above the last can be searched. *)
Fixpoint walkable (p : path) (n : node) : bool :=
  match n with
  | File _ => false
  | Dir r _ x es =>
      r && match p with
           | [] => true
           | c :: p' =>
               x && match entry_lookup c es with
                    | Some n' => walkable p' n'
                    | None => false
                    end
           end
  end.

(** The kind of the node at a path: nothing, a file with its text, or a
    directory with its permission bits. *)
Definition kind_of (o : option node) : option (option string + bool * bool * bool) :=
  match o with
  | None => None
  | Some (File t) => Some (inl t)
  | Some (Dir r w x _) => Some (inr (r, w, x))
  end.

(** The directory at the root of the tree can be searched. *)
Definition root_searchable (fs : node) : bool :=
  match fs with
  | File _ => false
  | Dir _ _ x _ => x
  end.

(** A regular file whose suffix is one of those whose lines are counted. *)
Definition tracked_file (e : string * node) : bool :=
  is_file (snd e) && bool_decide (PurePath.suffix (fst e) ∈ typescript_suffixes).

(** A directory that the analyzer lists as a subfolder. *)
Definition listed_subfolder (e : string * node) : bool :=
  is_dir (snd e) && bool_decide (fst e ∉ excluded_dirs).

(** The line count that the analyzer records for the entry called [f]. *)
Definition tracked_count (f : string) (es : list (string * node)) : option nat :=
  match entry_lookup f es with
  | Some (File t) =>
      if bool_decide (PurePath.suffix f ∈ typescript_suffixes)
      then Some (try_count_lines t) else None
  | _ => None
  end.

(** Strict lexicographic order on names. *)
Definition name_lt : relation string := strict String.le.

(** A line of the Key Files section that is the entry of the file [f]. *)
Definition key_file_entry (f line : string) : Prop :=
  line = plain_file_line f ∨ ∃ k, line = counted_file_line f k.

(** The last character of a string, if any. *)
Fixpoint last_char (s : string) : option ascii :=
  match s with
  | EmptyString => None
  | String a s' =>
      match last_char s' with
      | Some c => Some c
      | None => Some a
      end
  end.

(** The files written during a run, in order. *)
Definition written_files (log : list event) : list path :=
  omap (λ e, match e with EWrite f _ => Some f | _ => None end) log.


(** The path is a directory that the walk from [src_path] reaches:
    [src_path] can be reached, every directory from [src_path] down to the
    path can be enumerated, and every one above the path can be searched. *)
Definition reached_by_walk (fs : node) (p : path) : Prop :=
  ∃ rel n, p = src_path ++ rel
           ∧ stat src_path fs = inr n ∧ walkable rel n = true.

(** Ascending depth. *)
Definition depth_le : relation path := λ p q, PurePath.depth p ≤ PurePath.depth q.

(** The file system and the log that a run leaves behind. *)
Definition final_fs (r : run_result) : node :=
  match r with Returned fs _ | Escaped _ fs _ => fs end.
Definition final_log (r : run_result) : list event :=
  match r with Returned _ log | Escaped _ _ log => log end.

(** A message of the driver outside the generation loop. *)
Definition is_driver_print (e : event) : bool :=
  match e with
  | EPrintMissingRoot | EPrintGenerating | EPrintExists _ | EPrintFound _
  | EPrintDone _ => true
  | _ => false
  end.

(** [s in doc]: the string [s] occurs in [doc]. *)
Fixpoint occurs (s doc : string) : bool :=
  String.prefix s doc
  || match doc with
     | EmptyString => false
     | String _ doc' => occurs s doc'
     end.

(** The text that ends every document: the blank line, the rule and the
    notice of lines 137-139. *)
Definition footer_text : string := PyStr.join PyStr.nl footer.

(** ** The claims that the code departs from, as the specification words them *)

(** The purpose as the specification words it: the table entry for the
    lowercase folder name, or the titlecased default. *)
Definition spec_purpose (folder_name : string) : string :=
  default (PyStr.title folder_name +:+ " Module")
          (purpose_map !! PyStr.lower folder_name).

Definition spec_title_line (folder_name : string) : string :=
  "# 📁 " +:+ folder_name +:+ "/ - " +:+ spec_purpose folder_name.

(** C1 as worded: every folder queued at discovery ends the run with a
    README whose first line is the title with the purpose found by
    case-insensitive lookup; here for the runs on a device without fault
    and the folders with an ASCII name. *)
Definition C1_as_stated : Prop :=
  ∀ fs fs' log p,
    wf_node fs = true → main reliable_device fs = Returned fs' log →
    p ∈ (discover fs).1 → PyStr.is_ascii (PurePath.name p) = true →
    ∃ doc rest,
      lookup_path (readme_of p) fs' = Some (File (Some doc))
      ∧ doc = spec_title_line (PurePath.name p) +:+ PyStr.nl +:+ rest.

(** C4 as worded, first half: a folder whose document is written after its
    parent's README was written in the same run links to the parent. *)
Definition C4_link_as_stated : Prop :=
  ∀ fs fs' log c doc parent_doc before after,
    wf_node fs = true → main reliable_device fs = Returned fs' log →
    log = before ++ EWrite (readme_of (PurePath.parent c)) parent_doc :: after →
    EWrite (readme_of c) doc ∈ after →
    occurs (parent_link_line (PurePath.name (PurePath.parent c))) doc = true.

(** C4 as worded, second half: a folder whose parent has no README when
    the run ends has a document without the Related Documentation section. *)
Definition C4_omission_as_stated : Prop :=
  ∀ fs fs' log c doc,
    wf_node fs = true → main reliable_device fs = Returned fs' log →
    EWrite (readme_of c) doc ∈ log →
    present fs' (readme_of (PurePath.parent c)) = false →
    occurs related_heading doc = false.

(** The runs on the sample trees. *)
Definition agent_run : run_result := main reliable_device Examples.agent_project.
Definition deps_run : run_result := main reliable_device Examples.deps_project.

(** The content of the first write to [f] in a log. *)
Fixpoint written_doc (f : path) (log : list event) : string :=
  match log with
  | [] => EmptyString
  | EWrite f' doc :: log' => if decide (f' = f) then doc else written_doc f log'
  | _ :: log' => written_doc f log'
  end.

(** C9 as worded, first half: every directory below [src_path] named
    like an excluded directory and holding no README is queued. *)
Definition C9_queued_as_stated : Prop :=
  ∀ fs p r w x es,
    wf_node fs = true →
    src_path `prefix_of` p →
    lookup_path p fs = Some (Dir r w x es) →
    PurePath.name p ∈ excluded_dirs →
    present fs (readme_of p) = false →
    p ∈ (discover fs).1.

(** C9 as worded, second half: such a directory holds a README when the
    run ends. *)
Definition C9_documented_as_stated : Prop :=
  ∀ fs fs' log p r w x es,
    wf_node fs = true → main reliable_device fs = Returned fs' log →
    src_path `prefix_of` p →
    lookup_path p fs = Some (Dir r w x es) →
    PurePath.name p ∈ excluded_dirs →
    present fs (readme_of p) = false →
    present fs' (readme_of p) = true.

(** C10 as worded, last part: the renderer looks a file up in the
    line-count map when its name ends with [.ts] (line 94, whose second
    test is the lookup), and the lookup never misses. *)
Definition C10_as_stated : Prop :=
  ∀ fs p info opened f,
    wf_node fs = true →
    analyze_folder fs p = inr (info, opened) →
    f ∈ files info → PyStr.endswith f ".ts" = true →
    is_Some (line_counts info !! f).

(** ** Further notions, for the properties beyond the claims *)

(** Some regular file of the listing has one of the given suffixes. *)
Definition has_suffix_in (sufs : list string) (es : list (string * node)) : bool :=
  existsb (λ e, is_file (snd e) && bool_decide (PurePath.suffix (fst e) ∈ sufs)) es.

(** A folder with one file of every kind the analyzer distinguishes, a
    subfolder, and a dependency directory. *)
Definition mixed_entries : list (string * node) :=
  [ ("notes.md", File (Some "n"));
    ("node_modules", Dir true true true []);
    ("index.js", File None);
    ("lib", Dir true true true []);
    ("data.json", File (Some "{}"));
    ("LICENSE", File (Some "MIT"));
    ("main.ts", File (Examples.text ["a"; "b"])) ].

Definition mixed_project : node :=
  Dir true true true
    [("src", Dir true true true [("mixed", Dir true true true mixed_entries)])].

(** A tree whose [src] cannot be enumerated. *)
Definition closed_src_project : node :=
  Dir true true true [("src", Dir false true true [("agent", Dir true true true [])])].

(** The entries of [Examples.ui_entries] with an [App.tsx] that cannot be
    read. *)
Definition ui_entries_recounted : list (string * node) :=
  [ ("view.jsx", File (Examples.text ["export default View"]));
    ("App.tsx", File None);
    ("main.ts", File (Examples.text ["run()"])) ].

(** A folder with a file called [.ts] next to a file with that suffix. *)
Definition bare_ts_entries : list (string * node) :=
  [ (".ts", File (Some "x")); ("a.ts", File (Examples.text ["l"])) ].

Definition bare_ts_project : node :=
  Dir true true true
    [("src", Dir true true true [("odd", Dir true true true bare_ts_entries)])].

(** [src/sealed] can be enumerated but not searched; the walk comes to it
    after [src/open] and before [src/after]. *)
Definition sealed_project : node :=
  Dir true true true
    [("src", Dir true true true
       [ ("open", Dir true true true []);
         ("sealed", Dir true true false [("inner", Dir true true true [])]);
         ("after", Dir true true true []) ])].

(** A device on which every write fails once the file is created, before
    any character reaches it. *)
Definition full_device : device := λ _ _, WriteFault 0.

(** A device on which no file can be opened for writing. *)
Definition readonly_device : device := λ _ _, OpenFault.

(** The fault of a write in a directory with the given write permission:
    without it the file cannot be created, whatever the device. *)
Definition fault_in (writable : bool) (f : fault) : fault :=
  if writable then f else OpenFault.

(** The fault that the write of the README of [p] meets in a run that
    starts on [fs] and ends on [fs']: the one of the device for the
    document rendered from the listing of [p] in [fs] with the parent
    summary that [fs'] gives, unless no file can be created in [p]. *)
Definition readme_fault (dev : device) (fs fs' : node) (p : path) : option fault :=
  match lookup_path p fs, parent_info_of fs' p with
  | Some (Dir _ w _ es), inr pi =>
      Some (fault_in w (dev (readme_of p)
                          (generate_readme_content (analyze_entries p es).1 pi)))
  | _, _ => None
  end.

(** The README files whose write was reported, as created or as failed,
    in order. *)
Definition reported (log : list event) : list path :=
  omap (λ e, match e with
             | EPrintCreated f | EPrintFailed f => Some f
             | _ => None
             end) log.
(** * Properties *)

(** ** Strings *)

Section string_facts.

Lemma app_String a (s1 s2 : string) : String a s1 +:+ s2 = String a (s1 +:+ s2).
Proof. reflexivity. Qed.

Lemma app_Empty (s : string) : EmptyString +:+ s = s.
Proof. reflexivity. Qed.

Lemma app_Empty_r (s : string) : s +:+ EmptyString = s.
Proof. induction s as [|a s IH]; [done|]. by rewrite app_String, IH. Qed.

Lemma app_assoc_str (s1 s2 s3 : string) : (s1 +:+ s2) +:+ s3 = s1 +:+ s2 +:+ s3.
Proof. induction s1 as [|a s1 IH]; [done|]. by rewrite !app_String, IH. Qed.

Lemma length_app_str (s1 s2 : string) :
  String.length (s1 +:+ s2) = String.length s1 + String.length s2.
Proof. induction s1 as [|a s1 IH]; [done|]. rewrite app_String. simpl. by rewrite IH. Qed.

Lemma drop_app_length (pre suf : string) :
  PyStr.drop (String.length pre) (pre +:+ suf) = suf.
Proof. induction pre as [|a pre IH]; [done|]. rewrite app_String. simpl. apply IH. Qed.

(** Every string is a prefix followed by what [drop] keeps. *)
Lemma drop_split i s :
  i ≤ String.length s →
  ∃ pre, s = pre +:+ PyStr.drop i s ∧ String.length pre = i.
Proof.
  revert s. induction i as [|i IH]; intros s Hi.
  - by exists EmptyString.
  - destruct s as [|a s]; simpl in Hi; [lia|].
    destruct (IH s) as (pre & Hs & Hlen); [lia|].
    exists (String a pre). simpl. rewrite app_String. by rewrite <- Hs, Hlen.
Qed.

Lemma endswith_app (pre suf : string) : PyStr.endswith (pre +:+ suf) suf = true.
Proof.
  unfold PyStr.endswith. rewrite length_app_str.
  apply andb_true_iff. split; [apply Nat.leb_le; lia|].
  replace (String.length pre + String.length suf - String.length suf)
    with (String.length pre) by lia.
  rewrite drop_app_length. apply String.eqb_refl.
Qed.

Lemma endswith_inv (s suf : string) :
  PyStr.endswith s suf = true → ∃ pre, s = pre +:+ suf.
Proof.
  unfold PyStr.endswith. intros [Hle Heq]%andb_true_iff.
  apply Nat.leb_le in Hle. apply String.eqb_eq in Heq.
  destruct (drop_split (String.length s - String.length suf) s) as (pre & Hs & _); [lia|].
  exists pre. by rewrite Heq in Hs.
Qed.

Lemma rfind_lt c s i : PyStr.rfind c s = Some i → i < String.length s.
Proof.
  revert i. induction s as [|a s IH]; intros i; simpl; [done|].
  destruct (PyStr.rfind c s) as [j|].
  - intros [= <-]. specialize (IH j eq_refl). lia.
  - destruct (Ascii.eqb a c); intros [= <-]. lia.
Qed.

(** A non-empty [Path.suffix] is a suffix in the sense of [str.endswith]. *)
Lemma suffix_endswith (name : string) :
  PurePath.suffix name ≠ EmptyString →
  PyStr.endswith name (PurePath.suffix name) = true.
Proof.
  unfold PurePath.suffix. destruct (PyStr.rfind "." name) as [i|] eqn:Hi; [|done].
  destruct (_ && _); [|done]. intros _.
  apply rfind_lt in Hi.
  destruct (drop_split i name) as (pre & Hs & _); [lia|].
  rewrite Hs at 1. apply endswith_app.
Qed.

Lemma rfind_app c (pre s : string) :
  PyStr.rfind c (pre +:+ s)
  = match PyStr.rfind c s with
    | Some i => Some (String.length pre + i)
    | None => PyStr.rfind c pre
    end.
Proof.
  induction pre as [|a pre IH].
  { change (EmptyString +:+ s) with s. by destruct (PyStr.rfind c s). }
  rewrite app_String. simpl. rewrite IH. by destruct (PyStr.rfind c s).
Qed.

(** A name made of a non-empty stem and [.ts] has the suffix [.ts]. *)
Lemma suffix_of_stem_ts (pre : string) :
  pre ≠ EmptyString → PurePath.suffix (pre +:+ ".ts") = ".ts".
Proof.
  intros Hpre. unfold PurePath.suffix. rewrite rfind_app. simpl PyStr.rfind.
  rewrite length_app_str, Nat.add_0_r.
  assert (0 < String.length pre) as Hlen by (destruct pre; [done|simpl; lia]).
  rewrite (proj2 (Nat.ltb_lt _ _) Hlen).
  rewrite (proj2 (Nat.ltb_lt (String.length pre) _)) by (simpl; lia).
  apply drop_app_length.
Qed.

(** A name other than [.ts] that ends with [.ts] has the suffix [.ts]. *)
Lemma suffix_of_ts_name (f : string) :
  PyStr.endswith f ".ts" = true → f ≠ ".ts" → PurePath.suffix f = ".ts".
Proof.
  intros [pre ->]%endswith_inv Hne. apply suffix_of_stem_ts. by intros ->.
Qed.

Lemma join_cons sep (x y : string) (l : list string) :
  PyStr.join sep (x :: y :: l) = x +:+ sep +:+ PyStr.join sep (y :: l).
Proof. reflexivity. Qed.

Lemma join_app sep (l1 l2 : list string) :
  l1 ≠ [] → l2 ≠ [] →
  PyStr.join sep (l1 ++ l2) = PyStr.join sep l1 +:+ sep +:+ PyStr.join sep l2.
Proof.
  intros H1 H2. induction l1 as [|x [|y l1] IH]; [done| |].
  - destruct l2 as [|z l2]; [done|]. reflexivity.
  - change ((x :: y :: l1) ++ l2) with (x :: y :: (l1 ++ l2)).
    rewrite !join_cons. change (y :: l1 ++ l2) with ((y :: l1) ++ l2).
    rewrite IH by done. by rewrite !app_assoc_str.
Qed.

(** *** Counting lines *)

Lemma terminated_lines_cons l ls :
  terminated_lines (l :: ls) = l +:+ PyStr.nl +:+ terminated_lines ls.
Proof.
  unfold terminated_lines. destruct ls as [|l' ls]; simpl.
  - by rewrite app_Empty_r.
  - by rewrite app_Empty, app_assoc_str.
Qed.

Lemma count_lines_plain b l rest :
  plain_line l = true →
  PyStr.count_lines b (l +:+ PyStr.nl +:+ rest) = S (PyStr.count_lines false rest).
Proof.
  revert b. induction l as [|c l IH]; intros b Hl.
  - reflexivity.
  - simpl in Hl. apply andb_true_iff in Hl as [Hc Hl].
    apply andb_true_iff in Hc as [H10 H13].
    rewrite app_String. simpl.
    destruct (Ascii.eqb c _); [done|]. destruct (Ascii.eqb c _); [done|].
    by apply IH.
Qed.

(** [readlines] returns one item per newline-terminated line. *)
Lemma readlines_len_terminated (ls : list string) :
  Forall (λ l, plain_line l = true) ls →
  PyStr.readlines_len (terminated_lines ls) = length ls.
Proof.
  unfold PyStr.readlines_len. induction 1 as [|l ls Hl _ IH]; [done|].
  rewrite terminated_lines_cons, count_lines_plain by done. simpl. by rewrite IH.
Qed.

End string_facts.

(** ** The file system *)

Section fs_facts.

Implicit Types (es : list (string * node)) (n : node) (p f g : path).

Lemma os_walk_Dir r w x es :
  os_walk (Dir r w x es) = if r then [] :: (if x then walk_entries es else []) else [].
Proof.
  destruct r, x; reflexivity.
Qed.

Lemma wf_node_Dir r w x es :
  wf_node (Dir r w x es) = true ↔
  NoDup (map fst es) ∧ Forall (λ e, wf_node (snd e) = true) es.
Proof.
  simpl. rewrite andb_true_iff, bool_decide_eq_true.
  apply and_iff_compat_l.
  induction es as [|e es IH]; simpl.
  - split; [constructor|done].
  - rewrite andb_true_iff, IH, Forall_cons. done.
Qed.

(** *** Directory listings *)

Lemma entry_lookup_elem k n es : entry_lookup k es = Some n → (k, n) ∈ es.
Proof.
  induction es as [|[k' n'] es IH]; simpl; [done|].
  destruct (String.eqb_spec k' k) as [->|].
  - intros [= ->]. left.
  - intros ?. right. auto.
Qed.

Lemma entry_lookup_None k es : entry_lookup k es = None ↔ k ∉ map fst es.
Proof.
  induction es as [|[k' n'] es IH]; simpl.
  - split; [|done]. intros _. apply not_elem_of_nil.
  - rewrite not_elem_of_cons, <- IH.
    destruct (String.eqb_spec k' k) as [->|Hne].
    + split; [done|by intros [? _]].
    + split; [intros ?; split; [congruence|done]|by intros [_ ?]].
Qed.

Lemma entry_lookup_NoDup k n es :
  NoDup (map fst es) → (k, n) ∈ es → entry_lookup k es = Some n.
Proof.
  induction es as [|[k' n'] es IH]; simpl; intros Hnd Hin.
  - by apply elem_of_nil in Hin.
  - apply NoDup_cons in Hnd as [Hk' Hnd].
    apply elem_of_cons in Hin as [[= -> ->]|Hin].
    + by rewrite String.eqb_refl.
    + destruct (String.eqb_spec k' k) as [->|]; [|auto].
      destruct Hk'. apply (list_elem_of_fmap_2 fst) in Hin. done.
Qed.

Lemma entry_lookup_replace k k' n' es :
  entry_lookup k' (entry_replace k n' es) =
  if decide (k' = k) then (λ _, n') <$> entry_lookup k es else entry_lookup k' es.
Proof.
  induction es as [|[k0 n0] es IH]; simpl.
  - by destruct (decide _).
  - destruct (String.eqb_spec k0 k) as [->|Hne]; simpl.
    + destruct (String.eqb_spec k k') as [->|]; destruct (decide _); naive_solver.
    + rewrite IH. destruct (String.eqb_spec k0 k') as [->|]; destruct (decide _);
        naive_solver.
Qed.

Lemma entry_lookup_snoc k k0 n0 es :
  entry_lookup k (es ++ [(k0, n0)]) =
  match entry_lookup k es with
  | Some n => Some n
  | None => if decide (k = k0) then Some n0 else None
  end.
Proof.
  induction es as [|[k1 n1] es IH]; simpl.
  - destruct (String.eqb_spec k0 k) as [->|]; destruct (decide _); naive_solver.
  - by destruct (String.eqb k1 k).
Qed.

Lemma walk_entries_snoc_file es k t :
  walk_entries (es ++ [(k, File t)]) = walk_entries es.
Proof. induction es as [|e es IH]; simpl; [done|]. by rewrite IH. Qed.

Lemma walk_entries_replace k n n' es :
  entry_lookup k es = Some n → os_walk n' = os_walk n →
  walk_entries (entry_replace k n' es) = walk_entries es.
Proof.
  intros Hk Hw. induction es as [|[k0 n0] es IH]; simpl in *; [done|].
  destruct (String.eqb_spec k0 k) as [->|]; simpl.
  - injection Hk as ->. by rewrite Hw.
  - by rewrite IH.
Qed.

(** *** stat and exists *)

Lemma lookup_path_app p q n :
  lookup_path (p ++ q) n =
  match lookup_path p n with
  | Some m => lookup_path q m
  | None => None
  end.
Proof.
  revert n. induction p as [|c p IH]; intros n; [done|].
  simpl. destruct n as [t|r w x es]; [done|].
  destruct (entry_lookup c es); [apply IH|done].
Qed.

Lemma stat_app p q n :
  stat (p ++ q) n =
  match stat p n with
  | inr m => stat q m
  | inl e => inl e
  end.
Proof.
  revert n. induction p as [|c p IH]; intros n; [done|].
  simpl. destruct n as [t|r w x es]; [done|]. destruct x; [|done].
  destruct (entry_lookup c es); [apply IH|done].
Qed.

(** What [stat] finds is what the tree holds. *)
Lemma stat_lookup p n m : stat p n = inr m → lookup_path p n = Some m.
Proof.
  revert n. induction p as [|c p IH]; intros n; simpl; [by intros [= ->]|].
  destruct n as [t|r w x es]; [done|]. destruct x; [|done].
  destruct (entry_lookup c es); [apply IH|done].
Qed.

(** [stat] fails with [ENOENT] or [ENOTDIR] only where the tree holds
    nothing. *)
Lemma stat_absent p n e :
  stat p n = inl e → e ≠ PermissionError → lookup_path p n = None.
Proof.
  revert n. induction p as [|c p IH]; intros n; simpl; [done|].
  destruct n as [t|r w x es]; [done|]. destruct x; [|by intros [= <-]].
  destruct (entry_lookup c es); [apply IH|done].
Qed.

(** When [exists] returns, it tells whether the tree holds something at
    the path. *)
Lemma path_exists_inr fs p b : path_exists fs p = inr b → b = present fs p.
Proof.
  unfold path_exists, present. destruct (stat p fs) as [e|m] eqn:Hs.
  - destruct e; intros [= <-]; symmetry; apply bool_decide_eq_false;
      rewrite (stat_absent _ _ _ Hs) by done; by intros [? ?].
  - intros [= <-]. symmetry. apply bool_decide_eq_true.
    rewrite (stat_lookup _ _ _ Hs). eauto.
Qed.

(** [exists] raises nothing but [PermissionError]. *)
Lemma path_exists_inl fs p e : path_exists fs p = inl e → e = PermissionError.
Proof. unfold path_exists. by destruct (stat p fs) as [[]|]; intros [= <-]. Qed.

(** Below a directory that [stat] finds and that can be searched,
    [exists] returns. *)
Lemma path_exists_child fs p c r w es :
  stat p fs = inr (Dir r w true es) →
  path_exists fs (p ++ [c]) = inr (present fs (p ++ [c])).
Proof.
  intros Hp. destruct (path_exists fs (p ++ [c])) as [e|b] eqn:He.
  - unfold path_exists in He. rewrite stat_app, Hp in He. simpl in He.
    by destruct (entry_lookup c es).
  - by rewrite (path_exists_inr _ _ _ He).
Qed.

(** [stat] finds the directories through which it finds a path, and they
    can be searched. *)
Lemma stat_parent p c n m :
  stat (p ++ [c]) n = inr m → ∃ r w es, stat p n = inr (Dir r w true es).
Proof.
  rewrite stat_app. destruct (stat p n) as [e|[t|r w x es]]; simpl; try done.
  destruct x; [eauto|done].
Qed.

Lemma root_searchable_stat fs c :
  stat [c] fs =
  if root_searchable fs then
    match lookup_path [c] fs with
    | Some n => inr n
    | None => inl FileNotFoundError
    end
  else match fs with File _ => inl NotADirectoryError | _ => inl PermissionError end.
Proof.
  destruct fs as [t|r w x es]; [done|]. simpl. destruct x; [|done].
  by destruct (entry_lookup c es).
Qed.

(** *** store and write_text *)

Lemma store_leaf c text r w es :
  store [c] text (Dir r w true es) =
  match entry_lookup c es with
  | Some (File _) => Some (Dir r w true (entry_replace c (File (Some text)) es))
  | Some (Dir _ _ _ _) => None
  | None => if w then Some (Dir r w true (es ++ [(c, File (Some text))])) else None
  end.
Proof. reflexivity. Qed.

Lemma store_cons c rest text r w es :
  rest ≠ [] →
  store (c :: rest) text (Dir r w true es) =
  match entry_lookup c es with
  | Some n' =>
      match store rest text n' with
      | Some n'' => Some (Dir r w true (entry_replace c n'' es))
      | None => None
      end
  | None => None
  end.
Proof. by destruct rest. Qed.

(** A write that goes through changes the kind of the written path only. *)
Lemma store_kind f text n n' g :
  store f text n = Some n' →
  kind_of (lookup_path g n') =
  if decide (g = f) then Some (inl (Some text)) else kind_of (lookup_path g n).
Proof.
  revert n n' g. induction f as [|c rest IH]; intros n n' g; [done|].
  destruct n as [t|r w x es]; [done|]. destruct x; [|done].
  destruct (decide (rest = [])) as [->|Hrest].
  - rewrite store_leaf.
    destruct (entry_lookup c es) as [[t|r0 w0 x0 es0]|] eqn:Hc; [|done|].
    + intros [= <-]. destruct g as [|c' g']; [by rewrite decide_False|].
      simpl. rewrite entry_lookup_replace. destruct (decide (c' = c)) as [->|Hne].
      * rewrite Hc. simpl. destruct g' as [|y g']; [by rewrite decide_True|].
        rewrite decide_False by naive_solver. done.
      * by rewrite decide_False by naive_solver.
    + destruct w; [|done]. intros [= <-]. destruct g as [|c' g']; [by rewrite decide_False|].
      simpl. rewrite entry_lookup_snoc.
      destruct (decide (c' = c)) as [->|Hne].
      * rewrite Hc. destruct g' as [|y g']; [by rewrite decide_True|].
        rewrite decide_False by naive_solver. done.
      * rewrite decide_False by naive_solver.
        by destruct (entry_lookup c' es).
  - rewrite store_cons by done.
    destruct (entry_lookup c es) as [n0|] eqn:Hc; [|done].
    destruct (store rest text n0) as [n0'|] eqn:Hw; [|done].
    intros [= <-]. destruct g as [|c' g']; [by rewrite decide_False|].
    simpl. rewrite entry_lookup_replace. destruct (decide (c' = c)) as [->|Hne].
    + rewrite Hc. simpl. rewrite (IH _ _ g' Hw).
      destruct (decide (g' = rest)) as [->|]; [by rewrite decide_True|].
      by rewrite decide_False by naive_solver.
    + by rewrite decide_False by naive_solver.
Qed.

Lemma present_kind fs g : present fs g = bool_decide (is_Some (kind_of (lookup_path g fs))).
Proof.
  unfold present. apply bool_decide_ext.
  destruct (lookup_path g fs) as [[]|]; simpl; split; intros [? ?]; eauto; done.
Qed.

Lemma store_present f text n n' g :
  store f text n = Some n' →
  present n' g = present n g || bool_decide (g = f).
Proof.
  intros Hw. rewrite !present_kind, (store_kind _ _ _ _ g Hw).
  destruct (decide (g = f)) as [->|].
  - rewrite bool_decide_eq_true_2 by eauto. by rewrite orb_comm, bool_decide_eq_true_2.
  - by rewrite (bool_decide_eq_false_2 (g = f)), orb_false_r.
Qed.

Lemma store_target f text n n' :
  store f text n = Some n' → lookup_path f n' = Some (File (Some text)).
Proof.
  intros Hw. pose proof (store_kind _ _ _ _ f Hw) as Hk.
  rewrite decide_True in Hk by done.
  destruct (lookup_path f n') as [[t|]|]; simplify_eq/=; done.
Qed.

(** The written path held no directory. *)
Lemma store_not_dir f text n n' r w x es :
  store f text n = Some n' → lookup_path f n ≠ Some (Dir r w x es).
Proof.
  revert n n'. induction f as [|c rest IH]; intros n n' Hw Hg; [done|].
  destruct n as [t|r0 w0 x0 es0]; [done|]. destruct x0; [|done].
  destruct (decide (rest = [])) as [->|Hrest].
  - rewrite store_leaf in Hw. simpl in Hg.
    destruct (entry_lookup c es0) as [[|]|]; simplify_eq/=.
  - rewrite store_cons in Hw by done. simpl in Hg.
    destruct (entry_lookup c es0) as [n0|]; [|done].
    destruct (store rest text n0) as [n0'|] eqn:Hw0; [|done].
    by eapply IH.
Qed.

Lemma store_dir_frame f text n n' g r w x es :
  store f text n = Some n' →
  lookup_path g n = Some (Dir r w x es) → ∃ es', lookup_path g n' = Some (Dir r w x es').
Proof.
  intros Hw Hg. pose proof (store_kind _ _ _ _ g Hw) as Hk.
  destruct (decide (g = f)) as [->|].
  - by destruct (store_not_dir _ _ _ _ _ _ _ _ Hw Hg).
  - rewrite Hg in Hk. destruct (lookup_path g n') as [[t'|r' w' x' es']|]; simplify_eq/=.
    eauto.
Qed.

(** A write that goes through leaves the walk from every path as it was. *)
Lemma store_os_walk f text n n' :
  store f text n = Some n' → os_walk n' = os_walk n.
Proof.
  revert n n'. induction f as [|c rest IH]; intros n n'; [done|].
  destruct n as [t|r w x es]; [done|]. destruct x; [|done].
  destruct (decide (rest = [])) as [->|Hrest].
  - rewrite store_leaf.
    destruct (entry_lookup c es) as [[t|r0 w0 x0 es0]|] eqn:Hc; [|done|].
    + intros [= <-]. rewrite !os_walk_Dir. destruct r; [|done].
      by rewrite (walk_entries_replace c (File t)).
    + destruct w; [|done]. intros [= <-]. rewrite !os_walk_Dir.
      by rewrite walk_entries_snoc_file.
  - rewrite store_cons by done.
    destruct (entry_lookup c es) as [n0|] eqn:Hc; [|done].
    destruct (store rest text n0) as [n0'|] eqn:Hw; [|done].
    intros [= <-]. rewrite !os_walk_Dir. destruct r; [|done].
    rewrite (walk_entries_replace c n0); eauto.
Qed.

Lemma store_walk_at f text n n' p :
  store f text n = Some n' → walk_at n' p = walk_at n p.
Proof.
  revert n n' p. induction f as [|c rest IH]; intros n n' p; [done|].
  destruct p as [|c' p'].
  { intros Hw. unfold walk_at. simpl. eauto using store_os_walk. }
  destruct n as [t|r w x es]; [done|]. destruct x; [|done].
  destruct (decide (rest = [])) as [->|Hrest].
  - rewrite store_leaf.
    destruct (entry_lookup c es) as [[t|r0 w0 x0 es0]|] eqn:Hc; [|done|].
    + intros [= <-]. unfold walk_at. simpl. rewrite entry_lookup_replace.
      destruct (decide (c' = c)) as [->|]; [|done]. rewrite Hc. simpl.
      by destruct p'.
    + destruct w; [|done]. intros [= <-]. unfold walk_at. simpl.
      rewrite entry_lookup_snoc. destruct (entry_lookup c' es) eqn:Hc'; [done|].
      destruct (decide _); [|done]. by destruct p'.
  - rewrite store_cons by done.
    destruct (entry_lookup c es) as [n0|] eqn:Hc; [|done].
    destruct (store rest text n0) as [n0'|] eqn:Hw; [|done].
    intros [= <-]. unfold walk_at. simpl. rewrite entry_lookup_replace.
    destruct (decide (c' = c)) as [->|]; [|done]. rewrite Hc. simpl.
    apply (IH _ _ p' Hw).
Qed.

(** A write that goes through changes nothing at a path that does not
    lead to the written file. *)
Lemma store_lookup_frame f text n n' g :
  store f text n = Some n' → ¬ g `prefix_of` f →
  lookup_path g n' = lookup_path g n.
Proof.
  revert n n' g. induction f as [|c rest IH]; intros n n' g; [done|].
  destruct n as [t|r w x es]; [done|]. destruct x; [|done].
  destruct g as [|c' g'].
  { intros _ Hg. destruct Hg. apply prefix_nil. }
  assert (∀ t, c' = c → rest = [] → ¬ (c' :: g') `prefix_of` (c :: rest) →
               lookup_path g' (File t) = None) as Hfile.
  { intros t -> -> Hg. destruct g' as [|y g']; [|done]. by destruct Hg. }
  destruct (decide (rest = [])) as [->|Hrest].
  - rewrite store_leaf.
    destruct (entry_lookup c es) as [[t|r0 w0 x0 es0]|] eqn:Hc; [|done|].
    + intros [= <-] Hg. simpl. rewrite entry_lookup_replace.
      destruct (decide (c' = c)) as [->|Hne]; [|done].
      rewrite Hc. simpl. by rewrite !(Hfile _ eq_refl eq_refl Hg).
    + destruct w; [|done]. intros [= <-] Hg. simpl. rewrite entry_lookup_snoc.
      destruct (decide (c' = c)) as [->|Hne].
      * rewrite Hc. by rewrite (Hfile _ eq_refl eq_refl Hg).
      * by destruct (entry_lookup c' es).
  - rewrite store_cons by done.
    destruct (entry_lookup c es) as [n0|] eqn:Hc; [|done].
    destruct (store rest text n0) as [n0'|] eqn:Hw; [|done].
    intros [= <-] Hg. simpl. rewrite entry_lookup_replace.
    destruct (decide (c' = c)) as [->|Hne]; [|done].
    rewrite Hc. simpl. apply (IH _ _ _ Hw). intros Hpre. apply Hg.
    by apply prefix_cons.
Qed.

(** A directory that [stat] finds is found after a write that goes
    through, with the same permissions. *)
Lemma store_stat_dir f text n n' g r w x es :
  store f text n = Some n' →
  stat g n = inr (Dir r w x es) → ∃ es', stat g n' = inr (Dir r w x es').
Proof.
  revert n n' g. induction f as [|c rest IH]; intros n n' g; [done|].
  destruct n as [t|r0 w0 x0 es0]; [done|]. destruct x0; [|done].
  destruct g as [|c' g'].
  { intros Hw [= <- <- <- <-].
    destruct (store_dir_frame _ _ _ _ [] r0 w0 true es0 Hw eq_refl) as [es' Hes'].
    simpl in Hes'. injection Hes' as ->. simpl. eauto. }
  destruct (decide (rest = [])) as [->|Hrest].
  - rewrite store_leaf.
    destruct (entry_lookup c es0) as [[t|r1 w1 x1 es1]|] eqn:Hc; [|done|].
    + intros [= <-]. simpl. rewrite entry_lookup_replace.
      destruct (decide (c' = c)) as [->|]; [|eauto]. rewrite Hc. simpl.
      by destruct g'.
    + destruct w0; [|done]. intros [= <-]. simpl. rewrite entry_lookup_snoc.
      destruct (entry_lookup c' es0) eqn:Hc'; [eauto|done].
  - rewrite store_cons by done.
    destruct (entry_lookup c es0) as [n0|] eqn:Hc; [|done].
    destruct (store rest text n0) as [n0'|] eqn:Hw; [|done].
    intros [= <-]. simpl. rewrite entry_lookup_replace.
    destruct (decide (c' = c)) as [->|]; [|eauto]. rewrite Hc. simpl.
    apply (IH _ _ g' Hw).
Qed.

(** A new entry can be stored in a directory that [stat] finds and that
    can be written and searched. *)
Lemma store_new p c text n r es :
  stat p n = inr (Dir r true true es) → entry_lookup c es = None →
  is_Some (store (p ++ [c]) text n).
Proof.
  revert n. induction p as [|k p IH]; intros n Hn Hc.
  - simpl in Hn. injection Hn as ->. simpl. rewrite Hc. eauto.
  - destruct n as [t|r0 w0 x0 es0]; [done|]. simpl in Hn. destruct x0; [|done].
    destruct (entry_lookup k es0) as [n0|] eqn:Hk; [|done].
    change ((k :: p) ++ [c]) with (k :: (p ++ [c])).
    rewrite store_cons by (by destruct p). rewrite Hk.
    destruct (IH n0 Hn Hc) as [n0' ->]. eauto.
Qed.

(** No new entry can be stored in a directory that is not writable. *)
Lemma store_unwritable p c text n r x es :
  lookup_path p n = Some (Dir r false x es) → entry_lookup c es = None →
  store (p ++ [c]) text n = None.
Proof.
  revert n. induction p as [|k p IH]; intros n Hn Hc.
  - simpl in Hn. injection Hn as ->. simpl. destruct x; [|done]. by rewrite Hc.
  - destruct n as [t|r0 w0 x0 es0]; [done|]. simpl in Hn. destruct x0; [|done].
    destruct (entry_lookup k es0) as [n0|] eqn:Hk; [|done].
    change ((k :: p) ++ [c]) with (k :: (p ++ [c])).
    rewrite store_cons by (by destruct p). rewrite Hk.
    by rewrite (IH n0 Hn Hc).
Qed.

(** [write_text] returns when the device has no fault and the file can be
    opened; the tree then holds the text. *)
Lemma write_text_returned dev f content fs fs1 :
  write_text dev f content fs = WriteReturned fs1 →
  dev f content = NoFault ∧ store f content fs = Some fs1.
Proof.
  unfold write_text. destruct (dev f content); [|done|by destruct (store _ _ _)].
  destruct (store f content fs); [|done]. by intros [= <-].
Qed.

(** When [write_text] raises, the tree is as it was, unless the write
    failed after the file was opened: the file is then left with the part
    of the text that was written. *)
Lemma write_text_raised dev f content fs fs1 :
  write_text dev f content fs = WriteRaised fs1 →
  (fs1 = fs
   ∧ (dev f content = OpenFault
      ∨ (dev f content = NoFault ∧ store f content fs = None)
      ∨ (∃ k, dev f content = WriteFault k
              ∧ store f (String.substring 0 k content) fs = None)))
  ∨ (∃ k, dev f content = WriteFault k
          ∧ store f (String.substring 0 k content) fs = Some fs1).
Proof.
  unfold write_text. destruct (dev f content) as [| |k].
  - destruct (store f content fs) eqn:Hs; [done|]. intros [= <-]. left. auto.
  - intros [= <-]. left. auto.
  - destruct (store f (String.substring 0 k content) fs) eqn:Hs; intros [= <-];
      [right|left]; eauto 6.
Qed.

(** Whatever its outcome, [write_text] leaves the tree as it was or
    stores some text at the path. *)
Lemma write_text_stored dev f content fs fs1 :
  write_text dev f content fs = WriteReturned fs1
  ∨ write_text dev f content fs = WriteRaised fs1 →
  fs1 = fs ∨ ∃ text, store f text fs = Some fs1.
Proof.
  intros [Hw|Hw].
  - apply write_text_returned in Hw as [_ Hs]. eauto.
  - apply write_text_raised in Hw as [[-> _]|(k & _ & Hs)]; eauto.
Qed.

(** The fault of a write into a directory that [stat] finds, that can be
    searched and that holds no entry of the name decides its outcome. *)
Lemma write_text_new dev p c content fs r w es :
  stat p fs = inr (Dir r w true es) → entry_lookup c es = None →
  match fault_in w (dev (p ++ [c]) content) with
  | NoFault => ∃ fs1, write_text dev (p ++ [c]) content fs = WriteReturned fs1
  | OpenFault => write_text dev (p ++ [c]) content fs = WriteRaised fs
  | WriteFault k =>
      ∃ fs1, write_text dev (p ++ [c]) content fs = WriteRaised fs1
             ∧ store (p ++ [c]) (String.substring 0 k content) fs = Some fs1
  end.
Proof.
  intros Hp Hc. unfold write_text, fault_in. destruct w.
  - destruct (dev (p ++ [c]) content) as [| |k].
    + destruct (store_new p c content fs r es Hp Hc) as [fs1 ->]. eauto.
    + done.
    + destruct (store_new p c (String.substring 0 k content) fs r es Hp Hc)
        as [fs1 ->]. eauto.
  - apply stat_lookup in Hp.
    destruct (dev (p ++ [c]) content) as [| |k];
      by rewrite ?(store_unwritable p c _ fs r true es Hp Hc).
Qed.

(** *** exists after a write *)

Lemma path_exists_nil fs : path_exists fs [] = inr true.
Proof. reflexivity. Qed.

Lemma path_exists_cons r w x es c g :
  path_exists (Dir r w x es) (c :: g) =
  if x then
    match entry_lookup c es with
    | Some n' => path_exists n' g
    | None => inr false
    end
  else inl PermissionError.
Proof.
  unfold path_exists. simpl. destruct x; [|done]. by destruct (entry_lookup c es).
Qed.

Lemma path_exists_file t g : g ≠ [] → path_exists (File t) g = inr false.
Proof. by destruct g. Qed.

(** A write that goes through changes what [exists] tells about the
    written path only. *)
Lemma store_path_exists f text n n' g :
  store f text n = Some n' → g ≠ f → path_exists n' g = path_exists n g.
Proof.
  revert n n' g. induction f as [|c rest IH]; intros n n' g; [done|].
  destruct n as [t|r w x es]; [done|]. destruct x; [|done].
  destruct g as [|c' g']; [done|].
  destruct (decide (rest = [])) as [->|Hrest].
  - rewrite store_leaf.
    destruct (entry_lookup c es) as [[t|r0 w0 x0 es0]|] eqn:Hc; [|done|].
    + intros [= <-] Hg. rewrite !path_exists_cons, entry_lookup_replace.
      destruct (decide (c' = c)) as [->|Hne]; [|done].
      rewrite Hc. simpl. rewrite !path_exists_file; [done|by intros ->..].
    + destruct w; [|done]. intros [= <-] Hg.
      rewrite !path_exists_cons, entry_lookup_snoc.
      destruct (entry_lookup c' es) eqn:Hc'; [done|].
      destruct (decide (c' = c)) as [->|]; [|done].
      rewrite path_exists_file; [done|]. by intros ->.
  - rewrite store_cons by done.
    destruct (entry_lookup c es) as [n0|] eqn:Hc; [|done].
    destruct (store rest text n0) as [n0'|] eqn:Hw; [|done].
    intros [= <-] Hg. rewrite !path_exists_cons, entry_lookup_replace.
    destruct (decide (c' = c)) as [->|]; [|done]. rewrite Hc. simpl.
    apply (IH _ _ _ Hw). by intros ->.
Qed.


(** A directory that can be searched is one below which [exists]
    returns. *)
Lemma stat_dir_searchable fs p c r w x es b :
  stat p fs = inr (Dir r w x es) → path_exists fs (p ++ [c]) = inr b → x = true.
Proof.
  intros Hp. unfold path_exists. rewrite stat_app, Hp. simpl. by destruct x.
Qed.

(** *** The walk *)

Lemma node_nested_ind (P : node → Prop) :
  (∀ t, P (File t)) →
  (∀ r w x es, Forall (λ e, P (snd e)) es → P (Dir r w x es)) →
  ∀ n, P n.
Proof.
  intros HF HD. fix IH 1. intros [t|r w x es]; [apply HF|apply HD].
  revert es. fix IHes 1. intros [|e es]; constructor; [apply IH|apply IHes].
Qed.

Lemma elem_of_walk_entries p es :
  p ∈ walk_entries es ↔
  ∃ k c p', p = k :: p' ∧ (k, c) ∈ es ∧ p' ∈ os_walk c.
Proof.
  induction es as [|[k c] es IH]; simpl.
  - split; [by intros ?%elem_of_nil|]. by intros (? & ? & ? & _ & ?%elem_of_nil & _).
  - rewrite elem_of_app, list_elem_of_fmap, IH. split.
    + intros [(p' & -> & Hp')|(k' & c' & p' & -> & Hin & Hp')].
      * exists k, c, p'. split_and!; [done|left|done].
      * exists k', c', p'. split_and!; [done|by right|done].
    + intros (k' & c' & p' & -> & Hin & Hp').
      apply elem_of_cons in Hin as [[= -> ->]|Hin]; [left; eauto|right; eauto 10].
Qed.

Lemma wf_node_lookup p n m :
  wf_node n = true → lookup_path p n = Some m → wf_node m = true.
Proof.
  revert n. induction p as [|k p IH]; intros n Hwf; simpl.
  - by intros [= <-].
  - destruct n as [t|r w x es]; [done|].
    destruct (entry_lookup k es) as [c|] eqn:Hk; [|done].
    apply wf_node_Dir in Hwf as [_ Hall].
    apply entry_lookup_elem in Hk. rewrite Forall_forall in Hall.
    apply IH. by apply (Hall (k, c)).
Qed.

(** The walk yields only directories that can be enumerated all the way
    down and searched above, and yields all of them. *)
Lemma os_walk_walkable p n :
  wf_node n = true → p ∈ os_walk n → walkable p n = true.
Proof.
  revert n. induction p as [|k p IH]; intros [t|r w x es] Hwf; rewrite ?os_walk_Dir;
    try by intros ?%elem_of_nil.
  - destruct r; [done|]. by intros ?%elem_of_nil.
  - destruct r; [|by intros ?%elem_of_nil].
    intros [[=]|Hin]%elem_of_cons. destruct x; [|by apply elem_of_nil in Hin].
    apply elem_of_walk_entries in Hin as (k' & c & p' & [= <- <-] & Hin & Hp).
    apply wf_node_Dir in Hwf as [Hnd Hall]. simpl.
    rewrite (entry_lookup_NoDup _ _ _ Hnd Hin).
    rewrite Forall_forall in Hall. apply IH; [|done]. by apply (Hall (k, c)).
Qed.

Lemma walkable_os_walk p n : walkable p n = true → p ∈ os_walk n.
Proof.
  revert n. induction p as [|k p IH]; (intros [t|r w x es]; [by simpl|]);
    rewrite os_walk_Dir; simpl; (destruct r; simpl; [|done]).
  - intros _. left.
  - destruct x; simpl; [|done].
    destruct (entry_lookup k es) as [c|] eqn:Hk; [|done]. intros Hp.
    right. apply elem_of_walk_entries. exists k, c, p.
    split_and!; [done|by apply entry_lookup_elem|by apply IH].
Qed.

(** [stat] finds a directory that the walk yields, and it can be
    enumerated. *)
Lemma walkable_stat p n :
  walkable p n = true → ∃ w x es, stat p n = inr (Dir true w x es).
Proof.
  revert n. induction p as [|k p IH]; intros [t|r w x es]; simpl; try done;
    destruct r; simpl; try done.
  - eauto.
  - destruct x; simpl; [|done].
    destruct (entry_lookup k es) as [c|]; [|done]. apply IH.
Qed.

Lemma walkable_lookup p n :
  walkable p n = true → ∃ w x es, lookup_path p n = Some (Dir true w x es).
Proof.
  intros (w & x & es & Hs%stat_lookup)%walkable_stat. eauto.
Qed.

(** The directories above one that the walk yields are yielded too. *)
Lemma walkable_app p q n : walkable (p ++ q) n = true → walkable p n = true.
Proof.
  revert n. induction p as [|k p IH]; intros n Hw.
  - destruct n as [t|r w x es]; [by destruct q|].
    simpl. destruct r; [done|]. by destruct q.
  - destruct n as [t|r w x es]; [done|]. simpl in *.
    destruct r; simpl in *; [|done]. destruct x; simpl in *; [|done].
    destruct (entry_lookup k es); [by apply IH|done].
Qed.

Lemma os_walk_NoDup n : wf_node n = true → NoDup (os_walk n).
Proof.
  induction n as [t|r w x es IH] using node_nested_ind; [constructor|].
  intros [Hnd Hall]%wf_node_Dir. rewrite os_walk_Dir.
  destruct r; [|constructor]. apply NoDup_cons. split.
  { destruct x; [|by intros ?%elem_of_nil].
    intros (? & ? & ? & ? & _)%elem_of_walk_entries. done. }
  destruct x; [|constructor].
  induction es as [|[k c] es IHes]; simpl; [constructor|].
  apply Forall_cons in IH as [IHc IH]. apply Forall_cons in Hall as [Hc Hall].
  simpl in Hnd. apply NoDup_cons in Hnd as [Hk Hnd].
  apply NoDup_app. split_and!.
  - apply (NoDup_fmap_2 _). by apply IHc.
  - intros p (p' & -> & _)%list_elem_of_fmap
      (k' & c' & p'' & [= <- <-] & Hin & _)%elem_of_walk_entries.
    apply Hk. by apply (list_elem_of_fmap_2 fst) in Hin.
  - by apply IHes.
Qed.

End fs_facts.

(** ** analyze_folder *)

Section analyze_facts.

Implicit Types (es : list (string * node)) (p : path) (info : FolderAnalysis).

Lemma snoc_cons_app {A} (l : list A) x l' : l ++ x :: l' = (l ++ [x]) ++ l'.
Proof. by rewrite <- (assoc_L (++)). Qed.

(** Case analysis on one iteration of the analyzer's loop. *)
Local Ltac analyze_cases :=
  unfold analyze_item; simpl;
  repeat match goal with
         | |- context [match ?n with File _ => _ | Dir _ _ _ _ => _ end] => destruct n
         | |- context [bool_decide ?P] => destruct (bool_decide P) eqn:?
         end; simpl.

Lemma analyze_fold_name p es st :
  fa_name (fold_left (analyze_item p) es st).1 = fa_name st.1.
Proof.
  revert st. induction es as [|[k n] es IH]; intros [info ev]; [done|].
  simpl. rewrite IH. by analyze_cases.
Qed.

Lemma analyze_fold_files p es st :
  files (fold_left (analyze_item p) es st).1 =
  files st.1 ++ map fst (filter (λ e, is_file (snd e)) es).
Proof.
  revert st. induction es as [|[k n] es IH]; intros [info ev]; simpl.
  - by rewrite app_nil_r.
  - rewrite IH. destruct n as [t|r w x es0].
    + rewrite filter_cons_True by done. simpl.
      rewrite (snoc_cons_app (files info)). f_equal. by analyze_cases.
    + rewrite filter_cons_False by (simpl; auto). by analyze_cases.
Qed.

Lemma analyze_fold_subfolders p es st :
  subfolders (fold_left (analyze_item p) es st).1 =
  subfolders st.1 ++ map fst (filter (λ e, listed_subfolder e) es).
Proof.
  revert st. induction es as [|[k n] es IH]; intros [info ev]; simpl.
  - by rewrite app_nil_r.
  - rewrite IH. destruct n as [t|r w x es0].
    + rewrite filter_cons_False by (simpl; auto). by analyze_cases.
    + unfold analyze_item. unfold listed_subfolder at 2. simpl.
      destruct (bool_decide (k ∉ excluded_dirs)) eqn:Hk; simpl.
      * rewrite filter_cons_True by (unfold listed_subfolder; simpl; by rewrite Hk).
        simpl. symmetry. apply snoc_cons_app.
      * rewrite filter_cons_False; [done|].
        unfold listed_subfolder; simpl. rewrite Hk. exact id.
Qed.

Lemma analyze_fold_opened p es st :
  (fold_left (analyze_item p) es st).2 =
  st.2 ++ map (λ e, EOpen (PurePath.child p (fst e))) (filter (λ e, tracked_file e) es).
Proof.
  revert st. induction es as [|[k n] es IH]; intros [info ev]; simpl.
  - by rewrite app_nil_r.
  - rewrite IH. destruct n as [t|r w x es0].
    + unfold analyze_item. unfold tracked_file at 2. simpl.
      destruct (bool_decide (PurePath.suffix k ∈ typescript_suffixes)) eqn:Hk; simpl.
      * rewrite filter_cons_True by (unfold tracked_file; simpl; by rewrite Hk).
        simpl. symmetry. apply snoc_cons_app.
      * rewrite filter_cons_False by (unfold tracked_file; simpl; rewrite Hk; exact id).
        by analyze_cases.
    + rewrite filter_cons_False by (simpl; auto). by analyze_cases.
Qed.

Lemma analyze_fold_line_counts p es st f :
  NoDup (map fst es) →
  line_counts (fold_left (analyze_item p) es st).1 !! f =
  match tracked_count f es with
  | Some k => Some k
  | None => line_counts st.1 !! f
  end.
Proof.
  revert st. induction es as [|[k n] es IH]; intros [info ev]; [done|].
  simpl. intros [Hk Hnd]%NoDup_cons. rewrite IH by done.
  unfold tracked_count at 2. simpl. destruct (String.eqb_spec k f) as [->|Hne].
  - assert (tracked_count f es = None) as ->.
    { unfold tracked_count. apply entry_lookup_None in Hk. by rewrite Hk. }
    destruct n as [t|r w x es0].
    + unfold analyze_item.
      destruct (bool_decide (PurePath.suffix f ∈ typescript_suffixes)) eqn:Hf; simpl.
      * by rewrite lookup_insert_eq.
      * by repeat (destruct (bool_decide _); simpl).
    + unfold analyze_item. by destruct (bool_decide _).
  - fold (tracked_count f es). destruct (tracked_count f es); [done|].
    destruct n as [t|r w x es0].
    + unfold analyze_item.
      destruct (bool_decide (PurePath.suffix k ∈ typescript_suffixes)) eqn:Hf; simpl.
      * by rewrite lookup_insert_ne.
      * by repeat (destruct (bool_decide _); simpl).
    + unfold analyze_item. by destruct (bool_decide _).
Qed.

Lemma analyze_entries_name p es : fa_name (analyze_entries p es).1 = PurePath.name p.
Proof. unfold analyze_entries. by rewrite analyze_fold_name. Qed.

Lemma analyze_entries_files p es :
  files (analyze_entries p es).1 = map fst (filter (λ e, is_file (snd e)) es).
Proof. unfold analyze_entries. by rewrite analyze_fold_files. Qed.

Lemma analyze_entries_subfolders p es :
  subfolders (analyze_entries p es).1 = map fst (filter (λ e, listed_subfolder e) es).
Proof. unfold analyze_entries. by rewrite analyze_fold_subfolders. Qed.

Lemma analyze_entries_opened p es :
  (analyze_entries p es).2 =
  map (λ e, EOpen (PurePath.child p (fst e))) (filter (λ e, tracked_file e) es).
Proof. unfold analyze_entries. by rewrite analyze_fold_opened. Qed.

Lemma analyze_entries_line_counts p es f :
  NoDup (map fst es) →
  line_counts (analyze_entries p es).1 !! f = tracked_count f es.
Proof.
  intros Hnd. unfold analyze_entries. rewrite analyze_fold_line_counts by done.
  simpl. rewrite lookup_empty. by destruct (tracked_count f es).
Qed.

(** What [analyze_folder] returns, when it returns. *)
Lemma analyze_folder_inr fs p info opened :
  analyze_folder fs p = inr (info, opened) →
  ∃ w x es, stat p fs = inr (Dir true w x es) ∧ analyze_entries p es = (info, opened).
Proof.
  unfold analyze_folder. destruct (stat p fs) as [e|[t|[] w x es]]; try done.
  destruct es as [|e es]; [intros [= <- <-]; by exists w, x, []|].
  destruct x; [|done]. intros Heq. exists w, true, (e :: es). split; [done|].
  by injection Heq.
Qed.

(** [analyze_folder] returns on a directory that [stat] finds and that can
    be enumerated and searched. *)
Lemma analyze_folder_accessible fs p w es :
  stat p fs = inr (Dir true w true es) → analyze_folder fs p = inr (analyze_entries p es).
Proof. unfold analyze_folder. intros ->. by destruct es. Qed.

Lemma wf_entries_NoDup fs p r w x es :
  wf_node fs = true → lookup_path p fs = Some (Dir r w x es) → NoDup (map fst es).
Proof.
  intros Hwf Hp. apply (wf_node_lookup _ _ _ Hwf) in Hp.
  by apply wf_node_Dir in Hp as [? _].
Qed.

End analyze_facts.

(** ** generate_readme_content *)

Section render_facts.

Implicit Types (es : list (string * node)) (info : FolderAnalysis).

Lemma sorted_StronglySorted (l : list string) : StronglySorted String.le (sorted l).
Proof. apply (StronglySorted_merge_sort _). Qed.

Lemma sorted_Permutation (l : list string) : sorted l ≡ₚ l.
Proof. apply merge_sort_Permutation. Qed.

(** [sorted] does not depend on the order of its argument. *)
Lemma sorted_unique (l l' : list string) : l ≡ₚ l' → sorted l = sorted l'.
Proof.
  intros Hp. apply (StronglySorted_unique String.le); try apply sorted_StronglySorted.
  by rewrite !sorted_Permutation.
Qed.

Lemma StronglySorted_strict (l : list string) :
  NoDup l → StronglySorted String.le l → StronglySorted name_lt l.
Proof.
  induction 2 as [|x l Hl IH Hx]; [constructor|].
  apply NoDup_cons in H as [Hnx Hnd]. constructor; [auto|].
  rewrite Forall_forall in Hx |- *. intros y Hy.
  apply strict_spec_alt. split; [auto|]. by intros ->.
Qed.

Lemma sorted_strict (l : list string) : NoDup l → StronglySorted name_lt (sorted l).
Proof.
  intros Hnd. apply StronglySorted_strict; [|apply sorted_StronglySorted].
  by rewrite sorted_Permutation.
Qed.

Lemma key_file_lines_cases info f :
  key_file_lines info f = []
  ∨ key_file_lines info f = [plain_file_line f]
  ∨ key_file_lines info f = [counted_file_line f (line_counts info !!! f)].
Proof. unfold key_file_lines. repeat case_match; auto. Qed.

Lemma key_file_lines_ext info info' f :
  line_counts info = line_counts info' → key_file_lines info f = key_file_lines info' f.
Proof. unfold key_file_lines. by intros ->. Qed.

(** The entries produced by the loop of lines 93-97 over a sorted list
    are the entries of a sorted sub-list of names. *)
Lemma key_file_entries_sorted info (R : relation string) (l : list string) :
  StronglySorted R l →
  ∃ listed, StronglySorted R listed ∧ listed ⊆ l
    ∧ Forall2 key_file_entry listed (concat (map (key_file_lines info) l)).
Proof.
  induction 1 as [|x l Hl (listed & Hs & Hsub & Hall) Hx]; simpl.
  - exists []. split_and!; [constructor|done|constructor].
  - destruct (key_file_lines_cases info x) as [->|[-> | ->]]; simpl.
    + exists listed. split_and!; [done|by apply list_subseteq_cons|done].
    + exists (x :: listed). split_and!.
      * constructor; [done|]. rewrite Forall_forall in Hx |- *. auto.
      * intros y [->|Hy]%elem_of_cons; [left|right; auto].
      * constructor; [by left|done].
    + exists (x :: listed). split_and!.
      * constructor; [done|]. rewrite Forall_forall in Hx |- *. auto.
      * intros y [->|Hy]%elem_of_cons; [left|right; auto].
      * constructor; [right; eauto|done].
Qed.

Lemma entry_lookup_Permutation es es' f :
  NoDup (map fst es) → es ≡ₚ es' → entry_lookup f es = entry_lookup f es'.
Proof.
  intros Hnd Hp. assert (NoDup (map fst es')) as Hnd' by by rewrite <- Hp.
  destruct (entry_lookup f es) as [n|] eqn:Hf.
  - symmetry. apply entry_lookup_NoDup; [done|].
    rewrite <- Hp. by apply entry_lookup_elem.
  - symmetry. apply entry_lookup_None. rewrite <- Hp. by apply entry_lookup_None.
Qed.

Lemma files_NoDup es : NoDup (map fst es) → NoDup (map fst (filter (λ e, is_file (snd e)) es)).
Proof. intros Hnd. eapply sublist_NoDup; [done|]. apply fmap_sublist, sublist_filter. Qed.

Lemma subfolders_NoDup es :
  NoDup (map fst es) → NoDup (map fst (filter (λ e, listed_subfolder e) es)).
Proof. intros Hnd. eapply sublist_NoDup; [done|]. apply fmap_sublist, sublist_filter. Qed.

Lemma last_char_app (pre s : string) :
  s ≠ EmptyString → last_char (pre +:+ s) = last_char s.
Proof.
  intros Hs. induction pre as [|a pre IH]; [done|].
  rewrite app_String. simpl. rewrite IH.
  destruct s as [|b s]; [done|]. simpl. by destruct (last_char s).
Qed.

(** A string ends with [suf] only if both have the same last character. *)
Lemma endswith_last_char (s suf : string) :
  suf ≠ EmptyString → PyStr.endswith s suf = true → last_char s = last_char suf.
Proof. intros Hne [pre ->]%endswith_inv. by apply last_char_app. Qed.

(** The renderer has no line for a [.tsx] or a [.jsx] file. *)
Lemma tsx_jsx_omitted info f :
  PurePath.suffix f = ".tsx" ∨ PurePath.suffix f = ".jsx" →
  key_file_lines info f = [].
Proof.
  intros Hs.
  assert (last_char f = Some "x"%char) as Hlast.
  { assert (PurePath.suffix f ≠ EmptyString) as Hne by (by destruct Hs as [-> | ->]).
    pose proof (endswith_last_char _ _ Hne (suffix_endswith _ Hne)) as ->.
    by destruct Hs as [-> | ->]. }
  assert (∀ suf, suf ∈ [".ts"; ".js"; ".json"; ".md"] → PyStr.endswith f suf = false)
    as Hno.
  { intros suf Hsuf. destruct (PyStr.endswith f suf) eqn:He; [|done].
    apply endswith_last_char in He.
    - rewrite Hlast in He. set_unfold in Hsuf.
      destruct Hsuf as [-> |[-> |[-> |[-> |[]]]]]; discriminate He.
    - set_unfold in Hsuf. destruct Hsuf as [-> |[-> |[-> |[-> |[]]]]]; done. }
  unfold key_file_lines, PyStr.endswith_any. simpl.
  rewrite (Hno ".ts"), (Hno ".js"), (Hno ".json"), (Hno ".md") by repeat constructor.
  done.
Qed.

End render_facts.

(** ** The driver *)

Section driver_facts.

Context {dev : device}.

Implicit Types (fs : node) (p q f g : path) (queue : list path) (log : list event).

Lemma readme_of_inj p q : readme_of p = readme_of q → p = q.
Proof. unfold readme_of, PurePath.child. by intros ?%(inj (.++ ["README.md"])). Qed.


Lemma parent_snoc p c : PurePath.parent (p ++ [c]) = p.
Proof. apply removelast_last. Qed.

Lemma present_readme fs p r w x es :
  lookup_path p fs = Some (Dir r w x es) →
  present fs (readme_of p) = bool_decide (is_Some (entry_lookup "README.md" es)).
Proof.
  intros Hp. unfold present, readme_of, PurePath.child.
  rewrite lookup_path_app, Hp. simpl. apply bool_decide_ext.
  by destruct (entry_lookup "README.md" es).
Qed.

(** Below a directory that [stat] finds and that can be searched,
    [exists] tells whether the README is there. *)
Lemma path_exists_readme fs p r w es :
  stat p fs = inr (Dir r w true es) →
  path_exists fs (readme_of p) = inr (present fs (readme_of p)).
Proof. apply path_exists_child. Qed.

(** *** The walk and the discovery loop *)

Lemma walk_roots_walk_at fs :
  walk_roots fs
  = if root_searchable fs then map (app src_path) (walk_at fs src_path) else [].
Proof.
  unfold walk_roots, walk_at. change src_path with ["src"].
  rewrite root_searchable_stat. destruct (root_searchable fs).
  - by destruct (lookup_path ["src"] fs).
  - by destruct fs.
Qed.

Lemma walk_roots_NoDup fs : wf_node fs = true → NoDup (walk_roots fs).
Proof.
  intros Hwf. unfold walk_roots.
  destruct (stat src_path fs) as [e|n] eqn:Hn; [constructor|].
  apply (NoDup_fmap_2 _). eapply os_walk_NoDup, wf_node_lookup; eauto using stat_lookup.
Qed.

(** [stat] finds the roots that the walk yields, and they can be
    enumerated. *)
Lemma walk_roots_stat fs p :
  wf_node fs = true → p ∈ walk_roots fs →
  ∃ w x es, stat p fs = inr (Dir true w x es).
Proof.
  intros Hwf. unfold walk_roots.
  destruct (stat src_path fs) as [e|n] eqn:Hn; [by intros ?%elem_of_nil|].
  intros (rel & -> & Hrel)%list_elem_of_fmap.
  rewrite stat_app, Hn. apply walkable_stat, os_walk_walkable; [|done].
  eapply wf_node_lookup; eauto using stat_lookup.
Qed.

Lemma walk_roots_listable fs p :
  wf_node fs = true → p ∈ walk_roots fs →
  ∃ w x es, lookup_path p fs = Some (Dir true w x es).
Proof.
  intros Hwf Hp. destruct (walk_roots_stat _ _ Hwf Hp) as (w & x & es & Hs%stat_lookup).
  eauto.
Qed.

Lemma reached_by_walk_roots fs p : reached_by_walk fs p → p ∈ walk_roots fs.
Proof.
  intros (rel & n & -> & Hn & Hw). unfold walk_roots. rewrite Hn.
  apply list_elem_of_fmap. exists rel. split; [done|]. by apply walkable_os_walk.
Qed.

Lemma walk_roots_reached fs p :
  wf_node fs = true → p ∈ walk_roots fs → reached_by_walk fs p.
Proof.
  intros Hwf. unfold walk_roots.
  destruct (stat src_path fs) as [e|n] eqn:Hn; [by intros ?%elem_of_nil|].
  intros (rel & -> & Hrel)%list_elem_of_fmap. exists rel, n. split_and!; [done..|].
  apply os_walk_walkable; [|done]. eapply wf_node_lookup; eauto using stat_lookup.
Qed.

(** The loop when no call of [exists] raises. *)
Lemma discover_loop_done fs roots :
  (∀ p, p ∈ roots → ∃ b, path_exists fs (readme_of p) = inr b) →
  discover_loop fs roots
  = (filter (λ p, present fs (readme_of p) = false) roots,
     map EPrintExists (filter (λ p, present fs (readme_of p) = true) roots),
     None).
Proof.
  induction roots as [|p roots IH]; intros Hall; [done|].
  destruct (Hall p) as [b Hb]; [left|].
  pose proof (path_exists_inr _ _ _ Hb) as Hpres.
  simpl. rewrite Hb, IH by (intros q Hq; apply Hall; by right).
  destruct b.
  - rewrite (filter_cons_False (λ p, present fs (readme_of p) = false))
      by (by rewrite <- Hpres).
    by rewrite (filter_cons_True (λ p, present fs (readme_of p) = true)) by done.
  - rewrite (filter_cons_True (λ p, present fs (readme_of p) = false)) by done.
    by rewrite (filter_cons_False (λ p, present fs (readme_of p) = true))
      by (by rewrite <- Hpres).
Qed.

(** The loop ends without exception only when no call of [exists]
    raises. *)
Lemma discover_loop_returns fs roots p :
  (discover_loop fs roots).2 = None → p ∈ roots →
  ∃ b, path_exists fs (readme_of p) = inr b.
Proof.
  induction roots as [|q roots IH]; [by intros _ ?%elem_of_nil|].
  simpl. destruct (path_exists fs (readme_of q)) as [e|b] eqn:Hb; [done|].
  destruct (discover_loop fs roots) as [[queue log] raised].
  assert (raised = None → p ∈ q :: roots →
          ∃ b, path_exists fs (readme_of p) = inr b) as Hgoal.
  { intros Hr [->|Hp]%elem_of_cons; [eauto|by apply IH]. }
  by destruct b.
Qed.

(** What the loop queues was yielded by the walk, and [exists] told that
    it holds no README; the loop keeps the order of the walk. *)
Lemma discover_loop_elem fs roots p :
  p ∈ (discover_loop fs roots).1.1 →
  p ∈ roots ∧ path_exists fs (readme_of p) = inr false.
Proof.
  induction roots as [|q roots IH]; [by intros ?%elem_of_nil|].
  simpl. destruct (path_exists fs (readme_of q)) as [e|b] eqn:Hb;
    [by intros ?%elem_of_nil|].
  destruct (discover_loop fs roots) as [[queue log] raised]. simpl in IH.
  destruct b; simpl.
  - intros [? ?]%IH. split; [by right|done].
  - intros [->|[? ?]%IH]%elem_of_cons; (split; [|done]); [left|by right].
Qed.

Lemma discover_loop_sublist fs roots : (discover_loop fs roots).1.1 `sublist_of` roots.
Proof.
  induction roots as [|q roots IH]; [done|].
  simpl. destruct (path_exists fs (readme_of q)) as [e|b]; [apply sublist_nil_l|].
  destruct (discover_loop fs roots) as [[queue log] raised]. simpl in IH.
  destruct b; simpl; [by apply sublist_cons|by apply sublist_skip].
Qed.

Lemma discover_loop_prints fs roots e :
  e ∈ (discover_loop fs roots).1.2 → is_driver_print e = true.
Proof.
  induction roots as [|q roots IH]; [by intros ?%elem_of_nil|].
  simpl. destruct (path_exists fs (readme_of q)) as [e'|b];
    [by intros ?%elem_of_nil|].
  destruct (discover_loop fs roots) as [[queue log] raised]. simpl in IH.
  destruct b; simpl; [|done]. by intros [->|?]%elem_of_cons; [|apply IH].
Qed.

(** The exception that ends the loop is the [PermissionError] of a call
    of [exists]. *)
Lemma discover_loop_raised fs roots e :
  (discover_loop fs roots).2 = Some e →
  e = PermissionError
  ∧ ∃ p, p ∈ roots ∧ path_exists fs (readme_of p) = inl PermissionError.
Proof.
  induction roots as [|q roots IH]; [done|].
  simpl. destruct (path_exists fs (readme_of q)) as [e'|b] eqn:Hb.
  - intros [= ->]. pose proof (path_exists_inl _ _ _ Hb) as ->.
    split; [done|]. exists q. split; [left|done].
  - destruct (discover_loop fs roots) as [[queue log] raised].
    assert (raised = Some e →
            e = PermissionError
            ∧ ∃ p, p ∈ q :: roots ∧ path_exists fs (readme_of p) = inl PermissionError)
      as Hgoal.
    { intros Hr. destruct (IH Hr) as (-> & p & Hp & Hraise).
      split; [done|]. exists p. split; [by right|done]. }
    by destruct b.
Qed.

Lemma discover_elem fs p :
  p ∈ (discover fs).1 →
  p ∈ walk_roots fs ∧ present fs (readme_of p) = false
  ∧ path_exists fs (readme_of p) = inr false.
Proof.
  intros [Hp He]%discover_loop_elem. split_and!; [done| |done].
  symmetry. by apply path_exists_inr.
Qed.

Lemma discover_done fs :
  discover_raised fs = None →
  discover_run fs
  = (filter (λ p, present fs (readme_of p) = false) (walk_roots fs),
     map EPrintExists (filter (λ p, present fs (readme_of p) = true) (walk_roots fs)),
     None).
Proof.
  intros Hdone. apply discover_loop_done. intros p Hp.
  by apply (discover_loop_returns fs (walk_roots fs)).
Qed.

Lemma elem_of_discover fs p :
  discover_raised fs = None →
  p ∈ (discover fs).1 ↔ p ∈ walk_roots fs ∧ present fs (readme_of p) = false.
Proof.
  intros Hdone. unfold discover. rewrite (discover_done _ Hdone). simpl.
  rewrite list_elem_of_filter. tauto.
Qed.

Lemma discover_NoDup fs : wf_node fs = true → NoDup (discover fs).1.
Proof.
  intros Hwf. eapply sublist_NoDup; [by apply walk_roots_NoDup|].
  apply discover_loop_sublist.
Qed.

Lemma discover_log_prints fs e : e ∈ (discover fs).2 → is_driver_print e = true.
Proof. apply discover_loop_prints. Qed.

(** [stat] finds every queued folder, and it can be enumerated and
    searched. *)
Lemma discover_accessible fs p :
  wf_node fs = true → p ∈ (discover fs).1 →
  ∃ w es, stat p fs = inr (Dir true w true es).
Proof.
  intros Hwf (Hp & _ & He)%discover_elem.
  destruct (walk_roots_stat _ _ Hwf Hp) as (w & x & es & Hs).
  pose proof (stat_dir_searchable _ _ _ _ _ _ _ _ Hs He) as ->. eauto.
Qed.

(** When the discovery loop ends without exception, every folder that the
    walk yields can be searched. *)
Lemma walk_roots_accessible fs p :
  wf_node fs = true → discover_raised fs = None → p ∈ walk_roots fs →
  ∃ w es, stat p fs = inr (Dir true w true es).
Proof.
  intros Hwf Hdone Hp.
  destruct (walk_roots_stat _ _ Hwf Hp) as (w & x & es & Hs).
  destruct (discover_loop_returns fs (walk_roots fs) p Hdone Hp) as [b He].
  pose proof (stat_dir_searchable _ _ _ _ _ _ _ _ Hs He) as ->. eauto.
Qed.

(** *** Sorting by depth *)

Lemma insert_by_depth_Permutation p l : insert_by_depth p l ≡ₚ p :: l.
Proof.
  induction l as [|q l IH]; simpl; [done|].
  destruct (_ <=? _); [done|]. rewrite IH. apply Permutation_swap.
Qed.

Lemma sorted_by_depth_Permutation l : sorted_by_depth l ≡ₚ l.
Proof.
  induction l as [|p l IH]; simpl; [done|].
  by rewrite insert_by_depth_Permutation, IH.
Qed.

Lemma insert_by_depth_sorted p l :
  StronglySorted depth_le l → StronglySorted depth_le (insert_by_depth p l).
Proof.
  induction 1 as [|q l Hl IH Hq]; simpl.
  - repeat constructor.
  - destruct (PurePath.depth p <=? PurePath.depth q) eqn:Hpq.
    + apply Nat.leb_le in Hpq. constructor; [by constructor|].
      constructor; [done|]. eapply Forall_impl; [done|].
      unfold depth_le. simpl. intros; lia.
    + apply Nat.leb_gt in Hpq. constructor; [done|].
      rewrite insert_by_depth_Permutation. constructor; [|done].
      unfold depth_le. lia.
Qed.

Lemma sorted_by_depth_sorted l : StronglySorted depth_le (sorted_by_depth l).
Proof.
  induction l as [|p l IH]; simpl; [constructor|]. by apply insert_by_depth_sorted.
Qed.

(** *** One iteration of the generation loop *)

Lemma analyze_folder_name fs p info opened :
  analyze_folder fs p = inr (info, opened) → fa_name info = PurePath.name p.
Proof.
  intros (w & x & es & _ & Ha)%analyze_folder_inr.
  rewrite <- (analyze_entries_name p es). by rewrite Ha.
Qed.

(** The analyzer opens only direct children whose suffix is [.ts] or [.tsx]. *)
Lemma analyze_folder_opened fs p info opened e :
  analyze_folder fs p = inr (info, opened) → e ∈ opened →
  ∃ c, e = EOpen (PurePath.child p c) ∧ PurePath.suffix c ∈ typescript_suffixes.
Proof.
  intros (w & x & es & _ & Ha)%analyze_folder_inr.
  pose proof (analyze_entries_opened p es) as Ho. rewrite Ha in Ho. simpl in Ho.
  rewrite Ho. intros ([c n] & -> & Hc)%list_elem_of_fmap.
  apply list_elem_of_filter in Hc as [Hc _]. exists c. split; [done|].
  unfold tracked_file in Hc. simpl in Hc.
  apply andb_prop_elim in Hc as [_ Hc]. by apply bool_decide_unpack in Hc.
Qed.

(** The parent summary, when the call of [exists] returns. *)
Lemma parent_info_of_inr fs p pi :
  parent_info_of fs p = inr pi →
  pi = if bool_decide (PurePath.parent p ≠ src_path ∧ PurePath.parent p ≠ project_root)
          && present fs (readme_of (PurePath.parent p))
       then Some (mkParent (PurePath.name (PurePath.parent p)))
       else None.
Proof.
  unfold parent_info_of. destruct (bool_decide _); simpl; [|by intros [= <-]].
  destruct (path_exists fs _) as [e|b] eqn:Hb; [done|].
  rewrite <- (path_exists_inr _ _ _ Hb). by destruct b; intros [= <-].
Qed.

(** The call returns for a folder that [stat] finds. *)
Lemma parent_info_of_returns fs p m :
  stat p fs = inr m → ∃ pi, parent_info_of fs p = inr pi.
Proof.
  intros Hp. unfold parent_info_of. case_bool_decide as Hguard; [|eauto].
  destruct p as [|c p _] using rev_ind; [by destruct Hguard as [_ []]|].
  rewrite parent_snoc. destruct (stat_parent _ _ _ _ Hp) as (r & w & es & Hq).
  rewrite (path_exists_readme _ _ _ _ _ Hq).
  destruct (present fs (readme_of p)); eauto.
Qed.

(** The summary depends on the tree through one call of [exists]. *)
Lemma parent_info_of_ext fs fs' p :
  (p ≠ [] → path_exists fs' (readme_of (PurePath.parent p))
            = path_exists fs (readme_of (PurePath.parent p))) →
  parent_info_of fs' p = parent_info_of fs p.
Proof.
  intros Hext. unfold parent_info_of. case_bool_decide as Hguard; [|done].
  rewrite Hext; [done|]. intros ->. by destruct Hguard as [_ []].
Qed.

Lemma process_folder_inr fs p fs1 log1 :
  process_folder dev fs p = inr (fs1, log1) →
  ∃ info opened pi,
    analyze_folder fs p = inr (info, opened)
    ∧ parent_info_of fs p = inr pi
    ∧ ((write_text dev (readme_of p) (generate_readme_content info pi) fs
        = WriteReturned fs1
        ∧ log1 = opened
                 ++ [EWrite (readme_of p) (generate_readme_content info pi);
                     EPrintCreated (readme_of p)])
       ∨ (write_text dev (readme_of p) (generate_readme_content info pi) fs
          = WriteRaised fs1
          ∧ log1 = opened ++ [EPrintFailed (readme_of p)])).
Proof.
  unfold process_folder.
  destruct (analyze_folder fs p) as [e|[info opened]] eqn:Ha; [done|].
  destruct (parent_info_of fs p) as [e|pi] eqn:Hpi; [done|].
  destruct (write_text _ _ _ fs) as [fs2|fs2] eqn:Hw; intros [= <- <-];
    exists info, opened, pi; eauto.
Qed.

(** An iteration leaves the tree as it was or stores some text in the
    README of its folder. *)
Lemma process_folder_stored fs p fs1 log1 :
  process_folder dev fs p = inr (fs1, log1) →
  fs1 = fs ∨ ∃ text, store (readme_of p) text fs = Some fs1.
Proof.
  intros (info & opened & pi & _ & _ & [[Hw _]|[Hw _]])%process_folder_inr;
    eapply write_text_stored; eauto.
Qed.

Lemma process_folder_kind fs p fs1 log1 g :
  process_folder dev fs p = inr (fs1, log1) → g ≠ readme_of p →
  kind_of (lookup_path g fs1) = kind_of (lookup_path g fs).
Proof.
  intros [->|[text Hs]]%process_folder_stored Hg; [done|].
  rewrite (store_kind _ _ _ _ g Hs). by rewrite decide_False.
Qed.

Lemma process_folder_present fs p fs1 log1 g :
  process_folder dev fs p = inr (fs1, log1) →
  present fs g = true → present fs1 g = true.
Proof.
  intros [->|[text Hs]]%process_folder_stored Hg; [done|].
  rewrite (store_present _ _ _ _ g Hs), Hg. done.
Qed.

Lemma process_folder_path_exists fs p fs1 log1 g :
  process_folder dev fs p = inr (fs1, log1) → g ≠ readme_of p →
  path_exists fs1 g = path_exists fs g.
Proof.
  intros [->|[text Hs]]%process_folder_stored Hg; [done|].
  by apply (store_path_exists _ _ _ _ _ Hs).
Qed.


Lemma process_folder_dir fs p fs1 log1 g r w x es :
  process_folder dev fs p = inr (fs1, log1) →
  lookup_path g fs = Some (Dir r w x es) →
  ∃ es', lookup_path g fs1 = Some (Dir r w x es').
Proof.
  intros [->|[text Hs]]%process_folder_stored Hg; [eauto|].
  eauto using store_dir_frame.
Qed.

Lemma process_folder_stat_dir fs p fs1 log1 g r w x es :
  process_folder dev fs p = inr (fs1, log1) →
  stat g fs = inr (Dir r w x es) → ∃ es', stat g fs1 = inr (Dir r w x es').
Proof.
  intros [->|[text Hs]]%process_folder_stored Hg; [eauto|].
  eauto using store_stat_dir.
Qed.

Lemma process_folder_walk_at fs p fs1 log1 g :
  process_folder dev fs p = inr (fs1, log1) → walk_at fs1 g = walk_at fs g.
Proof.
  intros [->|[text Hs]]%process_folder_stored; [done|].
  eauto using store_walk_at.
Qed.

Lemma process_folder_lookup_frame fs p fs1 log1 g :
  process_folder dev fs p = inr (fs1, log1) → ¬ g `prefix_of` readme_of p →
  lookup_path g fs1 = lookup_path g fs.
Proof.
  intros [->|[text Hs]]%process_folder_stored Hg; [done|].
  eauto using store_lookup_frame.
Qed.

(** The iteration completes on a directory that [stat] finds and that can
    be enumerated and searched. *)
Lemma process_folder_returns fs p w es :
  stat p fs = inr (Dir true w true es) →
  ∃ fs1 log1, process_folder dev fs p = inr (fs1, log1).
Proof.
  intros Hp. unfold process_folder. rewrite (analyze_folder_accessible _ _ _ _ Hp).
  destruct (analyze_entries p es) as [info opened].
  destruct (parent_info_of_returns _ _ _ Hp) as [pi ->].
  destruct (write_text _ _ _ fs); eauto.
Qed.

(** *** The generation loop *)

Lemma generate_cons_inv fs p queue fs' log :
  generate dev fs (p :: queue) = Returned fs' log →
  ∃ fs1 log1 log2,
    process_folder dev fs p = inr (fs1, log1)
    ∧ generate dev fs1 queue = Returned fs' log2 ∧ log = log1 ++ log2.
Proof.
  simpl. destruct (process_folder dev fs p) as [[e log1]|[fs1 log1]]; [done|].
  destruct (generate dev fs1 queue) as [fs2 log2|e fs2 log2] eqn:Hgen; [|done].
  intros [= <- <-]. by exists fs1, log1, log2.
Qed.

Lemma generate_returns fs queue :
  (∀ p, p ∈ queue → ∃ w es, stat p fs = inr (Dir true w true es)) →
  ∃ fs' log, generate dev fs queue = Returned fs' log.
Proof.
  revert fs. induction queue as [|p queue IH]; intros fs Hq; simpl; [eauto|].
  destruct (Hq p) as (w & es & Hp); [left|].
  destruct (process_folder_returns _ _ _ _ Hp) as (fs1 & log1 & Hstep). rewrite Hstep.
  destruct (IH fs1) as (fs' & log & ->); [|eauto].
  intros q Hin. destruct (Hq q) as (w' & es' & Hq'); [by right|].
  destruct (process_folder_stat_dir _ _ _ _ _ _ _ _ _ Hstep Hq') as [es1 Hq1]. eauto.
Qed.

Lemma generate_kind fs queue fs' log g :
  generate dev fs queue = Returned fs' log → g ∉ map readme_of queue →
  kind_of (lookup_path g fs') = kind_of (lookup_path g fs).
Proof.
  revert fs log. induction queue as [|p queue IH]; intros fs log.
  - by intros [= <- <-].
  - intros (fs1 & log1 & log2 & Hstep & Hgen & ->)%generate_cons_inv Hg.
    simpl in Hg. apply not_elem_of_cons in Hg as [Hne Hg].
    rewrite (IH _ _ Hgen Hg). eauto using process_folder_kind.
Qed.

Lemma generate_present_eq fs queue fs' log g :
  generate dev fs queue = Returned fs' log → g ∉ map readme_of queue →
  present fs' g = present fs g.
Proof. intros Hgen Hg. by rewrite !present_kind, (generate_kind _ _ _ _ g Hgen Hg). Qed.

Lemma generate_present fs queue fs' log g :
  generate dev fs queue = Returned fs' log →
  present fs g = true → present fs' g = true.
Proof.
  revert fs log. induction queue as [|p queue IH]; intros fs log.
  - by intros [= <- <-].
  - intros (fs1 & log1 & log2 & Hstep & Hgen & ->)%generate_cons_inv Hg.
    eauto using process_folder_present.
Qed.

Lemma generate_path_exists fs queue fs' log g :
  generate dev fs queue = Returned fs' log → g ∉ map readme_of queue →
  path_exists fs' g = path_exists fs g.
Proof.
  revert fs log. induction queue as [|p queue IH]; intros fs log.
  - by intros [= <- <-].
  - intros (fs1 & log1 & log2 & Hstep & Hgen & ->)%generate_cons_inv Hg.
    simpl in Hg. apply not_elem_of_cons in Hg as [Hne Hg].
    rewrite (IH _ _ Hgen Hg). eauto using process_folder_path_exists.
Qed.


Lemma generate_file_frame fs queue fs' log g t :
  generate dev fs queue = Returned fs' log → g ∉ map readme_of queue →
  lookup_path g fs = Some (File t) → lookup_path g fs' = Some (File t).
Proof.
  intros Hgen Hg Hf. pose proof (generate_kind _ _ _ _ g Hgen Hg) as Hk.
  rewrite Hf in Hk. destruct (lookup_path g fs') as [[t'|]|]; simplify_eq/=; done.
Qed.

Lemma generate_dir_frame fs queue fs' log g r w x es :
  generate dev fs queue = Returned fs' log →
  lookup_path g fs = Some (Dir r w x es) →
  ∃ es', lookup_path g fs' = Some (Dir r w x es').
Proof.
  revert fs log es. induction queue as [|p queue IH]; intros fs log es.
  - intros [= <- <-]. eauto.
  - intros (fs1 & log1 & log2 & Hstep & Hgen & ->)%generate_cons_inv Hg.
    destruct (process_folder_dir _ _ _ _ _ _ _ _ _ Hstep Hg) as [es1 Hg1]. eauto.
Qed.

Lemma generate_stat_dir fs queue fs' log g r w x es :
  generate dev fs queue = Returned fs' log →
  stat g fs = inr (Dir r w x es) → ∃ es', stat g fs' = inr (Dir r w x es').
Proof.
  revert fs log es. induction queue as [|p queue IH]; intros fs log es.
  - intros [= <- <-]. eauto.
  - intros (fs1 & log1 & log2 & Hstep & Hgen & ->)%generate_cons_inv Hg.
    destruct (process_folder_stat_dir _ _ _ _ _ _ _ _ _ Hstep Hg) as [es1 Hg1]. eauto.
Qed.

Lemma generate_walk_at fs queue fs' log g :
  generate dev fs queue = Returned fs' log → walk_at fs' g = walk_at fs g.
Proof.
  revert fs log. induction queue as [|p queue IH]; intros fs log.
  - by intros [= <- <-].
  - intros (fs1 & log1 & log2 & Hstep & Hgen & ->)%generate_cons_inv.
    rewrite (IH _ _ Hgen). eauto using process_folder_walk_at.
Qed.

Lemma generate_root_searchable fs queue fs' log :
  generate dev fs queue = Returned fs' log → root_searchable fs' = root_searchable fs.
Proof.
  intros Hgen. destruct fs as [t|r w x es].
  - pose proof (generate_kind _ _ _ _ [] Hgen) as Hk. simpl in Hk.
    destruct fs' as [t'|]; [done|]. discriminate Hk.
    intros (q & Hq & _)%list_elem_of_fmap. by destruct q.
  - destruct (generate_dir_frame _ _ _ _ [] _ _ _ _ Hgen eq_refl) as [es' Hes'].
    simpl in Hes'. by injection Hes' as ->.
Qed.

(** The generation loop leaves the walk as it was. *)
Lemma generate_walk_roots fs queue fs' log :
  generate dev fs queue = Returned fs' log → walk_roots fs' = walk_roots fs.
Proof.
  intros Hgen.
  by rewrite !walk_roots_walk_at, (generate_root_searchable _ _ _ _ Hgen),
    (generate_walk_at _ _ _ _ _ Hgen).
Qed.

(** *** The event log of the generation loop *)

Lemma written_files_opened fs p info opened :
  analyze_folder fs p = inr (info, opened) → written_files opened = [].
Proof.
  intros (w & x & es & _ & Ha)%analyze_folder_inr.
  pose proof (analyze_entries_opened p es) as Ho. rewrite Ha in Ho. simpl in Ho.
  rewrite Ho. generalize (filter (λ e, tracked_file e) es). intros l.
  induction l as [|e l IH]; [done|apply IH].
Qed.

(** What one iteration logs: the files opened, then either the write and
    its message, or the failure message. *)
Lemma process_folder_log fs p fs1 log1 e :
  process_folder dev fs p = inr (fs1, log1) → e ∈ log1 →
  (∃ c, e = EOpen (PurePath.child p c) ∧ PurePath.suffix c ∈ typescript_suffixes)
  ∨ (∃ doc, e = EWrite (readme_of p) doc)
  ∨ e = EPrintCreated (readme_of p)
  ∨ e = EPrintFailed (readme_of p).
Proof.
  intros (info & opened & pi & Ha & _ & [[_ ->]|[_ ->]])%process_folder_inr;
    rewrite elem_of_app; (intros [He|He]; [left; eauto using analyze_folder_opened|]).
  - apply elem_of_cons in He as [->|He]; [eauto|].
    apply list_elem_of_singleton in He as ->. auto.
  - apply list_elem_of_singleton in He as ->. auto.
Qed.

Lemma generate_log fs queue fs' log e :
  generate dev fs queue = Returned fs' log → e ∈ log →
  ∃ p, p ∈ queue ∧
    ((∃ c, e = EOpen (PurePath.child p c) ∧ PurePath.suffix c ∈ typescript_suffixes)
     ∨ (∃ doc, e = EWrite (readme_of p) doc)
     ∨ e = EPrintCreated (readme_of p)
     ∨ e = EPrintFailed (readme_of p)).
Proof.
  revert fs log. induction queue as [|p queue IH]; intros fs log.
  - intros [= <- <-]. by intros ?%elem_of_nil.
  - intros (fs1 & log1 & log2 & Hstep & Hgen & ->)%generate_cons_inv.
    intros [He|He]%elem_of_app.
    + exists p. split; [left|]. eauto using process_folder_log.
    + destruct (IH _ _ Hgen He) as (q & Hq & Hcases). exists q. split; [by right|done].
Qed.

(** Nothing is logged about the README of a folder that is not queued. *)
Lemma generate_log_other fs queue fs' log p :
  generate dev fs queue = Returned fs' log → p ∉ queue →
  (EPrintCreated (readme_of p) ∉ log) ∧ (EPrintFailed (readme_of p) ∉ log)
  ∧ ∀ doc, EWrite (readme_of p) doc ∉ log.
Proof.
  intros Hgen Hp.
  assert (∀ e, e ∈ log →
            (e = EPrintCreated (readme_of p) ∨ e = EPrintFailed (readme_of p)
             ∨ ∃ doc, e = EWrite (readme_of p) doc) → False) as Hno.
  { intros e He Hcases.
    destruct (generate_log _ _ _ _ _ Hgen He) as (q & Hq & Hlog).
    assert (readme_of q = readme_of p → False) as Hne.
    { intros ->%readme_of_inj. done. }
    destruct Hcases as [->|[->|[doc ->]]];
      destruct Hlog as [(c & [=] & _)|[[doc' [=]]|[[=]|[=]]]]; auto. }
  split_and!; [intros He|intros He|intros doc He]; eapply Hno; eauto.
Qed.

Lemma generate_written fs queue fs' log :
  generate dev fs queue = Returned fs' log →
  written_files log `sublist_of` map readme_of queue.
Proof.
  revert fs log. induction queue as [|p queue IH]; intros fs log.
  - by intros [= <- <-].
  - intros (fs1 & log1 & log2 & Hstep & Hgen & ->)%generate_cons_inv.
    unfold written_files. rewrite omap_app. fold (written_files log1) (written_files log2).
    apply process_folder_inr in Hstep
      as (info & opened & pi & Ha & _ & [[_ ->]|[_ ->]]);
      unfold written_files at 1; rewrite omap_app; fold (written_files opened);
      rewrite (written_files_opened _ _ _ _ Ha); simpl.
    + apply sublist_skip. eauto.
    + apply sublist_cons. eauto.
Qed.

(** A document written during the loop is rendered from an analysis of
    its folder, and is what the file holds when the loop ends. *)
Lemma generate_write_event fs queue fs' log f doc :
  NoDup queue →
  generate dev fs queue = Returned fs' log → EWrite f doc ∈ log →
  ∃ p info parent_info,
    p ∈ queue ∧ f = readme_of p ∧ fa_name info = PurePath.name p
    ∧ doc = generate_readme_content info parent_info
    ∧ lookup_path f fs' = Some (File (Some doc)).
Proof.
  revert fs log. induction queue as [|p queue IH]; intros fs log Hnd.
  - intros [= <- <-]. by intros ?%elem_of_nil.
  - apply NoDup_cons in Hnd as [Hp Hnd].
    intros (fs1 & log1 & log2 & Hstep & Hgen & ->)%generate_cons_inv.
    intros [He|He]%elem_of_app.
    + apply process_folder_inr in Hstep
        as (info & opened & pi & Ha & _ & [[Hw ->]|[_ ->]]);
        apply elem_of_app in He as [He|He];
        try (destruct (analyze_folder_opened _ _ _ _ _ Ha He) as (? & ? & _); done).
      * set_unfold in He. destruct He as [[= -> ->]|[|[]]]; [|done].
        apply write_text_returned in Hw as [_ Hs].
        exists p, info, pi. split_and!; [left|done| |done|].
        { eauto using analyze_folder_name. }
        eapply generate_file_frame; [done| |by eapply store_target].
        intros (q & ?%readme_of_inj & Hq)%list_elem_of_fmap. by subst.
      * set_unfold in He. by destruct He as [|[]].
    + destruct (IH _ _ Hnd Hgen He) as (q & info & pi & Hq & ?). exists q, info, pi.
      split; [by right|done].
Qed.

Lemma generate_created fs queue fs' log f :
  generate dev fs queue = Returned fs' log → EPrintCreated f ∈ log →
  ∃ doc, EWrite f doc ∈ log.
Proof.
  revert fs log. induction queue as [|p queue IH]; intros fs log.
  - intros [= <- <-]. by intros ?%elem_of_nil.
  - intros (fs1 & log1 & log2 & Hstep & Hgen & ->)%generate_cons_inv.
    intros [He|He]%elem_of_app.
    + apply process_folder_inr in Hstep
        as (info & opened & pi & Ha & _ & [[Hw ->]|[_ ->]]);
        apply elem_of_app in He as [He|He];
        try (destruct (analyze_folder_opened _ _ _ _ _ Ha He) as (? & ? & _); done).
      * set_unfold in He. destruct He as [|[[= ->]|[]]]; [done|].
        eexists. apply elem_of_app. left. apply elem_of_app. right. left.
      * set_unfold in He. by destruct He as [|[]].
    + destruct (IH _ _ Hgen He) as [doc Hdoc]. exists doc. apply elem_of_app. by right.
Qed.


(** *** The parent link *)

Lemma depth_parent p : p ≠ [] → PurePath.depth (PurePath.parent p) < PurePath.depth p.
Proof.
  unfold PurePath.depth, PurePath.parent. intros Hp.
  rewrite removelast_firstn_len, length_take. destruct p; [done|]. simpl. lia.
Qed.

(** The README of the parent of a folder is not the README of a folder
    queued at the same depth or deeper. *)
Lemma parent_readme_not_queued p rest :
  p ≠ [] → Forall (depth_le p) rest →
  readme_of (PurePath.parent p) ∉ map readme_of (p :: rest).
Proof.
  intros Hne Hp (q & Heq%readme_of_inj & Hq)%list_elem_of_fmap. subst q.
  pose proof (depth_parent p Hne) as Hlt.
  apply elem_of_cons in Hq as [Hq|Hq].
  { rewrite Hq in Hlt. lia. }
  rewrite Forall_forall in Hp. specialize (Hp _ Hq). unfold depth_le in Hp. lia.
Qed.

(** With the queue in ascending depth, the parent summary that the head
    of the queue gets is the one that the tree gives when the loop ends. *)
Lemma head_parent_info fs p rest fs' log :
  Forall (depth_le p) rest →
  generate dev fs (p :: rest) = Returned fs' log →
  parent_info_of fs' p = parent_info_of fs p.
Proof.
  intros Hp Hgen. apply parent_info_of_ext. intros Hne.
  eapply generate_path_exists; [done|]. by apply parent_readme_not_queued.
Qed.

(** With the queue in ascending depth, a document written during the loop
    is rendered from an analysis of its folder, with the parent summary
    that the tree gives when the loop ends. *)
Lemma generate_parent_info fs queue fs' log c doc :
  StronglySorted depth_le queue →
  generate dev fs queue = Returned fs' log → EWrite (readme_of c) doc ∈ log →
  ∃ info pi,
    fa_name info = PurePath.name c ∧ parent_info_of fs' c = inr pi
    ∧ doc = generate_readme_content info pi.
Proof.
  revert fs log. induction queue as [|q queue IH]; intros fs log Hs.
  - intros [= <- <-]. by intros ?%elem_of_nil.
  - apply StronglySorted_cons in Hs as [Hdepth Hs].
    intros Hgen0. pose proof Hgen0 as Hgen1.
    apply generate_cons_inv in Hgen1 as (fs1 & log1 & log2 & Hstep & Hgen & ->).
    intros [He|He]%elem_of_app; [|eauto].
    pose proof (head_parent_info _ _ _ _ _ Hdepth Hgen0) as Hpi.
    apply process_folder_inr in Hstep as (info & opened & pi & Ha & Hpi0 & Hw).
    destruct Hw as [[_ ->]|[_ ->]]; apply elem_of_app in He as [He|He];
      try (destruct (analyze_folder_opened _ _ _ _ _ Ha He) as (? & ? & _); done).
    + set_unfold in He. destruct He as [[= ->%readme_of_inj ->]|[|[]]]; [|done].
      exists info, pi. split_and!; [eauto using analyze_folder_name|congruence|done].
    + set_unfold in He. by destruct He as [|[]].
Qed.

(** A folder that is queued behind [q], not above it in depth, is not on
    the way to the README of [q]. *)
Lemma not_prefix_of_earlier_readme p q :
  p ≠ q → p ≠ readme_of q → PurePath.depth q ≤ PurePath.depth p →
  ¬ p `prefix_of` readme_of q.
Proof.
  unfold readme_of, PurePath.child, PurePath.depth. intros Hpq Hpr Hd [k Hk].
  destruct k as [|x k _] using rev_ind.
  - rewrite app_nil_r in Hk. by subst.
  - rewrite (assoc_L (++)) in Hk. apply app_inj_tail in Hk as [Hq _].
    subst q. rewrite length_app in Hd. destruct k as [|y k]; [|simpl in Hd; lia].
    by rewrite app_nil_r in Hpq.
Qed.

(** With the queue in ascending depth, every event of the loop comes from
    a queued folder as it was when the loop started: the files opened are
    those of its listing, and the document written is the rendering of
    that listing, with the parent summary that the final tree gives. *)
Lemma generate_events_from_initial_listing fs queue fs' log e :
  StronglySorted depth_le queue → NoDup queue →
  (∀ q, q ∈ queue → readme_of q ∉ queue) →
  generate dev fs queue = Returned fs' log → e ∈ log →
  ∃ p w x es pi,
    p ∈ queue ∧ lookup_path p fs = Some (Dir true w x es)
    ∧ parent_info_of fs' p = inr pi
    ∧ (e ∈ (analyze_entries p es).2
       ∨ e = EWrite (readme_of p) (generate_readme_content (analyze_entries p es).1 pi)
       ∨ e = EPrintCreated (readme_of p)
       ∨ e = EPrintFailed (readme_of p)).
Proof.
  revert fs log. induction queue as [|q queue IH]; intros fs log Hs Hnd Hq.
  - intros [= <- <-]. by intros ?%elem_of_nil.
  - apply StronglySorted_cons in Hs as [Hdepth Hs].
    apply NoDup_cons in Hnd as [Hnotin Hnd].
    intros Hgen0. pose proof Hgen0 as Hgen1.
    apply generate_cons_inv in Hgen1 as (fs1 & log1 & log2 & Hstep & Hgen & ->).
    intros [He|He]%elem_of_app.
    + pose proof (head_parent_info _ _ _ _ _ Hdepth Hgen0) as Hpi.
      apply process_folder_inr in Hstep as (info & opened & pi & Ha & Hpi0 & Hw).
      apply analyze_folder_inr in Ha as (w & x & es & Hdir%stat_lookup & Ha).
      exists q, w, x, es, pi. rewrite Ha, Hpi. simpl.
      split_and!; [left|done|done|].
      destruct Hw as [[_ ->]|[_ ->]]; apply elem_of_app in He as [He|He]; auto.
      * apply elem_of_cons in He as [->|He]; [auto|].
        apply list_elem_of_singleton in He as ->. auto.
      * apply list_elem_of_singleton in He as ->. auto.
    + destruct (IH fs1 log2 Hs Hnd) as (p & w & x & es & pi & Hp & Hdir & Hcases);
        [|done|done|].
      { intros q' Hq' Hin. apply (Hq q'); by right. }
      exists p, w, x, es, pi. split_and!; [by right| |apply Hcases..].
      rewrite <- Hdir. symmetry.
      apply (process_folder_lookup_frame _ _ _ _ _ Hstep).
      apply not_prefix_of_earlier_readme.
      * intros ->. done.
      * intros ->. apply (Hq q); [left|by right].
      * rewrite Forall_forall in Hdepth. by apply Hdepth.
Qed.

(** With the queue in ascending depth, what happens to a queued folder
    that holds no README is decided by its write permission and by the
    fault of the device for the document rendered from its listing: the
    write is reported as created and the file holds the document; or it is
    reported as failed and the folder is left without README; or it is
    reported as failed and the README is left with the part of the
    document that was written. *)
Lemma generate_outcome fs queue fs' log p r w es :
  StronglySorted depth_le queue → NoDup queue →
  (∀ q, q ∈ queue → readme_of q ∉ queue) →
  generate dev fs queue = Returned fs' log → p ∈ queue →
  stat p fs = inr (Dir r w true es) → present fs (readme_of p) = false →
  ∃ pi,
    parent_info_of fs' p = inr pi
    ∧ match fault_in w (dev (readme_of p)
                          (generate_readme_content (analyze_entries p es).1 pi)) with
      | NoFault =>
          EWrite (readme_of p) (generate_readme_content (analyze_entries p es).1 pi)
          ∈ log
          ∧ EPrintCreated (readme_of p) ∈ log
          ∧ (EPrintFailed (readme_of p) ∉ log)
          ∧ lookup_path (readme_of p) fs'
            = Some (File (Some (generate_readme_content (analyze_entries p es).1 pi)))
      | OpenFault =>
          EPrintFailed (readme_of p) ∈ log
          ∧ (EPrintCreated (readme_of p) ∉ log)
          ∧ (∀ doc, EWrite (readme_of p) doc ∉ log)
          ∧ present fs' (readme_of p) = false
      | WriteFault k =>
          EPrintFailed (readme_of p) ∈ log
          ∧ (EPrintCreated (readme_of p) ∉ log)
          ∧ (∀ doc, EWrite (readme_of p) doc ∉ log)
          ∧ lookup_path (readme_of p) fs'
            = Some (File (Some (String.substring 0 k
                                  (generate_readme_content (analyze_entries p es).1 pi))))
      end.
Proof.
  revert fs log es. induction queue as [|q queue IH]; intros fs log es Hs Hnd Hq.
  - intros _ ?%elem_of_nil. done.
  - apply StronglySorted_cons in Hs as [Hdepth Hs].
    apply NoDup_cons in Hnd as [Hnotin Hnd].
    intros Hgen0. pose proof Hgen0 as Hgen1.
    apply generate_cons_inv in Hgen1 as (fs1 & log1 & log2 & Hstep & Hgen & ->).
    intros [->|Hp]%elem_of_cons Hdir Hno.
    + (* the head of the queue *)
      pose proof (head_parent_info _ _ _ _ _ Hdepth Hgen0) as Hpi.
      destruct (generate_log_other _ _ _ _ q Hgen Hnotin) as (Hc2 & Hf2 & Hw2).
      assert (readme_of q ∉ map readme_of queue) as Hfresh.
      { intros (q' & ->%readme_of_inj & Hq')%list_elem_of_fmap. done. }
      apply process_folder_inr in Hstep as (info & opened & pi & Ha & Hpi0 & Hw).
      apply analyze_folder_inr in Ha as (w' & x' & es' & Hdir' & Ha).
      rewrite Hdir in Hdir'. injection Hdir' as -> <- <- <-.
      assert (∀ e, e ∈ opened → e ≠ EPrintCreated (readme_of q)
                                ∧ e ≠ EPrintFailed (readme_of q)
                                ∧ ∀ doc, e ≠ EWrite (readme_of q) doc) as Hopened.
      { intros e He. pose proof (analyze_entries_opened q es) as Ho.
        rewrite Ha in Ho. simpl in Ho. rewrite Ho in He.
        apply list_elem_of_fmap in He as (? & -> & _). done. }
      exists pi. split; [by rewrite Hpi|]. rewrite Ha. simpl.
      assert (entry_lookup "README.md" es = None) as Hentry.
      { rewrite (present_readme _ _ _ _ _ _ (stat_lookup _ _ _ Hdir)) in Hno.
        apply bool_decide_eq_false in Hno.
        destruct (entry_lookup "README.md" es); [destruct Hno; eauto|done]. }
      pose proof (write_text_new dev q "README.md"
                    (generate_readme_content info pi) fs _ _ _ Hdir Hentry) as Hnew.
      fold (PurePath.child q "README.md") in Hnew. fold (readme_of q) in Hnew.
      destruct (fault_in w (dev (readme_of q) (generate_readme_content info pi))).
      * destruct Hnew as [fs2 Hret]. destruct Hw as [[Hw ->]|[Hw _]]; [|congruence].
        apply write_text_returned in Hw as [_ Hstore].
        split_and!.
        -- apply elem_of_app. left. apply elem_of_app. right. left.
        -- apply elem_of_app. left. apply elem_of_app. right. right. left.
        -- intros [[He|He]%elem_of_app|He]%elem_of_app; [| |done].
           ++ by destruct (Hopened _ He) as (_ & ? & _).
           ++ set_unfold in He. by destruct He as [|[|[]]].
        -- eapply generate_file_frame; [done|done|by eapply store_target].
      * destruct Hw as [[Hw _]|[Hw ->]]; [congruence|].
        rewrite Hnew in Hw. injection Hw as <-.
        split_and!.
        -- apply elem_of_app. left. apply elem_of_app. right. left.
        -- intros [[He|He]%elem_of_app|He]%elem_of_app; [| |done].
           ++ by destruct (Hopened _ He) as (? & _).
           ++ set_unfold in He. by destruct He as [|[]].
        -- intros doc [[He|He]%elem_of_app|He]%elem_of_app; [| |by apply (Hw2 doc)].
           ++ destruct (Hopened _ He) as (_ & _ & Hd). by apply (Hd doc).
           ++ set_unfold in He. by destruct He as [|[]].
        -- by rewrite (generate_present_eq _ _ _ _ _ Hgen Hfresh).
      * destruct Hnew as (fs2 & Hraise & Hstore).
        destruct Hw as [[Hw _]|[Hw ->]]; [congruence|].
        rewrite Hraise in Hw. injection Hw as <-.
        split_and!.
        -- apply elem_of_app. left. apply elem_of_app. right. left.
        -- intros [[He|He]%elem_of_app|He]%elem_of_app; [| |done].
           ++ by destruct (Hopened _ He) as (? & _).
           ++ set_unfold in He. by destruct He as [|[]].
        -- intros doc [[He|He]%elem_of_app|He]%elem_of_app; [| |by apply (Hw2 doc)].
           ++ destruct (Hopened _ He) as (_ & _ & Hd). by apply (Hd doc).
           ++ set_unfold in He. by destruct He as [|[]].
        -- eapply generate_file_frame; [done|done|by eapply store_target].
    + (* a folder further down the queue *)
      assert (p ≠ q) as Hpq by (by intros ->).
      assert (readme_of p ≠ readme_of q) as Hne by (by intros ?%readme_of_inj).
      destruct (process_folder_stat_dir _ _ _ _ _ _ _ _ _ Hstep Hdir) as [es1 Hdir1].
      assert (es1 = es) as ->.
      { apply stat_lookup in Hdir1. apply stat_lookup in Hdir.
        rewrite (process_folder_lookup_frame _ _ _ _ p Hstep) in Hdir1; [congruence|].
        apply not_prefix_of_earlier_readme; [done| |].
        - intros ->. apply (Hq q); [left|by right].
        - rewrite Forall_forall in Hdepth. by apply Hdepth. }
      destruct (IH fs1 log2 es Hs Hnd) as (pi & Hpi & Hcases); try done.
      { intros q' Hq' Hin. apply (Hq q'); by right. }
      { pose proof (process_folder_kind _ _ _ _ _ Hstep Hne) as Hk.
        rewrite !present_kind in *. by rewrite Hk. }
      exists pi. split; [done|].
      assert (∀ e, e ∈ log1 → e ≠ EPrintCreated (readme_of p)
                              ∧ e ≠ EPrintFailed (readme_of p)
                              ∧ ∀ doc, e ≠ EWrite (readme_of p) doc) as Hlog1.
      { intros e He.
        destruct (process_folder_log _ _ _ _ _ Hstep He)
          as [(c & -> & _)|[[doc ->]|[-> | ->]]]; split_and!; try done;
          try (intros doc'); congruence. }
      assert (∀ e, e ∈ log2 → e ∈ log1 ++ log2) as Hin.
      { intros e He. apply elem_of_app. by right. }
      assert (EPrintCreated (readme_of p) ∉ log2
              → EPrintCreated (readme_of p) ∉ log1 ++ log2) as HnC.
      { intros Hn [He|He]%elem_of_app; [|done]. by destruct (Hlog1 _ He) as (? & _). }
      assert (EPrintFailed (readme_of p) ∉ log2
              → EPrintFailed (readme_of p) ∉ log1 ++ log2) as HnF.
      { intros Hn [He|He]%elem_of_app; [|done]. by destruct (Hlog1 _ He) as (_ & ? & _). }
      assert ((∀ doc, EWrite (readme_of p) doc ∉ log2)
              → ∀ doc, EWrite (readme_of p) doc ∉ log1 ++ log2) as HnW.
      { intros Hn doc [He|He]%elem_of_app; [|by apply (Hn doc)].
        destruct (Hlog1 _ He) as (_ & _ & Hd). by apply (Hd doc). }
      destruct (fault_in w _); destruct Hcases as (H1 & H2 & H3 & H4);
        split_and!; auto.
Qed.

End driver_facts.

(** ** The whole run *)

Section main_facts.

Context {dev : device}.

Implicit Types (fs : node) (p q f g : path) (log : list event).

(** A run that returns went through the discovery loop without exception
    and through the generation loop on the sorted queue; the rest of its
    log are messages of the driver. *)
Lemma main_generate fs fs' log :
  main dev fs = Returned fs' log →
  ∃ glog pre post,
    generate dev fs (sorted_by_depth (discover fs).1) = Returned fs' glog
    ∧ log = pre ++ glog ++ post
    ∧ (∀ e, e ∈ pre ++ post → is_driver_print e = true)
    ∧ discover_raised fs = None.
Proof.
  unfold main, main_between, discover, discover_raised.
  destruct (path_exists fs src_path) as [e|[]] eqn:Hsrc; [done| |].
  - pose proof (discover_log_prints fs) as Hprints. unfold discover in Hprints.
    destruct (discover_run fs) as [[queue log0] raised] eqn:Hd. simpl in *.
    destruct raised as [e|]; [done|].
    destruct (generate dev fs (sorted_by_depth queue)) as [fs2 glog|e fs2 glog]; [|done].
    intros [= <- <-].
    exists glog, ([EPrintGenerating] ++ log0 ++ [EPrintFound (length queue)]),
      [EPrintDone (length queue)].
    split_and!; [done|by rewrite <- !(assoc_L (++))| |done].
    intros e. rewrite !elem_of_app.
    intros [[He|[He|He]]|He].
    + by apply list_elem_of_singleton in He as ->.
    + by apply Hprints.
    + by apply list_elem_of_singleton in He as ->.
    + by apply list_elem_of_singleton in He as ->.
  - intros [= <- <-]. exists [], [EPrintMissingRoot], [].
    assert (discover_run fs = ([], [], None)) as ->.
    { unfold discover_run, walk_roots. unfold path_exists in Hsrc.
      by destruct (stat src_path fs). }
    split_and!; [done|done| |done].
    intros e He. by apply list_elem_of_singleton in He as ->.
Qed.

Lemma main_log_generation log glog pre post e :
  log = pre ++ glog ++ post →
  (∀ e, e ∈ pre ++ post → is_driver_print e = true) →
  is_driver_print e = false → e ∈ log ↔ e ∈ glog.
Proof.
  intros -> Hprints He. rewrite !elem_of_app. split; [|auto].
  intros [Hin|[Hin|Hin]]; [|done|].
  - rewrite Hprints in He; [done|]. apply elem_of_app. auto.
  - rewrite Hprints in He; [done|]. apply elem_of_app. auto.
Qed.

Lemma written_files_prints log :
  (∀ e, e ∈ log → is_driver_print e = true) → written_files log = [].
Proof.
  induction log as [|e log IH]; intros Hall; [done|].
  assert (written_files (e :: log) = written_files log) as ->.
  { assert (e ∈ e :: log) as He by left. specialize (Hall e He). by destruct e. }
  apply IH. intros e' He'. apply Hall. by right.
Qed.

Lemma main_written_files log glog pre post :
  log = pre ++ glog ++ post →
  (∀ e, e ∈ pre ++ post → is_driver_print e = true) →
  written_files log = written_files glog.
Proof.
  intros -> Hprints. unfold written_files. rewrite !omap_app.
  fold (written_files pre) (written_files post) (written_files glog).
  rewrite (written_files_prints pre), (written_files_prints post).
  - by rewrite app_nil_r.
  - intros e He. apply Hprints, elem_of_app. auto.
  - intros e He. apply Hprints, elem_of_app. auto.
Qed.

Lemma queue_NoDup fs : wf_node fs = true → NoDup (sorted_by_depth (discover fs).1).
Proof. intros Hwf. rewrite sorted_by_depth_Permutation. by apply discover_NoDup. Qed.

(** What is queued was yielded by the walk and holds no README. *)
Lemma queue_elem fs p :
  p ∈ sorted_by_depth (discover fs).1 →
  p ∈ walk_roots fs ∧ present fs (readme_of p) = false.
Proof.
  rewrite sorted_by_depth_Permutation. intros (? & ? & _)%discover_elem. done.
Qed.

Lemma elem_of_queue fs p :
  discover_raised fs = None →
  p ∈ sorted_by_depth (discover fs).1
  ↔ p ∈ walk_roots fs ∧ present fs (readme_of p) = false.
Proof. intros Hdone. rewrite sorted_by_depth_Permutation. by apply elem_of_discover. Qed.

(** A queued folder holds no README, so no queued folder is the README of
    another. *)
Lemma queue_no_readme_dirs fs q :
  wf_node fs = true →
  q ∈ sorted_by_depth (discover fs).1 → readme_of q ∉ sorted_by_depth (discover fs).1.
Proof.
  intros Hwf [_ Hno]%queue_elem [Hroot _]%queue_elem.
  destruct (walk_roots_listable _ _ Hwf Hroot) as (w & x & es & Hdir).
  unfold present in Hno. rewrite Hdir in Hno.
  apply bool_decide_eq_false in Hno. destruct Hno. eauto.
Qed.

(** On a well-formed tree, a run returns when [exists] returns for
    [src_path] and the discovery loop ends without exception: every queued
    folder can then be enumerated and searched. *)
Lemma main_returns fs b :
  wf_node fs = true → path_exists fs src_path = inr b → discover_raised fs = None →
  ∃ fs' log, main dev fs = Returned fs' log.
Proof.
  intros Hwf Hsrc Hdone. unfold main, main_between. rewrite Hsrc.
  destruct b; [|eauto].
  pose proof (discover_accessible fs) as Hacc. unfold discover_raised in Hdone.
  unfold discover in Hacc.
  destruct (discover_run fs) as [[queue log0] raised] eqn:Hd. simpl in *. subst raised.
  destruct (generate_returns (dev:=dev) fs (sorted_by_depth queue))
    as (fs' & log & ->); [|eauto].
  intros p Hp. apply Hacc; [done|]. by rewrite sorted_by_depth_Permutation in Hp.
Qed.

Lemma main_skip_logged fs fs' log p :
  main dev fs = Returned fs' log →
  p ∈ walk_roots fs → present fs (readme_of p) = true → EPrintExists p ∈ log.
Proof.
  intros Hmain Hroot Hreadme.
  destruct (main_generate _ _ _ Hmain) as (_ & _ & _ & _ & _ & _ & Hdone).
  revert Hmain. unfold main, main_between.
  destruct (path_exists fs src_path) as [e|[]] eqn:Hsrc; [done| |].
  - rewrite (discover_done _ Hdone).
    destruct (generate _ _ _); [|done]. intros [= _ <-].
    right. apply elem_of_app. left.
    apply list_elem_of_fmap. exists p. split; [done|]. by apply list_elem_of_filter.
  - unfold walk_roots in Hroot. unfold path_exists in Hsrc.
    destruct (stat src_path fs); [|done]. by apply elem_of_nil in Hroot.
Qed.

(** *** The rendered text *)

Lemma content_title info parent_info :
  ∃ rest, generate_readme_content info parent_info
          = title_line (fa_name info) +:+ PyStr.nl +:+ rest.
Proof.
  unfold generate_readme_content, readme_lines. cbn [app]. rewrite join_cons. eauto.
Qed.

Lemma content_tail info parent_info :
  ∃ body, generate_readme_content info parent_info
          = body +:+ PyStr.nl
            +:+ PyStr.join PyStr.nl (related_section parent_info ++ footer).
Proof.
  unfold generate_readme_content, readme_lines.
  rewrite !(assoc_L (++) _ _ (related_section parent_info ++ footer)).
  rewrite join_app; [eauto|done|by destruct parent_info].
Qed.

Lemma prefix_spec (s doc : string) :
  String.prefix s doc = true ↔ ∃ post, doc = s +:+ post.
Proof.
  revert doc. induction s as [|a s IH]; intros doc.
  - split; [intros _; by exists doc|]. intros _. by destruct doc.
  - destruct doc as [|b doc]; simpl.
    + split; [done|]. by intros [post ?].
    + destruct (Ascii.ascii_dec a b) as [->|Hne].
      * rewrite IH. split; intros [post Hpost]; exists post.
        -- by rewrite app_String, Hpost.
        -- rewrite app_String in Hpost. by injection Hpost.
      * split; [done|]. intros [post Hpost].
        rewrite app_String in Hpost. by injection Hpost.
Qed.

(** [occurs] decides whether a string occurs in another. *)
Lemma occurs_spec (s doc : string) :
  occurs s doc = true ↔ ∃ pre post, doc = pre +:+ s +:+ post.
Proof.
  induction doc as [|b doc IH].
  - change (occurs s EmptyString) with (String.prefix s EmptyString || false).
    rewrite orb_false_r, prefix_spec. split.
    + intros [post ->]. by exists EmptyString, post.
    + intros (pre & post & Hd). exists post.
      destruct pre; [done|]. by rewrite app_String in Hd.
  - change (occurs s (String b doc)) with (String.prefix s (String b doc) || occurs s doc).
    rewrite orb_true_iff, prefix_spec, IH. split.
    + intros [[post ->]|(pre & post & ->)].
      * by exists EmptyString, post.
      * by exists (String b pre), post.
    + intros (pre & post & Hd). destruct pre as [|a pre].
      * left. by exists post.
      * right. rewrite app_String in Hd. injection Hd as -> ->. eauto.
Qed.

End main_facts.

(** * The claims *)

(** ** The analysis and the rendered document *)

(** C10, as worded, fails in its last part: in [src/odd] the regular file
    called [.ts] has a name that ends with [.ts], so the renderer looks it
    up in the line-count map; its [Path.suffix] is empty, so the analyzer
    recorded no count for it and the lookup misses. *)
Lemma C10_bare_ts_name_has_no_count : ¬ C10_as_stated.
Proof.
  intros H.
  destruct (H bare_ts_project ["src"; "odd"]
              (analyze_entries ["src"; "odd"] bare_ts_entries).1
              (analyze_entries ["src"; "odd"] bare_ts_entries).2 ".ts") as [k Hk];
    [done|vm_compute; reflexivity|vm_compute; repeat constructor|done|].
  vm_compute in Hk. discriminate Hk.
Qed.

(** C10, amended: in every analysis produced by [analyze_folder], the
    line-count map has an entry for exactly the direct regular files whose
    [Path.suffix] is [.ts] or [.tsx]; the entry is the number of lines
    read, and [0] when the read fails.  For a file of the folder whose name
    ends with [.ts], the renderer's test [file in line_counts] holds and
    the file gets the line with its count, unless the file is called
    [.ts]: that name has no suffix, the map has no entry for it, the test
    fails and the file gets the line without count. *)
Theorem C10_line_counts_keys fs p r w x es info opened :
  wf_node fs = true →
  lookup_path p fs = Some (Dir r w x es) →
  analyze_folder fs p = inr (info, opened) →
  (∀ f, is_Some (line_counts info !! f) ↔
        ∃ t, (f, File t) ∈ es ∧ (PurePath.suffix f = ".ts" ∨ PurePath.suffix f = ".tsx"))
  ∧ (∀ f s, (f, File (Some s)) ∈ es →
        PurePath.suffix f = ".ts" ∨ PurePath.suffix f = ".tsx" →
        line_counts info !! f = Some (PyStr.readlines_len s))
  ∧ (∀ f, (f, File None) ∈ es →
        PurePath.suffix f = ".ts" ∨ PurePath.suffix f = ".tsx" →
        line_counts info !! f = Some 0)
  ∧ (∀ f, f ∈ files info → PyStr.endswith f ".ts" = true →
        (f ≠ ".ts" →
           ∃ k, line_counts info !! f = Some k
                ∧ key_file_lines info f = [counted_file_line f k])
        ∧ (f = ".ts" →
           line_counts info !! f = None
           ∧ key_file_lines info f = [plain_file_line f])).
Proof.
  intros Hwf Hp Ha.
  pose proof (wf_entries_NoDup _ _ _ _ _ _ Hwf Hp) as Hnd.
  apply analyze_folder_inr in Ha as (w' & x' & es' & Hp'%stat_lookup & Ha).
  rewrite Hp in Hp'. injection Hp' as -> <- <- <-.
  assert (∀ f, line_counts info !! f = tracked_count f es) as Hlc.
  { intros f. rewrite <- (analyze_entries_line_counts p es f Hnd). by rewrite Ha. }
  assert (∀ f t, (f, File t) ∈ es →
            PurePath.suffix f = ".ts" ∨ PurePath.suffix f = ".tsx" →
            line_counts info !! f = Some (try_count_lines t)) as Hval.
  { intros f t Hin Hs. rewrite Hlc. unfold tracked_count.
    rewrite (entry_lookup_NoDup _ _ _ Hnd Hin).
    rewrite bool_decide_eq_true_2; [done|].
    unfold typescript_suffixes. destruct Hs as [-> | ->]; repeat constructor. }
  split_and!.
  - intros f. split.
    + rewrite Hlc. unfold tracked_count. intros [k Hk].
      destruct (entry_lookup f es) as [[t|]|] eqn:Hf; try done.
      exists t. split; [by apply entry_lookup_elem|].
      destruct (bool_decide _) eqn:Hs; [|done].
      apply bool_decide_eq_true in Hs. unfold typescript_suffixes in Hs.
      set_unfold in Hs. tauto.
    + intros (t & Hin & Hs). rewrite (Hval f t); eauto.
  - intros f s Hin Hs. by rewrite (Hval f (Some s)).
  - intros f Hin Hs. by rewrite (Hval f None).
  - intros f Hf Hts.
    assert (files info = map fst (filter (λ e, is_file (snd e)) es)) as Hfiles.
    { rewrite <- (analyze_entries_files p es). by rewrite Ha. }
    rewrite Hfiles in Hf. apply list_elem_of_fmap in Hf as ([f' n] & -> & Hin).
    apply list_elem_of_filter in Hin as [Hfile Hin]. simpl in *.
    destruct n as [t|]; [|done]. split.
    + intros Hne. pose proof (suffix_of_ts_name _ Hts Hne) as Hs.
      exists (try_count_lines t). pose proof (Hval f' t Hin (or_introl Hs)) as Hk.
      split; [done|]. unfold key_file_lines. rewrite Hts.
      rewrite bool_decide_eq_true_2 by (rewrite Hk; eauto). simpl.
      by rewrite (lookup_total_correct _ _ _ Hk).
    + intros ->.
      assert (line_counts info !! ".ts" = None) as Hk.
      { rewrite Hlc. unfold tracked_count.
        by rewrite (entry_lookup_NoDup _ _ _ Hnd Hin). }
      split; [done|]. unfold key_file_lines.
      rewrite bool_decide_eq_false_2 by (rewrite Hk; by intros [? ?]).
      done.
Qed.

(** The document depends on the analysis through the folder name, the
    line counts and the files and subfolders up to their order. *)
Lemma readme_lines_ext info info' parent_info :
  fa_name info = fa_name info' →
  line_counts info = line_counts info' →
  files info ≡ₚ files info' →
  subfolders info ≡ₚ subfolders info' →
  readme_lines info parent_info = readme_lines info' parent_info.
Proof.
  intros Hname Hlc Hfiles Hsubs. unfold readme_lines. rewrite Hname.
  assert (key_files_section info = key_files_section info') as ->.
  { unfold key_files_section. rewrite (sorted_unique _ _ Hfiles).
    destruct (files info) as [|f fs], (files info') as [|f' fs']; try done.
    - by apply Permutation_nil_cons in Hfiles.
    - symmetry in Hfiles. by apply Permutation_nil_cons in Hfiles.
    - do 3 f_equal. apply map_ext. intros g. by apply key_file_lines_ext. }
  assert (subfolders_section info = subfolders_section info') as ->.
  { unfold subfolders_section. rewrite (sorted_unique _ _ Hsubs).
    destruct (subfolders info) as [|f fs], (subfolders info') as [|f' fs']; try done.
    - by apply Permutation_nil_cons in Hsubs.
    - symmetry in Hsubs. by apply Permutation_nil_cons in Hsubs. }
  done.
Qed.

(** C8: in the Key Files and in the Subfolders section of the document
    rendered for a folder, the entries are those of a list of names in
    strictly increasing lexicographic order; and the document is the same
    for every order in which the folder's entries are enumerated. *)
Theorem C8_sections_in_lexicographic_order p es es' parent_info :
  NoDup (map fst es) →
  es ≡ₚ es' →
  let info := (analyze_entries p es).1 in
  (key_files_section info = [] ∨
   ∃ listed entries,
     StronglySorted name_lt listed ∧ listed ⊆ files info
     ∧ Forall2 key_file_entry listed entries
     ∧ key_files_section info = key_files_heading :: entries ++ [EmptyString])
  ∧ (subfolders_section info = [] ∨
     ∃ listed,
       StronglySorted name_lt listed ∧ listed ≡ₚ subfolders info
       ∧ subfolders_section info
         = subfolders_heading :: map subfolder_line listed ++ [EmptyString])
  ∧ generate_readme_content (analyze_entries p es').1 parent_info
    = generate_readme_content info parent_info.
Proof.
  intros Hnd Hperm info. split_and!.
  - unfold key_files_section. destruct (files info) as [|f0 fs0] eqn:Hfiles; [by left|].
    right. rewrite <- Hfiles.
    assert (NoDup (files info)) as Hfnd.
    { unfold info. rewrite analyze_entries_files. by apply files_NoDup. }
    destruct (key_file_entries_sorted info name_lt (sorted (files info)))
      as (listed & Hs & Hsub & Hall); [by apply sorted_strict|].
    exists listed, (concat (map (key_file_lines info) (sorted (files info)))).
    split_and!; [done| |done|done].
    intros f Hf. rewrite <- (sorted_Permutation (files info)). auto.
  - unfold subfolders_section.
    destruct (subfolders info) as [|d0 ds0] eqn:Hsubs; [by left|].
    right. rewrite <- Hsubs. exists (sorted (subfolders info)).
    split_and!; [|apply sorted_Permutation|done].
    apply sorted_strict. unfold info. rewrite analyze_entries_subfolders.
    by apply subfolders_NoDup.
  - unfold generate_readme_content, info. f_equal. apply readme_lines_ext.
    + by rewrite !analyze_entries_name.
    + apply map_eq. intros f.
      assert (NoDup (map fst es')) as Hnd' by by rewrite <- Hperm.
      rewrite !analyze_entries_line_counts by done. unfold tracked_count.
      by rewrite (entry_lookup_Permutation es es').
    + rewrite !analyze_entries_files. by rewrite Hperm.
    + rewrite !analyze_entries_subfolders. by rewrite Hperm.
Qed.

(** A [.ts] file made of [k] newline-terminated lines is recorded with [k]
    lines, and its entry in the Key Files section displays [k]. *)
Lemma ts_line_count_displayed p es f ls :
  NoDup (map fst es) →
  (f, File (Some (terminated_lines ls))) ∈ es →
  Forall (λ l, plain_line l = true) ls →
  PurePath.suffix f = ".ts" →
  let info := (analyze_entries p es).1 in
  line_counts info !! f = Some (length ls)
  ∧ counted_file_line f (length ls) ∈ key_files_section info.
Proof.
  intros Hnd Hin Hls Hs info.
  assert (line_counts info !! f = Some (length ls)) as Hk.
  { unfold info. rewrite analyze_entries_line_counts by done. unfold tracked_count.
    rewrite (entry_lookup_NoDup _ _ _ Hnd Hin).
    rewrite bool_decide_eq_true_2 by (rewrite Hs; repeat constructor).
    simpl. by rewrite readlines_len_terminated. }
  split; [done|].
  assert (f ∈ files info) as Hf.
  { unfold info. rewrite analyze_entries_files.
    apply list_elem_of_fmap. exists (f, File (Some (terminated_lines ls))).
    split; [done|]. by apply list_elem_of_filter. }
  unfold key_files_section. destruct (files info) as [|f0 fs0] eqn:Hfiles.
  { by apply elem_of_nil in Hf. }
  rewrite <- Hfiles in *. right. apply elem_of_app. left.
  apply list_elem_of_In, in_concat. exists (key_file_lines info f). split.
  - apply in_map, list_elem_of_In. by rewrite sorted_Permutation.
  - unfold key_file_lines.
    assert (PyStr.endswith f ".ts" = true) as ->.
    { rewrite <- Hs. apply suffix_endswith. by rewrite Hs. }
    rewrite bool_decide_eq_true_2 by (rewrite Hk; eauto). simpl.
    rewrite (lookup_total_correct _ _ _ Hk). by left.
Qed.

(** C5 (the code departs from it): a folder holding [view.jsx], [App.tsx]
    and [main.ts].  The analyzer records all three files and classifies
    [App.tsx] as typed source and [view.jsx] as script, but the Key Files
    section lists [main.ts] only: the renderer tests [endswith('.ts')] and
    [endswith(('.ts', '.js', '.json', '.md'))], which no [.tsx] or [.jsx]
    name passes. *)
Theorem C5_tsx_and_jsx_files_are_not_listed :
  let info := (analyze_entries ["src"; "ui"] Examples.ui_entries).1 in
  files info = ["view.jsx"; "App.tsx"; "main.ts"]
  ∧ has_typescript info = true
  ∧ has_javascript info = true
  ∧ key_file_lines info "App.tsx" = []
  ∧ key_file_lines info "view.jsx" = []
  ∧ key_files_section info
    = ["## 📄 Key Files"; "- `main.ts` - (1 lines) [Description]"; EmptyString].
Proof. vm_compute. by repeat split. Qed.

(** C6 (the code departs from it): [App.tsx] has exactly two
    newline-terminated lines and the analyzer records the count 2 for it,
    but the renderer emits no line for [App.tsx]: the Key Files section
    consists of the heading, the entry of [main.ts] and the closing blank
    line, so the count of [App.tsx] is displayed nowhere. *)
Theorem C6_tsx_line_count_is_not_displayed :
  let info := (analyze_entries ["src"; "ui"] Examples.ui_entries).1 in
  entry_lookup "App.tsx" Examples.ui_entries
  = Some (File (Some (terminated_lines ["import View"; "export default App"])))
  ∧ PurePath.suffix "App.tsx" = ".tsx"
  ∧ line_counts info !! "App.tsx" = Some 2
  ∧ key_file_lines info "App.tsx" = []
  ∧ key_files_section info
    = [key_files_heading; counted_file_line "main.ts" 1; EmptyString].
Proof. vm_compute. by repeat split. Qed.

(** ** The run *)

(** C1, as worded, fails: [src/Agent] is queued and gets a README, whose
    title line carries the default purpose ["Agent Module"]; the lookup in
    the purpose table is by the exact name, so the entry of ["agent"] is not
    used. *)
Lemma C1_lookup_is_case_sensitive : ¬ C1_as_stated.
Proof.
  intros H.
  destruct (H Examples.cased_project
              (final_fs (main reliable_device Examples.cased_project))
              (final_log (main reliable_device Examples.cased_project))
              ["src"; "Agent"])
    as (doc & rest & Hlook & Hdoc);
    [done|vm_compute; reflexivity|vm_compute; repeat constructor|done|].
  vm_compute in Hlook. injection Hlook as <-.
  vm_compute in Hdoc. discriminate Hdoc.
Qed.

(** C1, amended: for every folder queued at discovery whose name is
    ASCII and whose write succeeds, the run writes exactly one file for it,
    [<folder>/README.md]; when the run ends the file holds the rendered
    document, which starts with the line [# 📁 <name>/ - <purpose>], where
    [<purpose>] is the entry of the purpose table for the folder name
    itself (an exact, case-sensitive lookup) or ["<Titlecased name> Module"]
    when there is none. *)
Theorem C1_title_line_of_created_readme dev fs fs' log p :
  wf_node fs = true →
  main dev fs = Returned fs' log →
  p ∈ (discover fs).1 →
  PyStr.is_ascii (PurePath.name p) = true →
  EPrintCreated (readme_of p) ∈ log →
  ∃ doc rest,
    lookup_path (readme_of p) fs' = Some (File (Some doc))
    ∧ doc = "# 📁 " +:+ PurePath.name p +:+ "/ - "
            +:+ default (PyStr.title (PurePath.name p) +:+ " Module")
                        (purpose_map !! PurePath.name p)
            +:+ PyStr.nl +:+ rest
    ∧ readme_of p ∈ written_files log
    ∧ NoDup (written_files log).
Proof.
  intros Hwf Hmain Hp _ Hcreated.
  destruct (main_generate _ _ _ Hmain)
    as (glog & pre & post & Hgen & Hlog & Hprints & _).
  pose proof (queue_NoDup fs Hwf) as Hnd.
  apply (main_log_generation log glog pre post (EPrintCreated _) Hlog Hprints eq_refl)
    in Hcreated.
  destruct (generate_created _ _ _ _ _ Hgen Hcreated) as [doc Hdoc].
  destruct (generate_write_event _ _ _ _ _ _ Hnd Hgen Hdoc)
    as (q & info & pi & Hq & ->%readme_of_inj & Hname & -> & Hlook).
  destruct (content_title info pi) as [rest Hrest].
  exists (generate_readme_content info pi), rest. split_and!.
  - done.
  - rewrite Hrest, Hname. unfold title_line, purpose.
    by rewrite !app_assoc_str.
  - rewrite (main_written_files log glog pre post Hlog Hprints).
    apply list_elem_of_omap. by exists (EWrite (readme_of q) (generate_readme_content info pi)).
  - rewrite (main_written_files log glog pre post Hlog Hprints).
    eapply sublist_NoDup; [|by eapply generate_written].
    by apply (NoDup_fmap_2 _).
Qed.

(** C2: a folder that holds [README.md] at discovery is skipped: it is not
    queued (and the skip is logged when the walk visits it), and this
    whatever the README holds; during the run its README is neither opened
    nor written, and a README file keeps its content.  No write of the run
    overwrites a file: every written path did not exist when the run
    started, and no path is written twice. *)
Theorem C2_existing_readme_is_left_alone dev fs fs' log p :
  wf_node fs = true →
  main dev fs = Returned fs' log →
  present fs (readme_of p) = true →
  (p ∉ (discover fs).1)
  ∧ (p ∈ walk_roots fs → EPrintExists p ∈ log)
  ∧ (EOpen (readme_of p) ∉ log)
  ∧ (∀ doc, EWrite (readme_of p) doc ∉ log)
  ∧ (∀ t, lookup_path (readme_of p) fs = Some (File t) →
          lookup_path (readme_of p) fs' = Some (File t))
  ∧ (∀ f doc, EWrite f doc ∈ log → present fs f = false)
  ∧ NoDup (written_files log).
Proof.
  intros Hwf Hmain Hreadme.
  destruct (main_generate _ _ _ Hmain)
    as (glog & pre & post & Hgen & Hlog & Hprints & Hdone).
  assert (p ∉ sorted_by_depth (discover fs).1) as Hnotin.
  { intros [_ Hp]%queue_elem. congruence. }
  assert (readme_of p ∉ map readme_of (sorted_by_depth (discover fs).1)) as Hnotin'.
  { intros (q & ->%readme_of_inj & Hq)%list_elem_of_fmap. done. }
  split_and!.
  - intros (_ & Hp & _)%discover_elem. congruence.
  - intros Hroot. by apply (main_skip_logged (dev:=dev) fs fs').
  - rewrite (main_log_generation log glog pre post (EOpen _) Hlog Hprints eq_refl).
    intros He. destruct (generate_log _ _ _ _ _ Hgen He) as (q & _ & Hcases).
    destruct Hcases as [(c & [= Hc] & Hs)|[[doc [=]]|[[=]|[=]]]].
    unfold readme_of, PurePath.child in Hc.
    apply app_inj_tail in Hc as [_ <-]. vm_compute in Hs.
    set_unfold in Hs. by destruct Hs as [|[|[]]].
  - intros doc.
    rewrite (main_log_generation log glog pre post (EWrite _ _) Hlog Hprints eq_refl).
    intros He. destruct (generate_log _ _ _ _ _ Hgen He) as (q & Hq & Hcases).
    destruct Hcases as [(c & [=] & _)|[[doc' [= ->%readme_of_inj _]]|[[=]|[=]]]]. done.
  - intros t. by apply (generate_file_frame _ _ _ _ _ _ Hgen).
  - intros f doc.
    rewrite (main_log_generation log glog pre post (EWrite _ _) Hlog Hprints eq_refl).
    intros He. destruct (generate_log _ _ _ _ _ Hgen He) as (q & Hq & Hcases).
    destruct Hcases as [(c & [=] & _)|[[doc' [= -> _]]|[[=]|[=]]]].
    by apply queue_elem in Hq as [_ ?].
  - rewrite (main_written_files log glog pre post Hlog Hprints).
    eapply sublist_NoDup; [|by eapply generate_written].
    apply (NoDup_fmap_2 _). by apply queue_NoDup.
Qed.


(** C4, as worded, fails in both halves.  In [src/agent/tools], the README
    of [src] is written before the document of [src/agent], which has no
    link: the driver supplies no parent summary when the parent is
    [src_path].  In [src/locked/child], no README can be created in
    [locked], and the document of [child] still carries the Related
    Documentation heading: only the link line depends on the parent. *)
Lemma C4_fails_as_stated : ¬ C4_link_as_stated ∧ ¬ C4_omission_as_stated.
Proof.
  split.
  - intros H.
    pose (log := final_log (main reliable_device Examples.agent_project)).
    specialize (H Examples.agent_project
                  (final_fs (main reliable_device Examples.agent_project)) log
                  ["src"; "agent"]
                  (written_doc (readme_of ["src"; "agent"]) log)
                  (written_doc (readme_of ["src"]) log)
                  (take 2 log) (drop 3 log)).
    assert (occurs (parent_link_line (PurePath.name (PurePath.parent ["src"; "agent"])))
              (written_doc (readme_of ["src"; "agent"]) log) = false) as Hno
      by (vm_compute; reflexivity).
    rewrite H in Hno; [done|done|vm_compute; reflexivity|vm_compute; reflexivity|].
    vm_compute. repeat constructor.
  - intros H.
    pose (log := final_log (main reliable_device Examples.locked_project)).
    specialize (H Examples.locked_project
                  (final_fs (main reliable_device Examples.locked_project)) log
                  ["src"; "locked"; "child"]
                  (written_doc (readme_of ["src"; "locked"; "child"]) log)).
    assert (occurs related_heading
              (written_doc (readme_of ["src"; "locked"; "child"]) log) = true) as Hyes
      by (vm_compute; reflexivity).
    rewrite H in Hyes; [done|done|vm_compute; reflexivity| |vm_compute; reflexivity].
    vm_compute. repeat constructor.
Qed.

(** C4, amended: every document written by a run ends with the Related
    Documentation heading, then the link line [- See `../README.md` for
    <parent> overview] exactly when the folder's parent is neither
    [src_path] nor the project root and holds a README when the run ends
    (one that existed before, or one created earlier in the run), then the
    closing notice.  The heading is there in either case. *)
Theorem C4_parent_link_of_written_document dev fs fs' log c doc :
  main dev fs = Returned fs' log →
  EWrite (readme_of c) doc ∈ log →
  ∃ body,
    doc = body +:+ PyStr.nl +:+ related_heading +:+ PyStr.nl
          +:+ (if bool_decide (PurePath.parent c ≠ src_path
                               ∧ PurePath.parent c ≠ project_root)
                  && present fs' (readme_of (PurePath.parent c))
               then parent_link_line (PurePath.name (PurePath.parent c)) +:+ PyStr.nl
               else EmptyString)
          +:+ footer_text.
Proof.
  intros Hmain Hdoc.
  destruct (main_generate _ _ _ Hmain)
    as (glog & pre & post & Hgen & Hlog & Hprints & _).
  apply (main_log_generation log glog pre post (EWrite _ _) Hlog Hprints eq_refl) in Hdoc.
  destruct (generate_parent_info _ _ _ _ _ _ (sorted_by_depth_sorted _) Hgen Hdoc)
    as (info & pi & _ & Hpi%parent_info_of_inr & ->).
  destruct (content_tail info pi) as [body ->].
  exists body. do 2 f_equal. subst pi.
  destruct (bool_decide _); simpl; [|done].
  destruct (present fs' _); simpl; [|done].
  by rewrite app_assoc_str.
Qed.

(** When the analysis of a queued folder raises, the exception leaves the
    generation loop at once: nothing is logged for the folder and the rest
    of the queue is not processed. *)
Lemma generate_escapes dev fs p queue e :
  analyze_folder fs p = inl e → generate dev fs (p :: queue) = Escaped e fs [].
Proof. intros Ha. simpl. unfold process_folder. by rewrite Ha. Qed.

(** C7 (the code departs from it): discovery queues [src/a] and [src/b];
    before the generation loop starts, [src/a] loses its read permission.
    When the loop reaches [src/a], [analyze_folder] raises
    [PermissionError]; the call is outside the [try] of the loop body, so
    the exception escapes the driver: no failure is reported, and [src/b],
    which the loop handles without error when it comes to it, is left
    without a README. *)
Theorem C7_unreadable_queued_folder_aborts_the_run :
  let fs := Examples.unreadable_project in
  (discover Examples.two_folders_project).1 = [["src"; "a"]; ["src"; "b"]]
  ∧ analyze_folder fs ["src"; "a"] = inl PermissionError
  ∧ generate reliable_device fs [["src"; "a"]; ["src"; "b"]]
    = Escaped PermissionError fs []
  ∧ main_between reliable_device Examples.two_folders_project fs
    = Escaped PermissionError fs [EPrintGenerating; EPrintExists ["src"]; EPrintFound 2]
  ∧ present fs (readme_of ["src"; "b"]) = false
  ∧ present (final_fs (generate reliable_device fs [["src"; "b"]]))
      (readme_of ["src"; "b"]) = true
  ∧ final_log (generate reliable_device fs [["src"; "b"]])
    = [ EWrite (readme_of ["src"; "b"])
          (written_doc (readme_of ["src"; "b"])
             (final_log (generate reliable_device fs [["src"; "b"]])));
        EPrintCreated (readme_of ["src"; "b"]) ].
Proof. vm_compute. by repeat split. Qed.

(** The walk does not yield a directory that cannot be enumerated, so
    such a directory is never queued by a run on an unchanging tree. *)
Example walk_skips_unreadable :
  (discover Examples.unreadable_project).1 = [["src"; "b"]].
Proof. reflexivity. Qed.

(** C9, as worded, fails in both halves.  [src/vault/.git] is not queued:
    [src/vault] cannot be enumerated, so the walk does not descend into
    it.  [src/node_modules] is queued, but no file can be created in it:
    the write fails, the failure is reported, and the directory holds no
    README when the run ends. *)
Lemma C9_fails_as_stated : ¬ C9_queued_as_stated ∧ ¬ C9_documented_as_stated.
Proof.
  split.
  - intros H.
    assert (["src"; "vault"; ".git"] ∈ (discover Examples.hidden_git_project).1) as Hin.
    { apply (H _ _ true true true []); try (vm_compute; reflexivity).
      - by exists ["vault"; ".git"].
      - vm_compute. repeat constructor. }
    vm_compute in Hin.
    apply elem_of_cons in Hin as [[=]|Hin]. by apply elem_of_nil in Hin.
  - intros H.
    specialize (H Examples.readonly_deps_project
                  (final_fs (main reliable_device Examples.readonly_deps_project))
                  (final_log (main reliable_device Examples.readonly_deps_project))
                  ["src"; "node_modules"] true false true []).
    assert (present (final_fs (main reliable_device Examples.readonly_deps_project))
              (readme_of ["src"; "node_modules"]) = false) as Hno
      by (vm_compute; reflexivity).
    rewrite H in Hno; try done; try (vm_compute; reflexivity).
    + by exists ["node_modules"].
    + vm_compute. repeat constructor.
Qed.

(** C9, amended: the names [node_modules], [.git] and [__pycache__] are
    excluded where the analyzer lists the subfolders of a parent, and
    nowhere else.  In a run that returns, a directory with such a name
    that the walk reaches and that holds no README is queued, whatever its
    permissions, and the run renders for it, from its listing, a document
    that starts with its title line.  What becomes of the document is decided by the write
    permission of the directory and by the device: either it is written,
    the creation is reported and the README holds it when the run ends; or
    the file cannot be created, the failure is reported and the directory
    is left without README; or the file is created and the write fails
    then, the failure is reported and the README is left with the part of
    the document that was written, possibly empty. *)
Theorem C9_excluded_names_are_walked_and_documented dev fs fs' log p r w x es :
  wf_node fs = true →
  main dev fs = Returned fs' log →
  reached_by_walk fs p →
  PurePath.name p ∈ excluded_dirs →
  lookup_path p fs = Some (Dir r w x es) →
  present fs (readme_of p) = false →
  p ∈ (discover fs).1
  ∧ (∀ info opened,
       analyze_folder fs (PurePath.parent p) = inr (info, opened) →
       PurePath.name p ∉ subfolders info)
  ∧ ∃ parent_info doc rest,
      parent_info_of fs' p = inr parent_info
      ∧ doc = generate_readme_content (analyze_entries p es).1 parent_info
      ∧ doc = title_line (PurePath.name p) +:+ PyStr.nl +:+ rest
      ∧ match fault_in w (dev (readme_of p) doc) with
        | NoFault =>
            EWrite (readme_of p) doc ∈ log
            ∧ EPrintCreated (readme_of p) ∈ log
            ∧ (EPrintFailed (readme_of p) ∉ log)
            ∧ lookup_path (readme_of p) fs' = Some (File (Some doc))
        | OpenFault =>
            EPrintFailed (readme_of p) ∈ log
            ∧ (EPrintCreated (readme_of p) ∉ log)
            ∧ present fs' (readme_of p) = false
        | WriteFault k =>
            EPrintFailed (readme_of p) ∈ log
            ∧ (EPrintCreated (readme_of p) ∉ log)
            ∧ lookup_path (readme_of p) fs'
              = Some (File (Some (String.substring 0 k doc)))
        end.
Proof.
  intros Hwf Hmain Hreach Hname Hdir Hno.
  destruct (main_generate _ _ _ Hmain)
    as (glog & pre & post & Hgen & Hlog & Hprints & Hdone).
  pose proof (reached_by_walk_roots _ _ Hreach) as Hroot.
  assert (p ∈ (discover fs).1) as Hq by (by apply elem_of_discover).
  assert (p ∈ sorted_by_depth (discover fs).1) as Hq'
    by by rewrite sorted_by_depth_Permutation.
  split_and!; [done| |].
  - intros info opened (w' & x' & es' & _ & Ha)%analyze_folder_inr Hin.
    pose proof (analyze_entries_subfolders (PurePath.parent p) es') as Hsubs.
    rewrite Ha in Hsubs. simpl in Hsubs. rewrite Hsubs in Hin.
    apply list_elem_of_fmap in Hin as ([d n] & Hd & Hin). simpl in Hd. subst d.
    apply list_elem_of_filter in Hin as [Hlisted _].
    unfold listed_subfolder in Hlisted. simpl in Hlisted.
    apply andb_prop_elim in Hlisted as [_ Hlisted].
    by apply bool_decide_unpack in Hlisted.
  - destruct (walk_roots_accessible _ _ Hwf Hdone Hroot) as (w' & es' & Hstat).
    pose proof (stat_lookup _ _ _ Hstat) as Hdir'. rewrite Hdir in Hdir'.
    injection Hdir' as -> -> -> ->.
    destruct (generate_outcome _ _ _ _ _ _ _ _ (sorted_by_depth_sorted _)
                (queue_NoDup fs Hwf) (λ q, queue_no_readme_dirs fs q Hwf)
                Hgen Hq' Hstat Hno) as (pi & Hpi & Hcases).
    set (info := (analyze_entries p es').1) in *.
    destruct (content_title info pi) as [rest Hrest].
    exists pi, (generate_readme_content info pi), rest. split_and!; [done..| |].
    { rewrite Hrest. unfold info. by rewrite analyze_entries_name. }
    assert (∀ e, is_driver_print e = false → e ∈ log ↔ e ∈ glog) as Hiff.
    { intros e. by apply (main_log_generation log glog pre post e Hlog Hprints). }
    destruct (fault_in w' _); destruct Hcases as (H1 & H2 & H3 & H4);
      rewrite ?(Hiff (EWrite _ _) eq_refl), ?(Hiff (EPrintCreated _) eq_refl),
        ?(Hiff (EPrintFailed _) eq_refl); by split_and!.
Qed.

(** * The theorems at work on the sample trees *)

Local Ltac compute_eq := vm_compute; reflexivity.
Local Ltac compute_elem := vm_compute; repeat constructor.

Lemma C1_witness :
  wf_node Examples.agent_project = true
  ∧ ["src"; "agent"] ∈ (discover Examples.agent_project).1
  ∧ PyStr.is_ascii (PurePath.name ["src"; "agent"]) = true
  ∧ EPrintCreated (readme_of ["src"; "agent"]) ∈ final_log agent_run
  ∧ ∃ doc rest,
      lookup_path (readme_of ["src"; "agent"]) (final_fs agent_run)
      = Some (File (Some doc))
      ∧ doc = "# 📁 " +:+ PurePath.name ["src"; "agent"] +:+ "/ - "
              +:+ default (PyStr.title (PurePath.name ["src"; "agent"]) +:+ " Module")
                          (purpose_map !! PurePath.name ["src"; "agent"])
              +:+ PyStr.nl +:+ rest
      ∧ readme_of ["src"; "agent"] ∈ written_files (final_log agent_run)
      ∧ NoDup (written_files (final_log agent_run)).
Proof.
  assert (wf_node Examples.agent_project = true) as H1 by compute_eq.
  assert (main reliable_device Examples.agent_project
          = Returned (final_fs agent_run) (final_log agent_run)) as H2 by compute_eq.
  assert (["src"; "agent"] ∈ (discover Examples.agent_project).1) as H3 by compute_elem.
  assert (PyStr.is_ascii (PurePath.name ["src"; "agent"]) = true) as Ha by compute_eq.
  assert (EPrintCreated (readme_of ["src"; "agent"]) ∈ final_log agent_run) as H4
    by compute_elem.
  refine (conj H1 (conj H3 (conj Ha (conj H4 _)))).
  exact (C1_title_line_of_created_readme _ _ _ _ _ H1 H2 H3 Ha H4).
Defined.

Lemma C2_witness :
  wf_node Examples.deps_project = true
  ∧ present Examples.deps_project (readme_of ["src"]) = true
  ∧ (["src"] ∉ (discover Examples.deps_project).1)
  ∧ (["src"] ∈ walk_roots Examples.deps_project → EPrintExists ["src"] ∈ final_log deps_run)
  ∧ (EOpen (readme_of ["src"]) ∉ final_log deps_run)
  ∧ (∀ doc, EWrite (readme_of ["src"]) doc ∉ final_log deps_run)
  ∧ (∀ t, lookup_path (readme_of ["src"]) Examples.deps_project = Some (File t) →
          lookup_path (readme_of ["src"]) (final_fs deps_run) = Some (File t))
  ∧ (∀ f doc, EWrite f doc ∈ final_log deps_run →
              present Examples.deps_project f = false)
  ∧ NoDup (written_files (final_log deps_run)).
Proof.
  assert (wf_node Examples.deps_project = true) as H1 by compute_eq.
  assert (main reliable_device Examples.deps_project
          = Returned (final_fs deps_run) (final_log deps_run)) as H2 by compute_eq.
  assert (present Examples.deps_project (readme_of ["src"]) = true) as H3
    by compute_eq.
  refine (conj H1 (conj H3 _)).
  exact (C2_existing_readme_is_left_alone _ _ _ _ _ H1 H2 H3).
Defined.


Lemma C4_witness :
  EWrite (readme_of ["src"; "agent"; "tools"])
         (written_doc (readme_of ["src"; "agent"; "tools"]) (final_log agent_run))
  ∈ final_log agent_run
  ∧ ∃ body,
      written_doc (readme_of ["src"; "agent"; "tools"]) (final_log agent_run)
      = body +:+ PyStr.nl +:+ related_heading +:+ PyStr.nl
        +:+ (if bool_decide (PurePath.parent ["src"; "agent"; "tools"] ≠ src_path
                             ∧ PurePath.parent ["src"; "agent"; "tools"] ≠ project_root)
                && present (final_fs agent_run)
                     (readme_of (PurePath.parent ["src"; "agent"; "tools"]))
             then parent_link_line (PurePath.name (PurePath.parent ["src"; "agent"; "tools"]))
                  +:+ PyStr.nl
             else EmptyString)
        +:+ footer_text.
Proof.
  assert (main reliable_device Examples.agent_project
          = Returned (final_fs agent_run) (final_log agent_run)) as H1 by compute_eq.
  assert (EWrite (readme_of ["src"; "agent"; "tools"])
            (written_doc (readme_of ["src"; "agent"; "tools"]) (final_log agent_run))
          ∈ final_log agent_run) as H2 by compute_elem.
  split; [done|].
  exact (C4_parent_link_of_written_document _ _ _ _ _ _ H1 H2).
Defined.

Lemma C8_witness :
  NoDup (map fst Examples.agent_entries)
  ∧ Examples.agent_entries ≡ₚ reverse Examples.agent_entries
  ∧ (key_files_section (analyze_entries ["src"; "agent"] Examples.agent_entries).1 = [] ∨
     ∃ listed entries,
       StronglySorted name_lt listed
       ∧ listed ⊆ files (analyze_entries ["src"; "agent"] Examples.agent_entries).1
       ∧ Forall2 key_file_entry listed entries
       ∧ key_files_section (analyze_entries ["src"; "agent"] Examples.agent_entries).1
         = key_files_heading :: entries ++ [EmptyString])
  ∧ (subfolders_section (analyze_entries ["src"; "agent"] Examples.agent_entries).1 = [] ∨
     ∃ listed,
       StronglySorted name_lt listed
       ∧ listed ≡ₚ subfolders (analyze_entries ["src"; "agent"] Examples.agent_entries).1
       ∧ subfolders_section (analyze_entries ["src"; "agent"] Examples.agent_entries).1
         = subfolders_heading :: map subfolder_line listed ++ [EmptyString])
  ∧ generate_readme_content
      (analyze_entries ["src"; "agent"] (reverse Examples.agent_entries)).1 None
    = generate_readme_content
        (analyze_entries ["src"; "agent"] Examples.agent_entries).1 None.
Proof.
  assert (NoDup (map fst Examples.agent_entries)) as H1.
  { apply (bool_decide_unpack _). vm_compute. exact I. }
  assert (Examples.agent_entries ≡ₚ reverse Examples.agent_entries) as H2.
  { symmetry. apply reverse_Permutation. }
  split; [done|]. split; [done|].
  exact (C8_sections_in_lexicographic_order ["src"; "agent"] _ _ None H1 H2).
Defined.

Lemma C9_witness :
  wf_node Examples.deps_project = true
  ∧ reached_by_walk Examples.deps_project ["src"; "node_modules"]
  ∧ PurePath.name ["src"; "node_modules"] ∈ excluded_dirs
  ∧ present Examples.deps_project (readme_of ["src"; "node_modules"]) = false
  ∧ ["src"; "node_modules"] ∈ (discover Examples.deps_project).1
  ∧ (∀ info opened,
       analyze_folder Examples.deps_project (PurePath.parent ["src"; "node_modules"])
       = inr (info, opened) →
       PurePath.name ["src"; "node_modules"] ∉ subfolders info)
  ∧ ∃ parent_info doc rest,
      parent_info_of (final_fs deps_run) ["src"; "node_modules"] = inr parent_info
      ∧ doc = generate_readme_content
                (analyze_entries ["src"; "node_modules"]
                   [("left-pad", Dir true true true [])]).1 parent_info
      ∧ doc = title_line (PurePath.name ["src"; "node_modules"]) +:+ PyStr.nl +:+ rest
      ∧ match fault_in true (reliable_device (readme_of ["src"; "node_modules"]) doc) with
        | NoFault =>
            EWrite (readme_of ["src"; "node_modules"]) doc ∈ final_log deps_run
            ∧ EPrintCreated (readme_of ["src"; "node_modules"]) ∈ final_log deps_run
            ∧ (EPrintFailed (readme_of ["src"; "node_modules"]) ∉ final_log deps_run)
            ∧ lookup_path (readme_of ["src"; "node_modules"]) (final_fs deps_run)
              = Some (File (Some doc))
        | OpenFault =>
            EPrintFailed (readme_of ["src"; "node_modules"]) ∈ final_log deps_run
            ∧ (EPrintCreated (readme_of ["src"; "node_modules"]) ∉ final_log deps_run)
            ∧ present (final_fs deps_run) (readme_of ["src"; "node_modules"]) = false
        | WriteFault k =>
            EPrintFailed (readme_of ["src"; "node_modules"]) ∈ final_log deps_run
            ∧ (EPrintCreated (readme_of ["src"; "node_modules"]) ∉ final_log deps_run)
            ∧ lookup_path (readme_of ["src"; "node_modules"]) (final_fs deps_run)
              = Some (File (Some (String.substring 0 k doc)))
        end.
Proof.
  assert (wf_node Examples.deps_project = true) as H1 by compute_eq.
  assert (main reliable_device Examples.deps_project
          = Returned (final_fs deps_run) (final_log deps_run)) as H2 by compute_eq.
  assert (reached_by_walk Examples.deps_project ["src"; "node_modules"]) as H3.
  { exists ["node_modules"], Examples.deps_src. by split_and!. }
  assert (PurePath.name ["src"; "node_modules"] ∈ excluded_dirs) as H4 by compute_elem.
  assert (lookup_path ["src"; "node_modules"] Examples.deps_project
          = Some (Dir true true true [("left-pad", Dir true true true [])])) as H5
    by compute_eq.
  assert (present Examples.deps_project (readme_of ["src"; "node_modules"]) = false)
    as H6 by compute_eq.
  refine (conj H1 (conj H3 (conj H4 (conj H6 _)))).
  exact (C9_excluded_names_are_walked_and_documented
           reliable_device _ _ _ _ _ _ _ _ H1 H2 H3 H4 H5 H6).
Defined.

Lemma C10_witness :
  wf_node bare_ts_project = true
  ∧ lookup_path ["src"; "odd"] bare_ts_project
    = Some (Dir true true true bare_ts_entries)
  ∧ analyze_folder bare_ts_project ["src"; "odd"]
    = inr (analyze_entries ["src"; "odd"] bare_ts_entries)
  ∧ (∀ f, is_Some (line_counts (analyze_entries ["src"; "odd"] bare_ts_entries).1 !! f) ↔
          ∃ t, (f, File t) ∈ bare_ts_entries
               ∧ (PurePath.suffix f = ".ts" ∨ PurePath.suffix f = ".tsx"))
  ∧ (∀ f s, (f, File (Some s)) ∈ bare_ts_entries →
          PurePath.suffix f = ".ts" ∨ PurePath.suffix f = ".tsx" →
          line_counts (analyze_entries ["src"; "odd"] bare_ts_entries).1 !! f
          = Some (PyStr.readlines_len s))
  ∧ (∀ f, (f, File None) ∈ bare_ts_entries →
          PurePath.suffix f = ".ts" ∨ PurePath.suffix f = ".tsx" →
          line_counts (analyze_entries ["src"; "odd"] bare_ts_entries).1 !! f = Some 0)
  ∧ (∀ f, f ∈ files (analyze_entries ["src"; "odd"] bare_ts_entries).1 →
          PyStr.endswith f ".ts" = true →
          (f ≠ ".ts" →
             ∃ k, line_counts (analyze_entries ["src"; "odd"] bare_ts_entries).1 !! f
                  = Some k
                  ∧ key_file_lines (analyze_entries ["src"; "odd"] bare_ts_entries).1 f
                    = [counted_file_line f k])
          ∧ (f = ".ts" →
             line_counts (analyze_entries ["src"; "odd"] bare_ts_entries).1 !! f = None
             ∧ key_file_lines (analyze_entries ["src"; "odd"] bare_ts_entries).1 f
               = [plain_file_line f])).
Proof.
  assert (wf_node bare_ts_project = true) as H1 by compute_eq.
  assert (lookup_path ["src"; "odd"] bare_ts_project
          = Some (Dir true true true bare_ts_entries)) as H2 by reflexivity.
  assert (analyze_folder bare_ts_project ["src"; "odd"]
          = inr ((analyze_entries ["src"; "odd"] bare_ts_entries).1,
                 (analyze_entries ["src"; "odd"] bare_ts_entries).2)) as H3
    by compute_eq.
  assert (analyze_folder bare_ts_project ["src"; "odd"]
          = inr (analyze_entries ["src"; "odd"] bare_ts_entries)) as H4 by compute_eq.
  refine (conj H1 (conj H2 (conj H4 _))).
  exact (C10_line_counts_keys _ _ _ _ _ _ _ _ H1 H2 H3).
Defined.

(** * Further properties of the code *)

(** ** analyze_folder *)

Lemma analyze_fold_path p es st :
  fa_path (fold_left (analyze_item p) es st).1 = fa_path st.1.
Proof.
  revert st. induction es as [|[k n] es IH]; intros [info ev]; [done|].
  simpl. rewrite IH. unfold analyze_item.
  destruct n; repeat (destruct (bool_decide _)); done.
Qed.

(** The suffix tests of lines 31-45 exclude one another. *)
Lemma suffix_tests_exclusive (s : string) :
  (s ∈ typescript_suffixes → (s ∉ javascript_suffixes) ∧ s ≠ ".json" ∧ s ≠ ".md")
  ∧ (s ∈ javascript_suffixes → s ≠ ".json" ∧ s ≠ ".md")
  ∧ (s = ".json" → s ≠ ".md").
Proof.
  unfold typescript_suffixes, javascript_suffixes. split_and!.
  - intros Hs. set_unfold in Hs.
    destruct Hs as [-> |[-> |[]]]; split_and!; try done;
      intros H; set_unfold in H; by destruct H as [|[|[]]].
  - intros Hs. set_unfold in Hs. by destruct Hs as [-> |[-> |[]]].
  - by intros ->.
Qed.

Lemma analyze_fold_flags p es st :
  has_typescript (fold_left (analyze_item p) es st).1
  = has_typescript st.1 || has_suffix_in typescript_suffixes es
  ∧ has_javascript (fold_left (analyze_item p) es st).1
    = has_javascript st.1 || has_suffix_in javascript_suffixes es
  ∧ has_json (fold_left (analyze_item p) es st).1
    = has_json st.1 || has_suffix_in [".json"] es
  ∧ has_markdown (fold_left (analyze_item p) es st).1
    = has_markdown st.1 || has_suffix_in [".md"] es.
Proof.
  revert st. induction es as [|[k n] es IH]; intros [info ev].
  { simpl. by rewrite !orb_false_r. }
  cbn [fold_left].
  destruct (IH (analyze_item p (info, ev) (k, n))) as (E1 & E2 & E3 & E4).
  rewrite E1, E2, E3, E4. clear IH E1 E2 E3 E4.
  unfold analyze_item. destruct n as [t|r w x es0]; simpl.
  2: { by destruct (bool_decide (k ∉ excluded_dirs)). }
  destruct (suffix_tests_exclusive (PurePath.suffix k)) as (Hts & Hjs & Hjson).
  assert (∀ s, bool_decide (PurePath.suffix k ∈ [s]) = bool_decide (PurePath.suffix k = s))
    as Hone.
  { intros s. apply bool_decide_ext. set_unfold. tauto. }
  rewrite !Hone.
  destruct (bool_decide (PurePath.suffix k ∈ typescript_suffixes)) eqn:H1.
  { apply bool_decide_eq_true in H1. destruct (Hts H1) as (H2 & H3 & H4).
    rewrite (bool_decide_eq_false_2 _ H2), (bool_decide_eq_false_2 _ H3),
      (bool_decide_eq_false_2 _ H4). simpl. by rewrite !orb_true_r. }
  destruct (bool_decide (PurePath.suffix k ∈ javascript_suffixes)) eqn:H2.
  { apply bool_decide_eq_true in H2. destruct (Hjs H2) as (H3 & H4).
    rewrite (bool_decide_eq_false_2 _ H3), (bool_decide_eq_false_2 _ H4).
    simpl. by rewrite !orb_true_r. }
  destruct (bool_decide (PurePath.suffix k = ".json")) eqn:H3.
  { apply bool_decide_eq_true in H3. pose proof (Hjson H3) as H4.
    rewrite (bool_decide_eq_false_2 _ H4). simpl. by rewrite !orb_true_r. }
  destruct (bool_decide (PurePath.suffix k = ".md")) eqn:H4; simpl;
    by rewrite ?orb_true_r.
Qed.

Lemma has_suffix_in_spec sufs es :
  has_suffix_in sufs es = true
  ↔ ∃ f t, (f, File t) ∈ es ∧ PurePath.suffix f ∈ sufs.
Proof.
  unfold has_suffix_in. rewrite existsb_exists. split.
  - intros ([f n] & Hin%list_elem_of_In & [Hfile Hs]%andb_true_iff). simpl in *.
    destruct n as [t|]; [|done]. apply bool_decide_eq_true in Hs. eauto.
  - intros (f & t & Hin & Hs). exists (f, File t).
    split; [by apply list_elem_of_In|]. simpl. by apply bool_decide_eq_true_2.
Qed.

(** X1: the four flags of an analysis tell which kinds of files the folder
    holds directly: [has_typescript] exactly when some regular file has the
    suffix [.ts] or [.tsx], [has_javascript] for [.js] or [.jsx],
    [has_json] for [.json], [has_markdown] for [.md]; a file sets at most
    one flag, and directories set none. *)
Theorem X1_flags_tell_the_suffixes_present fs p r w x es info opened :
  lookup_path p fs = Some (Dir r w x es) →
  analyze_folder fs p = inr (info, opened) →
  (has_typescript info = true ↔
     ∃ f t, (f, File t) ∈ es ∧ (PurePath.suffix f = ".ts" ∨ PurePath.suffix f = ".tsx"))
  ∧ (has_javascript info = true ↔
     ∃ f t, (f, File t) ∈ es ∧ (PurePath.suffix f = ".js" ∨ PurePath.suffix f = ".jsx"))
  ∧ (has_json info = true ↔ ∃ f t, (f, File t) ∈ es ∧ PurePath.suffix f = ".json")
  ∧ (has_markdown info = true ↔ ∃ f t, (f, File t) ∈ es ∧ PurePath.suffix f = ".md").
Proof.
  intros Hp (w' & x' & es' & Hp'%stat_lookup & Ha)%analyze_folder_inr.
  rewrite Hp in Hp'. injection Hp' as -> <- <- <-.
  destruct (analyze_fold_flags p es (empty_info p, [])) as (Hts & Hjs & Hjson & Hmd).
  fold (analyze_entries p es) in Hts, Hjs, Hjson, Hmd. rewrite Ha in *. simpl in *.
  rewrite Hts, Hjs, Hjson, Hmd, !has_suffix_in_spec.
  unfold typescript_suffixes, javascript_suffixes.
  split_and!; (split; intros (f & t & Hin & Hs); exists f, t; (split; [done|]));
    set_unfold; tauto.
Qed.

(** X2: an analysis names its folder and lists, in the order of
    enumeration, every regular file of the folder under [files], whatever
    its suffix, and under [subfolders] every directory whose name is not
    [node_modules], [.git] or [__pycache__]; nothing below the direct
    entries is looked at. *)
Theorem X2_analysis_lists_the_direct_entries fs p r w x es info opened :
  lookup_path p fs = Some (Dir r w x es) →
  analyze_folder fs p = inr (info, opened) →
  fa_path info = p
  ∧ fa_name info = PurePath.name p
  ∧ files info = map fst (filter (λ e, is_file (snd e)) es)
  ∧ subfolders info
    = map fst (filter (λ e, is_dir (snd e) ∧ fst e ∉ excluded_dirs) es)
  ∧ opened
    = map (λ e, EOpen (PurePath.child p (fst e)))
        (filter (λ e, is_file (snd e)
                      ∧ (PurePath.suffix (fst e) = ".ts" ∨ PurePath.suffix (fst e) = ".tsx"))
                es).
Proof.
  intros Hp (w' & x' & es' & Hp'%stat_lookup & Ha)%analyze_folder_inr.
  rewrite Hp in Hp'. injection Hp' as -> <- <- <-.
  pose proof (analyze_entries_files p es) as Hfiles.
  pose proof (analyze_entries_subfolders p es) as Hsubs.
  pose proof (analyze_entries_name p es) as Hname.
  pose proof (analyze_entries_opened p es) as Hopened.
  pose proof (analyze_fold_path p es (empty_info p, [])) as Hpath.
  fold (analyze_entries p es) in Hpath. rewrite Ha in *. simpl in *.
  split_and!; try done.
  - rewrite Hsubs. f_equal. apply list_filter_iff. intros [k n]. unfold listed_subfolder.
    simpl. rewrite andb_True, bool_decide_spec. done.
  - rewrite Hopened. f_equal. apply list_filter_iff. intros [k n]. unfold tracked_file.
    simpl. rewrite andb_True, bool_decide_spec. unfold typescript_suffixes.
    set_unfold. tauto.
Qed.

(** ** generate_readme_content *)

Lemma purpose_map_keys name v :
  purpose_map !! name = Some v → PyStr.lower name = name.
Proof.
  unfold purpose_map. intros H%elem_of_list_to_map_2.
  repeat (apply elem_of_cons in H as [[= -> _]|H]; [reflexivity|]).
  by apply elem_of_nil in H.
Qed.

(** X3: every key of the purpose table is in lower case, and the lookup is
    by the exact name, so an ASCII folder name that is not all in lower
    case gets the default purpose, its titlecased name followed by
    ["Module"]. *)
Theorem X3_name_with_capitals_gets_default_purpose (folder_name : string) :
  PyStr.is_ascii folder_name = true →
  PyStr.lower folder_name ≠ folder_name →
  purpose folder_name = PyStr.title folder_name +:+ " Module".
Proof.
  intros _ Hlow. unfold purpose.
  destruct (purpose_map !! folder_name) as [v|] eqn:Hv; [|done].
  by apply purpose_map_keys in Hv.
Qed.

Lemma app_same_length_inj (pre pre' a b : string) :
  pre +:+ a = pre' +:+ b → String.length a = String.length b → a = b.
Proof.
  intros Heq Hlen.
  assert (String.length pre = String.length pre') as Hpre.
  { apply (f_equal String.length) in Heq. rewrite !length_app_str in Heq. lia. }
  rewrite <- (drop_app_length pre a), <- (drop_app_length pre' b). by rewrite Heq, Hpre.
Qed.

(** X4: a file whose suffix is [.js], [.json] or [.md] gets the placeholder
    line [- `<file>` - [Description]] in the Key Files section, whatever
    the analysis holds. *)
Theorem X4_script_data_and_doc_files_get_the_plain_line info f :
  PurePath.suffix f = ".js" ∨ PurePath.suffix f = ".json" ∨ PurePath.suffix f = ".md" →
  key_file_lines info f = [plain_file_line f].
Proof.
  intros Hs.
  assert (PurePath.suffix f ≠ EmptyString) as Hne by (by destruct Hs as [-> |[-> | ->]]).
  pose proof (suffix_endswith f Hne) as Hends.
  assert (PyStr.endswith f ".ts" = false) as Hts.
  { destruct (PyStr.endswith f ".ts") eqn:He; [|done].
    destruct Hs as [Hs|Hs].
    - rewrite Hs in Hends. apply endswith_inv in Hends as [pre Hpre].
      apply endswith_inv in He as [pre' Hpre']. rewrite Hpre in Hpre'.
      by apply app_same_length_inj in Hpre'.
    - apply endswith_last_char in He; [|done].
      apply endswith_last_char in Hends; [|done]. rewrite He in Hends.
      by destruct Hs as [Hs|Hs]; rewrite Hs in Hends. }
  unfold key_file_lines, PyStr.endswith_any. rewrite Hts. cbn [andb existsb orb].
  destruct Hs as [Hs|[Hs|Hs]]; rewrite Hs in Hends; rewrite Hends;
    by rewrite ?orb_true_r.
Qed.

(** X5: the document of a folder has the Key Files section exactly when
    the folder holds a regular file, even one that gets no entry, and the
    Subfolders section exactly when it holds a directory whose name is not
    excluded; a section that is there starts with its heading and ends
    with a blank line. *)
Theorem X5_sections_follow_the_listing p es :
  let info := (analyze_entries p es).1 in
  (key_files_section info = [] ↔ ∀ f n, (f, n) ∈ es → is_file n = false)
  ∧ (subfolders_section info = [] ↔ ∀ d n, (d, n) ∈ es → is_dir n = true → d ∈ excluded_dirs)
  ∧ (key_files_section info ≠ [] →
     ∃ entries, key_files_section info = key_files_heading :: entries ++ [EmptyString])
  ∧ (subfolders_section info ≠ [] →
     ∃ entries, subfolders_section info = subfolders_heading :: entries ++ [EmptyString]).
Proof.
  intros info.
  assert (files info = [] ↔ ∀ f n, (f, n) ∈ es → is_file n = false) as Hfiles.
  { unfold info. rewrite analyze_entries_files. split.
    - intros Hnil f n Hin. destruct (is_file n) eqn:Hn; [|done].
      assert (f ∈ map fst (filter (λ e, is_file (snd e)) es)) as Hf.
      { apply list_elem_of_fmap. exists (f, n). split; [done|].
        apply list_elem_of_filter. split; [by simpl; rewrite Hn|done]. }
      rewrite Hnil in Hf. by apply elem_of_nil in Hf.
    - intros Hall. destruct (filter _ es) as [|[f n] l] eqn:Hfilter; [done|].
      assert ((f, n) ∈ filter (λ e, is_file (snd e)) es) as Hin by (rewrite Hfilter; left).
      apply list_elem_of_filter in Hin as [Hfile Hin]. simpl in Hfile.
      by rewrite (Hall f n Hin) in Hfile. }
  assert (subfolders info = [] ↔
          ∀ d n, (d, n) ∈ es → is_dir n = true → d ∈ excluded_dirs) as Hsubs.
  { unfold info. rewrite analyze_entries_subfolders. split.
    - intros Hnil d n Hin Hdir. destruct (decide (d ∈ excluded_dirs)) as [|Hd]; [done|].
      assert (d ∈ map fst (filter (λ e, listed_subfolder e) es)) as Hf.
      { apply list_elem_of_fmap. exists (d, n). split; [done|].
        apply list_elem_of_filter. split; [|done]. unfold listed_subfolder. simpl.
        rewrite Hdir. simpl. by apply bool_decide_pack. }
      rewrite Hnil in Hf. by apply elem_of_nil in Hf.
    - intros Hall. destruct (filter _ es) as [|[d n] l] eqn:Hfilter; [done|].
      assert ((d, n) ∈ filter (λ e, listed_subfolder e) es) as Hin by (rewrite Hfilter; left).
      apply list_elem_of_filter in Hin as [Hlisted Hin]. unfold listed_subfolder in Hlisted.
      simpl in Hlisted. apply andb_prop_elim in Hlisted as [Hdir Hd].
      apply bool_decide_unpack in Hd. destruct Hd. apply (Hall d n Hin).
      by apply Is_true_true. }
  split_and!.
  - rewrite <- Hfiles. unfold key_files_section. by destruct (files info).
  - rewrite <- Hsubs. unfold subfolders_section. by destruct (subfolders info).
  - unfold key_files_section. destruct (files info); [done|]. intros _. eauto.
  - unfold subfolders_section. destruct (subfolders info); [done|]. intros _. eauto.
Qed.

(** ** Counting lines *)

Lemma count_lines_plain_end b l :
  plain_line l = true → l ≠ EmptyString → PyStr.count_lines b l = 1.
Proof.
  revert b. induction l as [|c l IH]; intros b Hl Hne; [done|].
  simpl in Hl. apply andb_true_iff in Hl as [Hc Hl].
  apply andb_true_iff in Hc as [H10 H13]. simpl.
  destruct (Ascii.eqb c _); [done|]. destruct (Ascii.eqb c _); [done|].
  destruct l as [|c' l]; [done|]. by apply IH.
Qed.

(** X6: the line count of a readable file counts a last line that has no
    newline: a text of [k] newline-terminated lines followed by a
    non-empty unterminated line counts [k + 1] lines, and the empty text
    counts none, like a file that cannot be read. *)
Theorem X6_unterminated_last_line_is_counted (ls : list string) (l : string) :
  Forall (λ l, plain_line l = true) ls →
  plain_line l = true →
  l ≠ EmptyString →
  try_count_lines (Some (terminated_lines ls +:+ l)) = S (length ls)
  ∧ try_count_lines (Some (terminated_lines ls)) = length ls
  ∧ try_count_lines (Some EmptyString) = try_count_lines None.
Proof.
  intros Hls Hl Hne. split_and!; [|by apply readlines_len_terminated|done].
  simpl. unfold PyStr.readlines_len. generalize false.
  induction Hls as [|l0 ls Hl0 _ IH]; intros b.
  - unfold terminated_lines. simpl. rewrite app_Empty. by apply count_lines_plain_end.
  - rewrite terminated_lines_cons, !app_assoc_str, count_lines_plain by done.
    simpl. by rewrite IH.
Qed.

(** ** The generation loop, once more *)




Lemma elem_of_reported log f :
  f ∈ reported log ↔ EPrintCreated f ∈ log ∨ EPrintFailed f ∈ log.
Proof.
  unfold reported. rewrite list_elem_of_omap. split.
  - intros (e & He & Hf). destruct e; simplify_eq; auto.
  - intros [H|H]; eexists; (split; [exact H|done]).
Qed.

(** ** main *)


(** X7: when [src] is missing, is a regular file, or cannot be enumerated,
    the run queues nothing and leaves the tree as it is: it prints its
    messages and neither opens nor writes a file.  It returns, unless the
    project root cannot be searched: then the first call of [exists]
    raises [PermissionError], which leaves the driver. *)
Theorem X7_root_that_cannot_be_walked_changes_nothing dev fs :
  (∀ w x es, lookup_path src_path fs ≠ Some (Dir true w x es)) →
  (discover fs).1 = []
  ∧ ∃ log,
      (∀ e, e ∈ log → is_driver_print e = true)
      ∧ main dev fs = match fs with
                      | Dir _ _ false _ => Escaped PermissionError fs log
                      | _ => Returned fs log
                      end.
Proof.
  intros Hsrc.
  assert (walk_roots fs = []) as Hroots.
  { unfold walk_roots. destruct (stat src_path fs) as [e|[t|[] w x es]] eqn:Hn;
      try done. apply stat_lookup in Hn. by destruct (Hsrc w x es). }
  assert (discover_run fs = ([], [], None)) as Hd
    by (unfold discover_run; by rewrite Hroots).
  split; [unfold discover; by rewrite Hd|].
  unfold main, main_between. rewrite Hd. unfold path_exists. simpl.
  destruct fs as [t|r w [] es]; simpl.
  - eexists. split; [|done]. intros e He. by apply list_elem_of_singleton in He as ->.
  - change src_path with ["src"]. simpl.
    destruct (entry_lookup "src" es); eexists; (split; [|done]); intros e He.
    + repeat (apply elem_of_cons in He as [->|He]; [done|]). by apply elem_of_nil in He.
    + by apply list_elem_of_singleton in He as ->.
  - exists []. split; [|done]. by intros e ?%elem_of_nil.
Qed.

(** X8: a run opens only regular files of the tree whose suffix is [.ts]
    or [.tsx] and that lie directly in a folder queued at discovery; the
    files of a folder that has its README, and files of any other suffix,
    are never opened. *)
Theorem X8_only_typed_sources_of_queued_folders_are_opened dev fs fs' log f :
  wf_node fs = true →
  main dev fs = Returned fs' log →
  EOpen f ∈ log →
  ∃ p c t,
    f = PurePath.child p c
    ∧ p ∈ (discover fs).1
    ∧ lookup_path f fs = Some (File t)
    ∧ (PurePath.suffix c = ".ts" ∨ PurePath.suffix c = ".tsx").
Proof.
  intros Hwf Hmain Hopen.
  destruct (main_generate _ _ _ Hmain)
    as (glog & pre & post & Hgen & Hlog & Hprints & _).
  apply (main_log_generation log glog pre post (EOpen _) Hlog Hprints eq_refl) in Hopen.
  destruct (generate_events_from_initial_listing _ _ _ _ _
              (sorted_by_depth_sorted _) (queue_NoDup fs Hwf)
              (λ q, queue_no_readme_dirs fs q Hwf) Hgen Hopen)
    as (p & w & x & es & pi & Hp & Hdir & _ & [He|[[=]|[[=]|[=]]]]).
  rewrite analyze_entries_opened in He.
  apply list_elem_of_fmap in He as ([c n] & [= ->] & Hin).
  apply list_elem_of_filter in Hin as [Htracked Hin].
  unfold tracked_file in Htracked. simpl in *.
  apply andb_prop_elim in Htracked as [Hfile Hs]. apply bool_decide_unpack in Hs.
  destruct n as [t|]; [|done]. exists p, c, t. split_and!; [done| | |].
  - by rewrite sorted_by_depth_Permutation in Hp.
  - unfold PurePath.child. rewrite lookup_path_app, Hdir. simpl.
    by rewrite (entry_lookup_NoDup _ _ _ (wf_entries_NoDup _ _ _ _ _ _ Hwf Hdir) Hin).
  - unfold typescript_suffixes in Hs. set_unfold in Hs. tauto.
Qed.



Lemma insert_by_depth_filter (d : nat) p l :
  filter (λ q, PurePath.depth q = d) (insert_by_depth p l)
  = filter (λ q, PurePath.depth q = d) (p :: l).
Proof.
  induction l as [|q l IH]; simpl; [done|].
  destruct (PurePath.depth p <=? PurePath.depth q) eqn:Hpq; [done|].
  apply Nat.leb_gt in Hpq. rewrite !filter_cons, IH, !filter_cons.
  repeat case_decide; try done; lia.
Qed.

(** X10: the queue is processed in ascending depth, and folders of the
    same depth in the order in which the walk found them: the sort keeps
    all the folders, orders them by depth, and leaves the order within
    every depth as it was. *)
Theorem X10_sorted_by_depth_is_a_stable_sort (l : list path) :
  sorted_by_depth l ≡ₚ l
  ∧ StronglySorted (λ p q, PurePath.depth p ≤ PurePath.depth q) (sorted_by_depth l)
  ∧ ∀ d, filter (λ p, PurePath.depth p = d) (sorted_by_depth l)
         = filter (λ p, PurePath.depth p = d) l.
Proof.
  split_and!.
  - apply sorted_by_depth_Permutation.
  - apply sorted_by_depth_sorted.
  - intros d. induction l as [|p l IH]; [done|]. simpl.
    by rewrite insert_by_depth_filter, !filter_cons, IH.
Qed.
(** X11: a run only adds README files to queued folders: every regular
    file of the tree keeps its content, every directory stays a directory
    with its permissions, the walk yields the same folders afterwards, and
    a path that exists after the run existed before it or is the README of
    a queued folder. *)
Theorem X11_run_only_adds_readmes dev fs fs' log :
  main dev fs = Returned fs' log →
  (∀ g t, lookup_path g fs = Some (File t) → lookup_path g fs' = Some (File t))
  ∧ (∀ g r w x es, lookup_path g fs = Some (Dir r w x es) →
                   ∃ es', lookup_path g fs' = Some (Dir r w x es'))
  ∧ walk_roots fs' = walk_roots fs
  ∧ (∀ g, present fs' g = true →
          present fs g = true ∨ ∃ p, p ∈ (discover fs).1 ∧ g = readme_of p).
Proof.
  intros Hmain.
  destruct (main_generate _ _ _ Hmain)
    as (glog & pre & post & Hgen & Hlog & Hprints & _).
  split_and!.
  - intros g t Hg. apply (generate_file_frame _ _ _ _ _ _ Hgen); [|done].
    intros (q & -> & [_ Hq]%queue_elem)%list_elem_of_fmap.
    unfold present in Hq. rewrite Hg in Hq.
    apply bool_decide_eq_false in Hq. destruct Hq. eauto.
  - intros g r w x es. by apply (generate_dir_frame _ _ _ _ _ _ _ _ _ Hgen).
  - by apply (generate_walk_roots _ _ _ _ Hgen).
  - intros g Hg.
    destruct (decide (g ∈ map readme_of (sorted_by_depth (discover fs).1))) as [Hin|Hout].
    + right. apply list_elem_of_fmap in Hin as (p & -> & Hp).
      exists p. split; [|done]. by rewrite sorted_by_depth_Permutation in Hp.
    + left. by rewrite <- (generate_present_eq _ _ _ _ _ Hgen Hout).
Qed.

(** X12: every README that a run writes is the rendering of its folder as
    the folder was when the run started (the analysis of its listing at
    that time), with the parent summary decided by the READMEs present when
    the run ends; and it is what the file holds when the run ends. *)
Theorem X12_written_readme_renders_the_initial_folder dev fs fs' log p doc :
  wf_node fs = true →
  main dev fs = Returned fs' log →
  EWrite (readme_of p) doc ∈ log →
  ∃ w x es parent_info,
    lookup_path p fs = Some (Dir true w x es)
    ∧ parent_info_of fs' p = inr parent_info
    ∧ doc = generate_readme_content (analyze_entries p es).1 parent_info
    ∧ lookup_path (readme_of p) fs' = Some (File (Some doc)).
Proof.
  intros Hwf Hmain Hdoc.
  destruct (main_generate _ _ _ Hmain)
    as (glog & pre & post & Hgen & Hlog & Hprints & _).
  apply (main_log_generation log glog pre post (EWrite _ _) Hlog Hprints eq_refl) in Hdoc.
  destruct (generate_write_event _ _ _ _ _ _ (queue_NoDup fs Hwf) Hgen Hdoc)
    as (_ & _ & _ & _ & _ & _ & _ & Hfinal).
  destruct (generate_events_from_initial_listing _ _ _ _ _
              (sorted_by_depth_sorted _) (queue_NoDup fs Hwf)
              (λ q, queue_no_readme_dirs fs q Hwf) Hgen Hdoc)
    as (q & w & x & es & pi & Hq & Hdir & Hpi
        & [He|[[= Hpq%readme_of_inj ->]|[[=]|[=]]]]).
  - rewrite analyze_entries_opened in He.
    by apply list_elem_of_fmap in He as (? & [=] & _).
  - subst q. exists w, x, es, pi. eauto.
Qed.

(** What becomes of a queued folder in a run that returns, by the fault
    that the write of its README meets. *)
Lemma main_outcome dev fs fs' log p :
  wf_node fs = true →
  main dev fs = Returned fs' log →
  p ∈ (discover fs).1 →
  ∃ w es parent_info,
    lookup_path p fs = Some (Dir true w true es)
    ∧ parent_info_of fs' p = inr parent_info
    ∧ match fault_in w (dev (readme_of p)
                          (generate_readme_content (analyze_entries p es).1
                             parent_info)) with
      | NoFault =>
          EPrintCreated (readme_of p) ∈ log
          ∧ (EPrintFailed (readme_of p) ∉ log)
          ∧ EWrite (readme_of p)
              (generate_readme_content (analyze_entries p es).1 parent_info) ∈ log
          ∧ lookup_path (readme_of p) fs'
            = Some (File (Some (generate_readme_content (analyze_entries p es).1
                                  parent_info)))
      | OpenFault =>
          EPrintFailed (readme_of p) ∈ log
          ∧ (EPrintCreated (readme_of p) ∉ log)
          ∧ (∀ doc, EWrite (readme_of p) doc ∉ log)
          ∧ present fs' (readme_of p) = false
      | WriteFault k =>
          EPrintFailed (readme_of p) ∈ log
          ∧ (EPrintCreated (readme_of p) ∉ log)
          ∧ (∀ doc, EWrite (readme_of p) doc ∉ log)
          ∧ lookup_path (readme_of p) fs'
            = Some (File (Some (String.substring 0 k
                                  (generate_readme_content (analyze_entries p es).1
                                     parent_info))))
      end.
Proof.
  intros Hwf Hmain Hp.
  destruct (main_generate _ _ _ Hmain)
    as (glog & pre & post & Hgen & Hlog & Hprints & Hdone).
  assert (p ∈ sorted_by_depth (discover fs).1) as Hq
    by by rewrite sorted_by_depth_Permutation.
  pose proof Hp as (_ & Hno & _)%discover_elem.
  destruct (discover_accessible _ _ Hwf Hp) as (w & es & Hstat).
  destruct (generate_outcome _ _ _ _ _ _ _ _ (sorted_by_depth_sorted _)
              (queue_NoDup fs Hwf) (λ q, queue_no_readme_dirs fs q Hwf)
              Hgen Hq Hstat Hno) as (pi & Hpi & Hcases).
  exists w, es, pi. split_and!; [by apply stat_lookup|done|].
  assert (∀ e, is_driver_print e = false → e ∈ log ↔ e ∈ glog) as Hiff.
  { intros e. by apply (main_log_generation log glog pre post e Hlog Hprints). }
  destruct (fault_in w _); destruct Hcases as (H1 & H2 & H3 & H4).
  - rewrite !(Hiff (EPrintCreated _) eq_refl), !(Hiff (EPrintFailed _) eq_refl),
      !(Hiff (EWrite _ _) eq_refl). done.
  - rewrite !(Hiff (EPrintCreated _) eq_refl), !(Hiff (EPrintFailed _) eq_refl).
    split_and!; [done..| |done]. intros doc. by rewrite (Hiff (EWrite _ _) eq_refl).
  - rewrite !(Hiff (EPrintCreated _) eq_refl), !(Hiff (EPrintFailed _) eq_refl).
    split_and!; [done..| |done]. intros doc. by rewrite (Hiff (EWrite _ _) eq_refl).
Qed.

(** The fault of the write for a queued folder is the one that decides
    its outcome. *)
Lemma readme_fault_outcome dev fs fs' p w es parent_info :
  lookup_path p fs = Some (Dir true w true es) →
  parent_info_of fs' p = inr parent_info →
  readme_fault dev fs fs' p
  = Some (fault_in w (dev (readme_of p)
                        (generate_readme_content (analyze_entries p es).1 parent_info))).
Proof. intros Hdir Hpi. unfold readme_fault. by rewrite Hdir, Hpi. Qed.

(** After a run that returns, the discovery loop ends without exception
    and queues the folders that the walk yielded before and that hold no
    README now. *)
Lemma main_discover_again dev fs fs' log :
  wf_node fs = true →
  main dev fs = Returned fs' log →
  discover_raised fs' = None
  ∧ ∀ p, p ∈ (discover fs').1 ↔ p ∈ walk_roots fs ∧ present fs' (readme_of p) = false.
Proof.
  intros Hwf Hmain.
  destruct (main_generate _ _ _ Hmain)
    as (glog & pre & post & Hgen & Hlog & Hprints & Hdone).
  pose proof (generate_walk_roots _ _ _ _ Hgen) as Hroots.
  assert (discover_run fs'
          = (filter (λ p, present fs' (readme_of p) = false) (walk_roots fs'),
             map EPrintExists
               (filter (λ p, present fs' (readme_of p) = true) (walk_roots fs')),
             None)) as Hrun.
  { apply discover_loop_done. intros p. rewrite Hroots. intros Hp.
    destruct (walk_roots_accessible _ _ Hwf Hdone Hp) as (w & es & Hstat).
    destruct (generate_stat_dir _ _ _ _ _ _ _ _ _ Hgen Hstat) as [es' Hstat'].
    rewrite (path_exists_readme _ _ _ _ _ Hstat'). eauto. }
  split; [unfold discover_raised; by rewrite Hrun|].
  intros p. unfold discover. rewrite Hrun, Hroots. simpl.
  rewrite list_elem_of_filter. tauto.
Qed.

(** X13: a second run retries the folders in which no README could be
    created, and no other: on the tree that a run leaves, the discovery
    loop ends without exception and queues exactly the folders that were
    queued before and whose README file could not be created.  A folder
    whose write failed once the file was created is reported as failed but
    is not queued again: the README that the failed write left, empty or
    cut short, makes discovery skip it. *)
Theorem X13_second_run_queues_the_folders_left_without_readme dev fs fs' log p :
  wf_node fs = true →
  main dev fs = Returned fs' log →
  discover_raised fs' = None
  ∧ (p ∈ (discover fs').1 ↔
     p ∈ (discover fs).1 ∧ readme_fault dev fs fs' p = Some OpenFault)
  ∧ (∀ k, p ∈ (discover fs).1 → readme_fault dev fs fs' p = Some (WriteFault k) →
          EPrintFailed (readme_of p) ∈ log
          ∧ (∃ part, lookup_path (readme_of p) fs' = Some (File (Some part)))
          ∧ p ∉ (discover fs').1).
Proof.
  intros Hwf Hmain.
  destruct (main_discover_again _ _ _ _ Hwf Hmain) as [Hdone' Hagain].
  destruct (main_generate _ _ _ Hmain)
    as (glog & pre & post & Hgen & Hlog & Hprints & Hdone).
  assert (∀ doc, lookup_path (readme_of p) fs' = Some (File (Some doc)) →
                 present fs' (readme_of p) = true) as Hfile.
  { intros doc Hdoc. unfold present. rewrite Hdoc. apply bool_decide_eq_true_2. eauto. }
  split_and!; [done| |].
  - rewrite Hagain. split.
    + intros [Hroot Hno].
      assert (present fs (readme_of p) = false) as Hno0.
      { destruct (present fs (readme_of p)) eqn:Hex; [|done].
        by rewrite (generate_present _ _ _ _ _ Hgen Hex) in Hno. }
      assert (p ∈ (discover fs).1) as Hp by (by apply elem_of_discover).
      split; [done|].
      destruct (main_outcome _ _ _ _ _ Hwf Hmain Hp)
        as (w & es & pi & Hdir & Hpi & Hcases).
      rewrite (readme_fault_outcome _ _ _ _ _ _ _ Hdir Hpi).
      destruct (fault_in w _); [|done|].
      * destruct Hcases as (_ & _ & _ & Hdoc). rewrite (Hfile _ Hdoc) in Hno. done.
      * destruct Hcases as (_ & _ & _ & Hdoc). rewrite (Hfile _ Hdoc) in Hno. done.
    + intros [Hp Hf]. pose proof Hp as (Hroot & _ & _)%discover_elem.
      split; [done|].
      destruct (main_outcome _ _ _ _ _ Hwf Hmain Hp)
        as (w & es & pi & Hdir & Hpi & Hcases).
      rewrite (readme_fault_outcome _ _ _ _ _ _ _ Hdir Hpi) in Hf.
      injection Hf as Hf. rewrite Hf in Hcases. by destruct Hcases as (_ & _ & _ & ?).
  - intros k Hp Hf.
    destruct (main_outcome _ _ _ _ _ Hwf Hmain Hp)
      as (w & es & pi & Hdir & Hpi & Hcases).
    rewrite (readme_fault_outcome _ _ _ _ _ _ _ Hdir Hpi) in Hf.
    injection Hf as Hf. rewrite Hf in Hcases. destruct Hcases as (H1 & _ & _ & H4).
    split_and!; [done|eauto|]. rewrite Hagain. intros [_ Hno].
    rewrite (Hfile _ H4) in Hno. done.
Qed.

(** X14: what decides the outcome for a queued folder is the fault that
    the write of its README meets.  Without fault the write is reported as
    created, not as failed, and the folder holds the written document when
    the run ends.  When the file cannot be created (the folder is not
    writable, or the device refuses), the write is reported as failed, not
    as created, nothing is written, and the folder holds no README when
    the run ends.  When the write fails once the file is created, the
    report is the same, and the folder holds a README with the part of the
    document that was written, possibly empty, when the run ends. *)
Theorem X14_write_outcome_follows_the_fault dev fs fs' log p :
  wf_node fs = true →
  main dev fs = Returned fs' log →
  p ∈ (discover fs).1 →
  ∃ w x es parent_info,
    lookup_path p fs = Some (Dir true w x es)
    ∧ parent_info_of fs' p = inr parent_info
    ∧ match fault_in w (dev (readme_of p)
                          (generate_readme_content (analyze_entries p es).1
                             parent_info)) with
      | NoFault =>
          EPrintCreated (readme_of p) ∈ log
          ∧ (EPrintFailed (readme_of p) ∉ log)
          ∧ ∃ doc, EWrite (readme_of p) doc ∈ log
                   ∧ lookup_path (readme_of p) fs' = Some (File (Some doc))
      | OpenFault =>
          EPrintFailed (readme_of p) ∈ log
          ∧ (EPrintCreated (readme_of p) ∉ log)
          ∧ (readme_of p ∉ written_files log)
          ∧ present fs' (readme_of p) = false
      | WriteFault k =>
          EPrintFailed (readme_of p) ∈ log
          ∧ (EPrintCreated (readme_of p) ∉ log)
          ∧ (readme_of p ∉ written_files log)
          ∧ lookup_path (readme_of p) fs'
            = Some (File (Some (String.substring 0 k
                                  (generate_readme_content (analyze_entries p es).1
                                     parent_info))))
      end.
Proof.
  intros Hwf Hmain Hp.
  destruct (main_outcome _ _ _ _ _ Hwf Hmain Hp) as (w & es & pi & Hdir & Hpi & Hcases).
  exists w, true, es, pi. split_and!; [done..|].
  assert ((∀ doc, EWrite (readme_of p) doc ∉ log) → readme_of p ∉ written_files log)
    as Hnot.
  { intros Hno. unfold written_files. rewrite list_elem_of_omap. intros (e & He & Hf).
    destruct e; simplify_eq. by eapply Hno. }
  destruct (fault_in w _); destruct Hcases as (H1 & H2 & H3 & H4).
  - split_and!; eauto.
  - split_and!; auto.
  - split_and!; auto.
Qed.

(** X15: discovery queues folders below [src], [src] included, that the
    walk reaches and that hold no [README.md], each once, and nothing else:
    no regular file, no folder below a directory that cannot be
    enumerated, no folder that has its README; and when the discovery loop
    ends without exception, it has queued every such folder. *)
Theorem X15_discovery_queues_the_reachable_folders_without_readme fs :
  wf_node fs = true →
  NoDup (discover fs).1
  ∧ (∀ p, p ∈ (discover fs).1 →
          reached_by_walk fs p ∧ present fs (readme_of p) = false)
  ∧ (discover_raised fs = None →
     ∀ p, reached_by_walk fs p → present fs (readme_of p) = false →
          p ∈ (discover fs).1).
Proof.
  intros Hwf. split_and!; [by apply discover_NoDup| |].
  - intros p (Hp & Hno & _)%discover_elem. split; [|done]. by apply walk_roots_reached.
  - intros Hdone p Hp Hno. apply elem_of_discover; [done|].
    split; [|done]. by apply reached_by_walk_roots.
Qed.

(** X18: on a tree that does not change, a run returns exactly when the
    project root can be searched and so can every folder that the walk
    reaches: [exists] raises [PermissionError] on the README of a folder
    that cannot be searched, outside any [try].  A run that does not
    return ends with that exception, has printed messages only, and
    leaves the tree as it was. *)
Theorem X18_run_returns_unless_a_folder_cannot_be_searched dev fs :
  wf_node fs = true →
  ((∃ fs' log, main dev fs = Returned fs' log) ↔
     (∀ r w es, fs ≠ Dir r w false es)
     ∧ (∀ p r w es, reached_by_walk fs p → lookup_path p fs ≠ Some (Dir r w false es)))
  ∧ (∀ e fs' log, main dev fs = Escaped e fs' log →
       e = PermissionError ∧ fs' = fs ∧ ∀ ev, ev ∈ log → is_driver_print ev = true).
Proof.
  intros Hwf.
  assert (discover_raised fs ≠ None →
          ∃ p r w es, reached_by_walk fs p ∧ lookup_path p fs = Some (Dir r w false es))
    as Hraised.
  { unfold discover_raised, discover_run.
    destruct (discover_loop fs (walk_roots fs)).2 as [e|] eqn:He; [|done]. intros _.
    apply discover_loop_raised in He as (_ & p & Hp & Hraise).
    destruct (walk_roots_stat _ _ Hwf Hp) as (w & x & es & Hstat).
    destruct x; [by rewrite (path_exists_readme _ _ _ _ _ Hstat) in Hraise|].
    exists p, true, w, es. split; [by apply walk_roots_reached|by apply stat_lookup]. }
  split.
  - split.
    + intros (fs' & log & Hmain).
      destruct (main_generate _ _ _ Hmain) as (_ & _ & _ & _ & _ & _ & Hdone).
      split.
      * intros r w es ->. revert Hmain. unfold main, main_between. by simpl.
      * intros p r w es Hp%reached_by_walk_roots Hdir.
        destruct (walk_roots_accessible _ _ Hwf Hdone Hp) as (w' & es' & Hs%stat_lookup).
        congruence.
    + intros [Hroot Hall].
      assert (∃ b, path_exists fs src_path = inr b) as [b Hb].
      { unfold path_exists. change src_path with ["src"].
        destruct fs as [t|r w [] es]; simpl; [eauto| |by destruct (Hroot r w es)].
        destruct (entry_lookup "src" es); eauto. }
      apply (main_returns fs b Hwf Hb).
      destruct (discover_raised fs) as [e|] eqn:He; [|done].
      destruct Hraised as (p & r & w & es & Hp & Hdir); [done|].
      by destruct (Hall p r w es Hp).
  - intros e fs' log. unfold main, main_between.
    destruct (path_exists fs src_path) as [e0|[]] eqn:Hsrc.
    + intros [= <- <- <-]. split_and!; [by eapply path_exists_inl|done|].
      by intros ev ?%elem_of_nil.
    + pose proof (λ p, discover_accessible fs p Hwf) as Hacc.
      pose proof (discover_log_prints fs) as Hprints.
      unfold discover in Hacc, Hprints.
      destruct (discover_run fs) as [[queue log0] raised] eqn:Hd. simpl in *.
      destruct raised as [e1|].
      * intros [= <- <- <-]. split_and!; [|done|].
        -- assert ((discover_loop fs (walk_roots fs)).2 = Some e1) as He
             by (unfold discover_run in Hd; by rewrite Hd).
           by apply discover_loop_raised in He as [-> _].
        -- intros ev [->|Hev]%elem_of_cons; [done|by apply Hprints].
      * destruct (generate_returns (dev:=dev) fs (sorted_by_depth queue))
          as (fs2 & log2 & ->); [|done].
        intros q Hq. apply Hacc. by rewrite sorted_by_depth_Permutation in Hq.
    + done.
Qed.

(** On [sealed_project] the walk yields [src], [src/open], [src/sealed]
    and [src/after]; the call of [exists] for [src/sealed/README.md]
    raises, and the run ends there, with nothing written. *)
Example discovery_stops_at_sealed_folder :
  walk_roots sealed_project
  = [["src"]; ["src"; "open"]; ["src"; "sealed"]; ["src"; "after"]]
  ∧ discover_raised sealed_project = Some PermissionError
  ∧ main reliable_device sealed_project
    = Escaped PermissionError sealed_project [EPrintGenerating].
Proof. vm_compute. by repeat split. Qed.

(** On [Examples.locked_project] with a device on which every write fails
    once the file is created: the three writes are reported as failed;
    [src] and [src/locked/child] are left with an empty README, [src/locked]
    with none, and the next discovery queues [src/locked] only. *)
Example failed_writes_leave_empty_readmes :
  let run := main full_device Examples.locked_project in
  reported (final_log run)
  = [readme_of ["src"]; readme_of ["src"; "locked"]; readme_of ["src"; "locked"; "child"]]
  ∧ written_files (final_log run) = []
  ∧ lookup_path (readme_of ["src"]) (final_fs run) = Some (File (Some EmptyString))
  ∧ lookup_path (readme_of ["src"; "locked"]) (final_fs run) = None
  ∧ lookup_path (readme_of ["src"; "locked"; "child"]) (final_fs run)
    = Some (File (Some EmptyString))
  ∧ (discover (final_fs run)).1 = [["src"; "locked"]].
Proof. vm_compute. by repeat split. Qed.

(** On [Examples.agent_project] with a device on which no file can be
    opened for writing: the three writes are reported as failed, the tree
    is left as it was, and the next discovery queues the same folders. *)
Example unopened_writes_change_nothing :
  let run := main readonly_device Examples.agent_project in
  length (reported (final_log run)) = 3
  ∧ written_files (final_log run) = []
  ∧ final_fs run = Examples.agent_project
  ∧ (discover (final_fs run)).1 = (discover Examples.agent_project).1.
Proof. vm_compute. by repeat split. Qed.

(** ** The renderer, once more *)

(** X16: the document depends on the analysis through the folder name,
    the two listings and the line counts of the listed files whose name
    ends with [.ts] only: the four flags, the recorded path and the line
    counts of the other files ([.tsx] files among them) have no effect on
    it. *)
Theorem X16_document_ignores_flags_path_and_other_counts info info' parent_info :
  fa_name info = fa_name info' →
  files info = files info' →
  subfolders info = subfolders info' →
  (∀ f, f ∈ files info → PyStr.endswith f ".ts" = true →
        line_counts info !! f = line_counts info' !! f) →
  generate_readme_content info parent_info = generate_readme_content info' parent_info.
Proof.
  intros Hname Hfiles Hsubs Hcounts.
  unfold generate_readme_content, readme_lines. rewrite Hname.
  assert (key_files_section info = key_files_section info') as ->.
  { unfold key_files_section. rewrite <- Hfiles.
    destruct (files info) as [|f0 fs0] eqn:Hfs; [done|]. rewrite <- Hfs in *.
    do 3 f_equal. apply map_ext_in. intros f Hf%list_elem_of_In.
    rewrite sorted_Permutation in Hf. unfold key_file_lines.
    destruct (PyStr.endswith f ".ts") eqn:Hts; [|done].
    unfold lookup_total, map_lookup_total. by rewrite (Hcounts f Hf Hts). }
  assert (subfolders_section info = subfolders_section info') as ->; [|done].
  unfold subfolders_section. by rewrite Hsubs.
Qed.

(** X17: the analyzer decides by [Path.suffix] and the renderer by
    [str.endswith], and they differ on one name ending with [.ts]: the
    file called [.ts] has no suffix, so it is not counted and gets the
    placeholder line; every other regular file of the folder whose name
    ends with [.ts] gets the line with the count recorded for it. *)
Theorem X17_name_ending_in_ts_is_counted_unless_it_is_bare p es f t :
  NoDup (map fst es) →
  (f, File t) ∈ es →
  PyStr.endswith f ".ts" = true →
  key_file_lines (analyze_entries p es).1 f
  = if bool_decide (f = ".ts") then [plain_file_line f]
    else [counted_file_line f (try_count_lines t)].
Proof.
  intros Hnd Hin Hts.
  pose proof (analyze_entries_line_counts p es f Hnd) as Hk.
  unfold tracked_count in Hk. rewrite (entry_lookup_NoDup _ _ _ Hnd Hin) in Hk.
  unfold key_file_lines. rewrite Hts.
  destruct (endswith_inv _ _ Hts) as [pre ->].
  destruct (decide (pre = EmptyString)) as [->|Hpre].
  - rewrite Hk. by vm_compute.
  - rewrite suffix_of_stem_ts in Hk by done.
    rewrite bool_decide_eq_true_2 in Hk by (by left).
    rewrite bool_decide_eq_true_2 by (rewrite Hk; eauto).
    rewrite (lookup_total_correct _ _ _ Hk). simpl.
    rewrite bool_decide_eq_false_2; [done|].
    intros Heq%(f_equal String.length). rewrite length_app_str in Heq. simpl in Heq.
    destruct pre; [done|simpl in Heq; lia].
Qed.

(** * The further properties at work on the sample trees *)

Lemma X1_witness :
  lookup_path ["src"; "mixed"] mixed_project = Some (Dir true true true mixed_entries)
  ∧ analyze_folder mixed_project ["src"; "mixed"]
    = inr (analyze_entries ["src"; "mixed"] mixed_entries)
  ∧ (has_typescript (analyze_entries ["src"; "mixed"] mixed_entries).1 = true ↔
       ∃ f t, (f, File t) ∈ mixed_entries
              ∧ (PurePath.suffix f = ".ts" ∨ PurePath.suffix f = ".tsx"))
  ∧ (has_javascript (analyze_entries ["src"; "mixed"] mixed_entries).1 = true ↔
       ∃ f t, (f, File t) ∈ mixed_entries
              ∧ (PurePath.suffix f = ".js" ∨ PurePath.suffix f = ".jsx"))
  ∧ (has_json (analyze_entries ["src"; "mixed"] mixed_entries).1 = true ↔
       ∃ f t, (f, File t) ∈ mixed_entries ∧ PurePath.suffix f = ".json")
  ∧ (has_markdown (analyze_entries ["src"; "mixed"] mixed_entries).1 = true ↔
       ∃ f t, (f, File t) ∈ mixed_entries ∧ PurePath.suffix f = ".md").
Proof.
  assert (lookup_path ["src"; "mixed"] mixed_project
          = Some (Dir true true true mixed_entries)) as H1 by reflexivity.
  assert (analyze_folder mixed_project ["src"; "mixed"]
          = inr ((analyze_entries ["src"; "mixed"] mixed_entries).1,
                 (analyze_entries ["src"; "mixed"] mixed_entries).2)) as H2
    by compute_eq.
  assert (analyze_folder mixed_project ["src"; "mixed"]
          = inr (analyze_entries ["src"; "mixed"] mixed_entries)) as H3 by compute_eq.
  refine (conj H1 (conj H3 _)).
  exact (X1_flags_tell_the_suffixes_present _ _ _ _ _ _ _ _ H1 H2).
Defined.

Lemma X2_witness :
  lookup_path ["src"; "mixed"] mixed_project = Some (Dir true true true mixed_entries)
  ∧ analyze_folder mixed_project ["src"; "mixed"]
    = inr (analyze_entries ["src"; "mixed"] mixed_entries)
  ∧ fa_path (analyze_entries ["src"; "mixed"] mixed_entries).1 = ["src"; "mixed"]
  ∧ fa_name (analyze_entries ["src"; "mixed"] mixed_entries).1
    = PurePath.name ["src"; "mixed"]
  ∧ files (analyze_entries ["src"; "mixed"] mixed_entries).1
    = map fst (filter (λ e, is_file (snd e)) mixed_entries)
  ∧ subfolders (analyze_entries ["src"; "mixed"] mixed_entries).1
    = map fst (filter (λ e, is_dir (snd e) ∧ fst e ∉ excluded_dirs) mixed_entries)
  ∧ (analyze_entries ["src"; "mixed"] mixed_entries).2
    = map (λ e, EOpen (PurePath.child ["src"; "mixed"] (fst e)))
        (filter (λ e, is_file (snd e)
                      ∧ (PurePath.suffix (fst e) = ".ts"
                         ∨ PurePath.suffix (fst e) = ".tsx"))
                mixed_entries).
Proof.
  assert (lookup_path ["src"; "mixed"] mixed_project
          = Some (Dir true true true mixed_entries)) as H1 by reflexivity.
  assert (analyze_folder mixed_project ["src"; "mixed"]
          = inr ((analyze_entries ["src"; "mixed"] mixed_entries).1,
                 (analyze_entries ["src"; "mixed"] mixed_entries).2)) as H2
    by compute_eq.
  assert (analyze_folder mixed_project ["src"; "mixed"]
          = inr (analyze_entries ["src"; "mixed"] mixed_entries)) as H3 by compute_eq.
  refine (conj H1 (conj H3 _)).
  exact (X2_analysis_lists_the_direct_entries _ _ _ _ _ _ _ _ H1 H2).
Defined.

Lemma X3_witness :
  PyStr.is_ascii "Agent" = true
  ∧ PyStr.lower "Agent" ≠ "Agent"
  ∧ purpose "Agent" = PyStr.title "Agent" +:+ " Module".
Proof.
  assert (PyStr.is_ascii "Agent" = true) as H0 by reflexivity.
  assert (PyStr.lower "Agent" ≠ "Agent") as H1.
  { intros H. vm_compute in H. discriminate H. }
  refine (conj H0 (conj H1 _)).
  exact (X3_name_with_capitals_gets_default_purpose "Agent" H0 H1).
Defined.

Lemma X4_witness :
  (PurePath.suffix "data.json" = ".js" ∨ PurePath.suffix "data.json" = ".json"
   ∨ PurePath.suffix "data.json" = ".md")
  ∧ key_file_lines (analyze_entries ["src"; "mixed"] mixed_entries).1 "data.json"
    = [plain_file_line "data.json"].
Proof.
  assert (PurePath.suffix "data.json" = ".js" ∨ PurePath.suffix "data.json" = ".json"
          ∨ PurePath.suffix "data.json" = ".md") as H1.
  { right. left. compute_eq. }
  split; [done|].
  exact (X4_script_data_and_doc_files_get_the_plain_line _ "data.json" H1).
Defined.

Lemma X6_witness :
  Forall (λ l, plain_line l = true) ["a"; "b"]
  ∧ plain_line "c" = true
  ∧ "c" ≠ EmptyString
  ∧ try_count_lines (Some (terminated_lines ["a"; "b"] +:+ "c")) = 3
  ∧ try_count_lines (Some (terminated_lines ["a"; "b"])) = 2
  ∧ try_count_lines (Some EmptyString) = try_count_lines None.
Proof.
  assert (Forall (λ l, plain_line l = true) ["a"; "b"]) as H1
    by (repeat constructor).
  assert (plain_line "c" = true) as H2 by reflexivity.
  assert ("c" ≠ EmptyString) as H3 by discriminate.
  refine (conj H1 (conj H2 (conj H3 _))).
  exact (X6_unterminated_last_line_is_counted ["a"; "b"] "c" H1 H2 H3).
Defined.

Lemma X7_witness :
  (∀ w x es, lookup_path src_path closed_src_project ≠ Some (Dir true w x es))
  ∧ (discover closed_src_project).1 = []
  ∧ ∃ log,
      (∀ e, e ∈ log → is_driver_print e = true)
      ∧ main reliable_device closed_src_project = Returned closed_src_project log.
Proof.
  assert (∀ w x es, lookup_path src_path closed_src_project ≠ Some (Dir true w x es))
    as H1.
  { intros w x es H. vm_compute in H. discriminate H. }
  split; [done|].
  exact (X7_root_that_cannot_be_walked_changes_nothing reliable_device _ H1).
Defined.

Lemma X8_witness :
  wf_node Examples.agent_project = true
  ∧ EOpen ["src"; "agent"; "planner.ts"] ∈ final_log agent_run
  ∧ ∃ p c t,
      ["src"; "agent"; "planner.ts"] = PurePath.child p c
      ∧ p ∈ (discover Examples.agent_project).1
      ∧ lookup_path ["src"; "agent"; "planner.ts"] Examples.agent_project = Some (File t)
      ∧ (PurePath.suffix c = ".ts" ∨ PurePath.suffix c = ".tsx").
Proof.
  assert (wf_node Examples.agent_project = true) as H1 by compute_eq.
  assert (main reliable_device Examples.agent_project
          = Returned (final_fs agent_run) (final_log agent_run)) as H2 by compute_eq.
  assert (EOpen ["src"; "agent"; "planner.ts"] ∈ final_log agent_run) as H3
    by compute_elem.
  refine (conj H1 (conj H3 _)).
  exact (X8_only_typed_sources_of_queued_folders_are_opened _ _ _ _ _ H1 H2 H3).
Defined.


Lemma X11_witness :
  (∀ g t, lookup_path g Examples.agent_project = Some (File t) →
          lookup_path g (final_fs agent_run) = Some (File t))
  ∧ (∀ g r w x es, lookup_path g Examples.agent_project = Some (Dir r w x es) →
                   ∃ es', lookup_path g (final_fs agent_run) = Some (Dir r w x es'))
  ∧ walk_roots (final_fs agent_run) = walk_roots Examples.agent_project
  ∧ (∀ g, present (final_fs agent_run) g = true →
          present Examples.agent_project g = true
          ∨ ∃ p, p ∈ (discover Examples.agent_project).1 ∧ g = readme_of p).
Proof.
  assert (main reliable_device Examples.agent_project
          = Returned (final_fs agent_run) (final_log agent_run)) as H1 by compute_eq.
  exact (X11_run_only_adds_readmes _ _ _ _ H1).
Defined.

Lemma X12_witness :
  wf_node Examples.agent_project = true
  ∧ EWrite (readme_of ["src"; "agent"])
           (written_doc (readme_of ["src"; "agent"]) (final_log agent_run))
    ∈ final_log agent_run
  ∧ ∃ w x es parent_info,
      lookup_path ["src"; "agent"] Examples.agent_project = Some (Dir true w x es)
      ∧ parent_info_of (final_fs agent_run) ["src"; "agent"] = inr parent_info
      ∧ written_doc (readme_of ["src"; "agent"]) (final_log agent_run)
        = generate_readme_content (analyze_entries ["src"; "agent"] es).1 parent_info
      ∧ lookup_path (readme_of ["src"; "agent"]) (final_fs agent_run)
        = Some (File (Some (written_doc (readme_of ["src"; "agent"])
                                        (final_log agent_run)))).
Proof.
  assert (wf_node Examples.agent_project = true) as H1 by compute_eq.
  assert (main reliable_device Examples.agent_project
          = Returned (final_fs agent_run) (final_log agent_run)) as H2 by compute_eq.
  assert (EWrite (readme_of ["src"; "agent"])
            (written_doc (readme_of ["src"; "agent"]) (final_log agent_run))
          ∈ final_log agent_run) as H3 by compute_elem.
  refine (conj H1 (conj H3 _)).
  exact (X12_written_readme_renders_the_initial_folder _ _ _ _ _ _ H1 H2 H3).
Defined.

Lemma X13_witness :
  wf_node Examples.locked_project = true
  ∧ discover_raised (final_fs (main full_device Examples.locked_project)) = None
  ∧ (["src"; "locked"] ∈ (discover (final_fs (main full_device Examples.locked_project))).1 ↔
     ["src"; "locked"] ∈ (discover Examples.locked_project).1
     ∧ readme_fault full_device Examples.locked_project
         (final_fs (main full_device Examples.locked_project)) ["src"; "locked"]
       = Some OpenFault)
  ∧ (∀ k, ["src"; "locked"] ∈ (discover Examples.locked_project).1 →
          readme_fault full_device Examples.locked_project
            (final_fs (main full_device Examples.locked_project)) ["src"; "locked"]
          = Some (WriteFault k) →
          EPrintFailed (readme_of ["src"; "locked"])
          ∈ final_log (main full_device Examples.locked_project)
          ∧ (∃ part, lookup_path (readme_of ["src"; "locked"])
                       (final_fs (main full_device Examples.locked_project))
                     = Some (File (Some part)))
          ∧ ["src"; "locked"]
            ∉ (discover (final_fs (main full_device Examples.locked_project))).1).
Proof.
  assert (wf_node Examples.locked_project = true) as H1 by compute_eq.
  assert (main full_device Examples.locked_project
          = Returned (final_fs (main full_device Examples.locked_project))
                     (final_log (main full_device Examples.locked_project))) as H2
    by compute_eq.
  split; [done|].
  exact (X13_second_run_queues_the_folders_left_without_readme
           _ _ _ _ ["src"; "locked"] H1 H2).
Defined.

Lemma X14_witness :
  wf_node Examples.locked_project = true
  ∧ ["src"; "locked"; "child"] ∈ (discover Examples.locked_project).1
  ∧ ∃ w x es parent_info,
      lookup_path ["src"; "locked"; "child"] Examples.locked_project
      = Some (Dir true w x es)
      ∧ parent_info_of (final_fs (main full_device Examples.locked_project))
          ["src"; "locked"; "child"] = inr parent_info
      ∧ match fault_in w
                (full_device (readme_of ["src"; "locked"; "child"])
                   (generate_readme_content
                      (analyze_entries ["src"; "locked"; "child"] es).1 parent_info)) with
        | NoFault =>
            EPrintCreated (readme_of ["src"; "locked"; "child"])
            ∈ final_log (main full_device Examples.locked_project)
            ∧ (EPrintFailed (readme_of ["src"; "locked"; "child"])
               ∉ final_log (main full_device Examples.locked_project))
            ∧ ∃ doc, EWrite (readme_of ["src"; "locked"; "child"]) doc
                     ∈ final_log (main full_device Examples.locked_project)
                     ∧ lookup_path (readme_of ["src"; "locked"; "child"])
                         (final_fs (main full_device Examples.locked_project))
                       = Some (File (Some doc))
        | OpenFault =>
            EPrintFailed (readme_of ["src"; "locked"; "child"])
            ∈ final_log (main full_device Examples.locked_project)
            ∧ (EPrintCreated (readme_of ["src"; "locked"; "child"])
               ∉ final_log (main full_device Examples.locked_project))
            ∧ (readme_of ["src"; "locked"; "child"]
               ∉ written_files (final_log (main full_device Examples.locked_project)))
            ∧ present (final_fs (main full_device Examples.locked_project))
                (readme_of ["src"; "locked"; "child"]) = false
        | WriteFault k =>
            EPrintFailed (readme_of ["src"; "locked"; "child"])
            ∈ final_log (main full_device Examples.locked_project)
            ∧ (EPrintCreated (readme_of ["src"; "locked"; "child"])
               ∉ final_log (main full_device Examples.locked_project))
            ∧ (readme_of ["src"; "locked"; "child"]
               ∉ written_files (final_log (main full_device Examples.locked_project)))
            ∧ lookup_path (readme_of ["src"; "locked"; "child"])
                (final_fs (main full_device Examples.locked_project))
              = Some (File (Some (String.substring 0 k
                                    (generate_readme_content
                                       (analyze_entries ["src"; "locked"; "child"] es).1
                                       parent_info))))
        end.
Proof.
  assert (wf_node Examples.locked_project = true) as H1 by compute_eq.
  assert (main full_device Examples.locked_project
          = Returned (final_fs (main full_device Examples.locked_project))
                     (final_log (main full_device Examples.locked_project))) as H2
    by compute_eq.
  assert (["src"; "locked"; "child"] ∈ (discover Examples.locked_project).1) as H3
    by compute_elem.
  refine (conj H1 (conj H3 _)).
  exact (X14_write_outcome_follows_the_fault _ _ _ _ _ H1 H2 H3).
Defined.

Lemma X15_witness :
  wf_node Examples.hidden_git_project = true
  ∧ NoDup (discover Examples.hidden_git_project).1
  ∧ (∀ p, p ∈ (discover Examples.hidden_git_project).1 →
          reached_by_walk Examples.hidden_git_project p
          ∧ present Examples.hidden_git_project (readme_of p) = false)
  ∧ (discover_raised Examples.hidden_git_project = None →
     ∀ p, reached_by_walk Examples.hidden_git_project p →
          present Examples.hidden_git_project (readme_of p) = false →
          p ∈ (discover Examples.hidden_git_project).1).
Proof.
  assert (wf_node Examples.hidden_git_project = true) as H1 by compute_eq.
  split; [done|].
  exact (X15_discovery_queues_the_reachable_folders_without_readme _ H1).
Defined.

Lemma X18_witness :
  wf_node sealed_project = true
  ∧ ((∃ fs' log, main reliable_device sealed_project = Returned fs' log) ↔
       (∀ r w es, sealed_project ≠ Dir r w false es)
       ∧ (∀ p r w es, reached_by_walk sealed_project p →
                      lookup_path p sealed_project ≠ Some (Dir r w false es)))
  ∧ (∀ e fs' log, main reliable_device sealed_project = Escaped e fs' log →
       e = PermissionError ∧ fs' = sealed_project
       ∧ ∀ ev, ev ∈ log → is_driver_print ev = true).
Proof.
  assert (wf_node sealed_project = true) as H1 by compute_eq.
  split; [done|].
  exact (X18_run_returns_unless_a_folder_cannot_be_searched reliable_device _ H1).
Defined.

Lemma X16_witness :
  fa_name (analyze_entries ["src"; "ui"] Examples.ui_entries).1
  = fa_name (analyze_entries ["lib"; "ui"] ui_entries_recounted).1
  ∧ files (analyze_entries ["src"; "ui"] Examples.ui_entries).1
    = files (analyze_entries ["lib"; "ui"] ui_entries_recounted).1
  ∧ subfolders (analyze_entries ["src"; "ui"] Examples.ui_entries).1
    = subfolders (analyze_entries ["lib"; "ui"] ui_entries_recounted).1
  ∧ line_counts (analyze_entries ["src"; "ui"] Examples.ui_entries).1 !! "App.tsx"
    ≠ line_counts (analyze_entries ["lib"; "ui"] ui_entries_recounted).1
      !! "App.tsx"
  ∧ generate_readme_content (analyze_entries ["src"; "ui"] Examples.ui_entries).1 None
    = generate_readme_content
        (analyze_entries ["lib"; "ui"] ui_entries_recounted).1 None.
Proof.
  assert (fa_name (analyze_entries ["src"; "ui"] Examples.ui_entries).1
          = fa_name (analyze_entries ["lib"; "ui"] ui_entries_recounted).1)
    as H1 by compute_eq.
  assert (files (analyze_entries ["src"; "ui"] Examples.ui_entries).1
          = files (analyze_entries ["lib"; "ui"] ui_entries_recounted).1)
    as H2 by compute_eq.
  assert (subfolders (analyze_entries ["src"; "ui"] Examples.ui_entries).1
          = subfolders (analyze_entries ["lib"; "ui"] ui_entries_recounted).1)
    as H3 by compute_eq.
  assert (∀ f, f ∈ files (analyze_entries ["src"; "ui"] Examples.ui_entries).1 →
               PyStr.endswith f ".ts" = true →
               line_counts (analyze_entries ["src"; "ui"] Examples.ui_entries).1 !! f
               = line_counts
                   (analyze_entries ["lib"; "ui"] ui_entries_recounted).1 !! f)
    as H4.
  { intros f Hf Hts. vm_compute in Hf.
    repeat (apply elem_of_cons in Hf as [Hf|Hf];
            [subst f; first [by vm_compute in Hts | compute_eq]|]).
    by apply elem_of_nil in Hf. }
  assert (line_counts (analyze_entries ["src"; "ui"] Examples.ui_entries).1 !! "App.tsx"
          ≠ line_counts
              (analyze_entries ["lib"; "ui"] ui_entries_recounted).1
              !! "App.tsx") as H5.
  { intros H. vm_compute in H. discriminate H. }
  refine (conj H1 (conj H2 (conj H3 (conj H5 _)))).
  exact (X16_document_ignores_flags_path_and_other_counts _ _ None H1 H2 H3 H4).
Defined.

Lemma X17_witness :
  NoDup (map fst bare_ts_entries)
  ∧ (".ts", File (Some "x")) ∈ bare_ts_entries
  ∧ PyStr.endswith ".ts" ".ts" = true
  ∧ key_file_lines (analyze_entries ["src"; "odd"] bare_ts_entries).1 ".ts"
    = [plain_file_line ".ts"].
Proof.
  assert (NoDup (map fst bare_ts_entries)) as H1.
  { apply (bool_decide_unpack _). vm_compute. exact I. }
  assert ((".ts", File (Some "x")) ∈ bare_ts_entries) as H2 by compute_elem.
  assert (PyStr.endswith ".ts" ".ts" = true) as H3 by compute_eq.
  refine (conj H1 (conj H2 (conj H3 _))).
  exact (X17_name_ending_in_ts_is_counted_unless_it_is_bare
           ["src"; "odd"] _ _ _ H1 H2 H3).
Defined.
